(** * Augraphy: dithering, light masks and augmentation sequences

    A shallow embedding of the Python sources

      - augraphy/augmentations/dithering.py      (class Dithering)
      - augraphy/base/augmentationsequence.py    (class AugmentationSequence)
      - augraphy/augmentations/geometric.py      (class Geometric)
      - Augraphy/Augmentations/ScannerAugmentation.py (light masks, noise)
      - augraphy/augmentations/subtlenoise.py    (class SubtleNoise)
      - augraphy/augmentations/letterpress.py    (class Letterpress)

    Python integers are [Z]; Python floats are exact rationals [Q]: the
    floats of the matrix construction and of the evaluations on concrete
    images are integers or dyadic numbers of few bits, on which binary64
    arithmetic is exact; the rounding of longer chains of diffused errors
    is not modelled.  A raised exception is a value of [pyexn]; mutation of
    a list object is explicit state passing. *)

From Stdlib Require Import String Bool Arith ZArith QArith Qround Qabs Lia Lqa List.
Import ListNotations.

Open Scope Z_scope.

(** ** Python outcomes *)

Inductive pyexn : Type :=
| RecursionError
| IndexError
| TypeError
| AttributeError
| AssertionError
| ZeroDivisionError
| ValueError
| NameError (name : string).

Inductive pyresult (A : Type) : Type :=
| Ok (a : A)
| Raise (e : pyexn).

Arguments Ok {A} a.
Arguments Raise {A} e.

Definition bind {A B : Type} (r : pyresult A) (k : A -> pyresult B) : pyresult B :=
  match r with
  | Ok a => k a
  | Raise e => Raise e
  end.

Notation "x <- c ;; k" := (bind c (fun x => k))
  (at level 61, c at next level, right associativity).
Notation "' p <- c ;; k" := (bind c (fun p => k))
  (at level 61, p pattern, c at next level, right associativity).

(** ** Python numbers: [int] and [float] are told apart, as [range] and
    list indexing accept the first only. *)

Inductive pynum : Type :=
| PInt (z : Z)
| PFloat (q : Q).

Definition num_val (a : pynum) : Q :=
  match a with
  | PInt z => inject_Z z
  | PFloat q => q
  end.

(** [a + b]: an [int] only when both operands are. *)
Definition py_add (a b : pynum) : pynum :=
  match a, b with
  | PInt u, PInt v => PInt (u + v)
  | _, _ => PFloat (num_val a + num_val b)
  end.

(** [a / 2]: true division, always a [float]. *)
Definition py_half (a : pynum) : pynum := PFloat (num_val a / 2).

(** [a == 1] *)
Definition py_is_one (a : pynum) : bool := Qeq_bool (num_val a) 1.

(** [int(a)]: truncation toward zero. *)
Definition Qtrunc (q : Q) : Z := Z.quot (Qnum q) (Zpos (Qden q)).

Definition py_int (a : pynum) : Z :=
  match a with
  | PInt z => z
  | PFloat q => Qtrunc q
  end.

(** ** Lists as Python list objects *)

(** Position denoted by a Python index into a list of length [len]:
    negative indices count from the end, anything else out of range is an
    [IndexError]. *)
Definition py_index (len : nat) (i : Z) : option nat :=
  if (0 <=? i) && (i <? Z.of_nat len) then Some (Z.to_nat i)
  else if (- Z.of_nat len <=? i) && (i <? 0) then Some (Z.to_nat (i + Z.of_nat len))
  else None.

Fixpoint list_set {A : Type} (i : nat) (v : A) (l : list A) : list A :=
  match l, i with
  | [], _ => []
  | _ :: t, O => v :: t
  | h :: t, S j => h :: list_set j v t
  end.

Definition Matrix := list (list Z).

(** [m[r][c]] read at in-range natural positions. *)
Definition cell (m : Matrix) (r c : nat) : option Z :=
  match nth_error m r with
  | Some row => nth_error row c
  | None => None
  end.

(** [matrix[iy][ix] = v] *)
Definition setitem2 (m : Matrix) (iy ix : Z) (v : Z) : pyresult Matrix :=
  match py_index (length m) iy with
  | None => Raise IndexError
  | Some r =>
      match nth_error m r with
      | None => Raise IndexError
      | Some row =>
          match py_index (length row) ix with
          | None => Raise IndexError
          | Some c => Ok (list_set r (list_set c v row) m)
          end
      end
  end.

(** [matrix[iy][ix]] *)
Definition getitem2 (m : Matrix) (iy ix : Z) : pyresult Z :=
  match py_index (length m) iy with
  | None => Raise IndexError
  | Some r =>
      match nth_error m r with
      | None => Raise IndexError
      | Some row =>
          match py_index (length row) ix with
          | None => Raise IndexError
          | Some c =>
              match nth_error row c with
              | Some v => Ok v
              | None => Raise IndexError
              end
          end
      end
  end.

(** [range(a, b)] over naturals; empty when [b <= a]. *)
Definition range (a b : nat) : list nat := seq a (b - a).

(** A [for] loop whose body may raise. *)
Fixpoint for_each {A S : Type} (l : list A) (body : A -> S -> pyresult S) (s : S)
    : pyresult S :=
  match l with
  | [] => Ok s
  | a :: t => s' <- body a s ;; for_each t body s'
  end.

(** ** Images

    A NumPy array of shape (height, width) or (height, width, channels) is
    a list of rows; the rows of an array all have one length. *)

Definition Plane (A : Type) := list (list A).

Inductive Image : Type :=
| Gray (rows : Plane Z)
| Color (rows : Plane (list Z)).

Definition height {A : Type} (a : Plane A) : nat := length a.
Definition width {A : Type} (a : Plane A) : nat := length (hd [] a).

(** [a[y, x]] on a two-dimensional array, [d] standing for a position the
    array does not have. *)
Definition px {A : Type} (d : A) (a : Plane A) (y x : nat) : A :=
  nth x (nth y a []) d.

(** [a[y, x] = v] *)
Definition plane_set {A : Type} (y x : nat) (v : A) (a : Plane A) : Plane A :=
  match nth_error a y with
  | Some row => list_set y (list_set x v row) a
  | None => a
  end.

(** [a[y, x] += e] on a float array *)
Definition plane_add (y x : nat) (e : Q) (a : Plane Q) : Plane Q :=
  plane_set y x (px 0%Q a y x + e)%Q a.

(** The view [a[:, :, c]] and the assignment [a[:, :, c] = pl]. *)
Definition channel {A : Type} (d : A) (c : nat) (a : Plane (list A)) : Plane A :=
  map (map (fun pixel => nth c pixel d)) a.

Definition set_channel {A : Type} (c : nat) (pl : Plane A) (a : Plane (list A))
    : Plane (list A) :=
  map (fun rp => map (fun pv => list_set c (snd pv) (fst pv)) (combine (fst rp) (snd rp)))
      (combine a pl).

(** [min(a, b)]: [b] only when [b < a]. *)
Definition py_min (a b : Q) : Q := if Qle_bool a b then a else b.

(** [a.astype("float")] *)
Definition to_float (a : Plane Z) : Plane Q := map (map inject_Z) a.

(** [x.astype("uint8")] on one float: the C conversion truncates toward
    zero; a value outside [0, 256) has no defined conversion in C, NumPy on
    x86-64 reduces it modulo 2^8, which is what is written here. *)
Definition astype_uint8 (q : Q) : Z := Qtrunc q mod 256.

Definition plane_uint8 (a : Plane Q) : Plane Z := map (map astype_uint8) a.

Definition is_uint8 (v : Z) : Prop := 0 <= v <= 255.

(** All rows have length [w]. *)
Definition rect {A : Type} (w : nat) (a : Plane A) : Prop :=
  Forall (fun row => length row = w) a.

(** ** Values passed between augmentations *)

#[local] Unset Elimination Schemes.
Inductive pyval : Type :=
| VNone
| VImage (i : Image)
| VTuple (items : list pyval)
| VAugs (names : list string).
#[local] Set Elimination Schemes.

(** [isinstance(v, tuple)] *)
Definition is_tuple (v : pyval) : bool :=
  match v with
  | VTuple _ => true
  | _ => false
  end.

(** [v[0]] on a tuple *)
Definition tuple_first (v : pyval) : pyresult pyval :=
  match v with
  | VTuple (a :: _) => Ok a
  | VTuple [] => Raise IndexError
  | _ => Raise TypeError
  end.

(** [image.copy()]: only arrays have the method. *)
Definition py_copy (v : pyval) : pyresult Image :=
  match v with
  | VImage i => Ok i
  | _ => Raise AttributeError
  end.

(** ** Random draws

    The generator is the stream of the values its next calls to
    [random.random()] return, each in [0, 1]. *)

Definition rng := nat -> Q.

Definition next (s : rng) : Q * rng := (s O, fun n => s (S n)).

Definition rng_ok (s : rng) : Prop := forall n, (0 <= s n /\ s n <= 1)%Q.

(** [random.uniform(a, b)] *)
Definition uniform (a b : Q) (s : rng) : Q * rng :=
  let (d, s') := next s in ((a + (b - a) * d)%Q, s').

(** A computation that draws random numbers and may raise. *)
Definition M (A : Type) : Type := rng -> pyresult (A * rng).

Definition ret {A : Type} (a : A) : M A := fun s => Ok (a, s).

Definition lift {A : Type} (r : pyresult A) : M A :=
  fun s => match r with Ok a => Ok (a, s) | Raise e => Raise e end.

Definition mbind {A B : Type} (c : M A) (k : A -> M B) : M B :=
  fun s => match c s with
           | Ok (a, s') => k a s'
           | Raise e => Raise e
           end.

(** Modelled from the spec: [Augmentation.should_run] of
    augraphy/base/augmentation.py, which is not among the sources: a uniform
    draw from [0, 1] compared against the configured probability [p]. *)
Definition should_run (p : Q) : M bool :=
  fun s => let (d, s') := uniform 0 1 s in Ok (Qle_bool d p, s').

(** The frame every [__call__] shares:

      if force or self.should_run():
          ... return <body>

    [or] does not evaluate [should_run] when [force] holds; falling off the
    end of the function returns [None]. *)
Definition gated (p : Q) (body : pyval -> M pyval) (image : pyval) (force : bool)
    : M pyval :=
  if force then body image
  else mbind (should_run p) (fun go => if go then body image else ret VNone).

(** An augmentation object, as seen by its callers: a name and [__call__]. *)
Record Augmentation : Type := {
  aug_name : string;
  aug_call : pyval -> bool -> M pyval
}.

(** A stage made of a probability and a pure image function, with the
    [image = image.copy()] every stage of the repository starts with. *)
Definition stage (name : string) (p : Q) (f : Image -> Image) : Augmentation :=
  {| aug_name := name;
     aug_call := gated p (fun v => lift (i <- py_copy v ;; Ok (VImage (f i)))) |}.

(** ** Dithering.create_bayer *)

Module Dithering.

(** [[[0 for i in range(size)] for i in range(size)]]; [range] refuses a
    [float]. *)
Definition zeros (size : pynum) : pyresult Matrix :=
  match size with
  | PInt n => Ok (repeat (repeat 0 (Z.to_nat n)) (Z.to_nat n))
  | PFloat _ => Raise TypeError
  end.

(** [matrix == [[]]] *)
Definition is_default (m : Matrix) : bool :=
  match m with
  | [ [] ] => true
  | _ => false
  end.

(** [create_bayer(x, y, size, value, step, matrix)].

    [depth] is the number of stack frames still available: Python raises
    [RecursionError] when they run out.  The list object bound to the
    parameter [matrix] is threaded through: the first component of the
    result is that object after the call, the second is the returned value
    ([None] on the [size == 1] path).  When the argument equals [[[]]] the
    local name is rebound to a fresh matrix and the caller's object is left
    alone. *)
Fixpoint create_bayer (depth : nat) (x y size : pynum) (value step : Z)
    (matrix : Matrix) : pyresult (Matrix * option Matrix) :=
  match depth with
  | O => Raise RecursionError
  | S d =>
      let fresh := is_default matrix in
      m0 <- (if fresh then zeros size else Ok matrix) ;;
      if py_is_one size then
        m1 <- setitem2 m0 (py_int y) (py_int x) value ;;
        Ok (if fresh then matrix else m1, None)
      else
        let half := py_half size in
        ' (m1, _) <- create_bayer d x y half (value + step * 0) (step * 4) m0 ;;
        ' (m2, _) <- create_bayer d (py_add x half) (py_add y half) half
                       (value + step * 1) (step * 4) m1 ;;
        ' (m3, _) <- create_bayer d (py_add x half) y half
                       (value + step * 2) (step * 4) m2 ;;
        ' (m4, _) <- create_bayer d x (py_add y half) half
                       (value + step * 3) (step * 4) m3 ;;
        Ok (if fresh then matrix else m4, Some m4)
  end.

(** The builder of the specification: [create_bayer(0, 0, size, 0, 1)] with
    the default [matrix] argument; the result is the returned value. *)
Definition build (depth : nat) (size : Z) : pyresult (option Matrix) :=
  ' (_, ret) <- create_bayer depth (PInt 0) (PInt 0) (PInt size) 0 1 [ [] ] ;;
  Ok ret.

(** [2 ** order]: an [int] for a non-negative exponent, a [float]
    otherwise. *)
Definition pow2 (order : Z) : pynum :=
  if 0 <=? order then PInt (2 ^ order)
  else PFloat (1 / inject_Z (2 ^ (- order))).

(** [np.floor((value / total_number) * 255)] *)
Definition quantize (total_number value : Z) : pyresult Z :=
  if total_number =? 0 then Raise ZeroDivisionError
  else Ok (Qfloor ((inject_Z value / inject_Z total_number) * 255)).

(** The loop of [dither_Ordered] over the entries of the ordered matrix. *)
Fixpoint quantize_row (total_number : Z) (row : list Z) : pyresult (list Z) :=
  match row with
  | [] => Ok []
  | value :: t =>
      v <- quantize total_number value ;;
      t' <- quantize_row total_number t ;;
      Ok (v :: t')
  end.

Fixpoint quantize_matrix (total_number : Z) (m : Matrix) : pyresult Matrix :=
  match m with
  | [] => Ok []
  | row :: t =>
      r <- quantize_row total_number row ;;
      t' <- quantize_matrix total_number t ;;
      Ok (r :: t')
  end.

(** [a % b] on integers *)
Definition py_mod (a b : Z) : pyresult Z :=
  if b =? 0 then Raise ZeroDivisionError else Ok (a mod b).

(** One iteration of the inner loop of [apply_Ordered]. *)
Definition ordered_step (order : Z) (ordered_matrix : Matrix) (y x : nat)
    (image : Plane Q) : pyresult (Plane Q) :=
  oy <- py_mod (Z.of_nat y) order ;;
  ox <- py_mod (Z.of_nat x) order ;;
  t <- getitem2 ordered_matrix oy ox ;;
  if Qle_bool (px 0%Q image y x) (inject_Z t)
  then Ok (plane_set y x 0%Q image)
  else Ok (plane_set y x 255%Q image).

(** [apply_Ordered(image, ysize, xsize, order, ordered_matrix)]: the array
    after the loops (it is changed in place) and the returned
    [image.astype("uint8")]. *)
Definition apply_Ordered (image : Plane Q) (ysize xsize : nat) (order : Z)
    (ordered_matrix : Matrix) : pyresult (Plane Q * Plane Z) :=
  image' <- for_each (range 0 ysize)
              (fun y => for_each (range 0 xsize) (ordered_step order ordered_matrix y))
              image ;;
  Ok (image', plane_uint8 image').

(** [dither_Ordered(image, order)] *)
Definition dither_Ordered (depth : nat) (image : Image) (order : Z) : pyresult Image :=
  ' (_, created) <- create_bayer depth (PInt 0) (PInt 0) (pow2 order) 0 1 [ [] ] ;;
  match created with
  | None => Raise TypeError
  | Some ordered_matrix =>
      match ordered_matrix with
      | [] => Raise IndexError
      | row0 :: _ =>
          let total_number := Z.of_nat (length ordered_matrix) * Z.of_nat (length row0) - 1 in
          ordered_matrix <- quantize_matrix total_number ordered_matrix ;;
          match image with
          | Color rows =>
              let ysize := height rows in
              let xsize := width rows in
              let dim := length (hd [] (hd [] rows)) in
              out <- for_each (range 0 dim)
                       (fun channel_num img =>
                          ' (_, r) <- apply_Ordered (channel 0%Q channel_num img)
                                        ysize xsize order ordered_matrix ;;
                          Ok (set_channel channel_num (to_float r) img))
                       (map (map (map inject_Z)) rows) ;;
              Ok (Color (map (map (map astype_uint8)) out))
          | Gray rows =>
              ' (_, r) <- apply_Ordered (to_float rows) (height rows) (width rows)
                            order ordered_matrix ;;
              Ok (Gray (plane_uint8 (to_float r)))
          end
      end
  end.

(** One iteration of the inner loop of [apply_Floyd_Steinberg]. *)
Definition fs_step (y x : nat) (image : Plane Q) : Plane Q :=
  let old_pixel := px 0%Q image y x in
  let new_pixel := (255 * inject_Z (Qfloor (old_pixel / 128)))%Q in
  let image := plane_set y x new_pixel image in
  let quant_error := py_min (old_pixel - new_pixel) 0 in
  let image := plane_add y (x + 1) (quant_error * (7 / 16)) image in
  let image := plane_add (y + 1) (x - 1) (quant_error * (3 / 16)) image in
  let image := plane_add (y + 1) x (quant_error * (5 / 16)) image in
  plane_add (y + 1) (x + 1) (quant_error * (1 / 16)) image.

(** The loops of [apply_Floyd_Steinberg]: the float array after them. *)
Definition fs_loops (image : Plane Q) (ysize xsize : nat) : Plane Q :=
  fold_left
    (fun img y => fold_left (fun img x => fs_step y x img) (range 1 (xsize - 1)) img)
    (range 1 (ysize - 1)) image.

(** [apply_Floyd_Steinberg(image, ysize, xsize)]: the returned
    [image.astype("uint8")]. *)
Definition apply_Floyd_Steinberg (image : Plane Q) (ysize xsize : nat) : Plane Z :=
  plane_uint8 (fs_loops image ysize xsize).

(** [dither_Floyd_Steinberg(image)] *)
Definition dither_Floyd_Steinberg (image : Image) : Image :=
  match image with
  | Color rows =>
      let ysize := height rows in
      let xsize := width rows in
      let dim := length (hd [] (hd [] rows)) in
      let out :=
        fold_left
          (fun img channel_num =>
             set_channel channel_num
               (to_float (apply_Floyd_Steinberg (channel 0%Q channel_num img) ysize xsize))
               img)
          (range 0 dim) (map (map (map inject_Z)) rows) in
      Color (map (map (map astype_uint8)) out)
  | Gray rows =>
      Gray (plane_uint8 (to_float (apply_Floyd_Steinberg (to_float rows)
                                     (height rows) (width rows))))
  end.

(** The object: [Dithering(dither, order, p)]. *)
Record t : Type := {
  dither : string;
  order : Z;
  p : Q
}.

(** [Dithering.__call__(image, force)] *)
Definition call (depth : nat) (self : t) : pyval -> bool -> M pyval :=
  gated (p self)
    (fun v => lift
       (image <- py_copy v ;;
        if String.eqb (dither self) "ordered" then
          image_dither <- dither_Ordered depth image (order self) ;;
          Ok (VImage image_dither)
        else
          Ok (VImage (dither_Floyd_Steinberg image)))).

End Dithering.


(** ** AugmentationSequence *)

Module AugmentationSequence.

(** The object: the stages, the probability and the [results] list, which
    lives as long as the object and is appended to by every call. *)
Record t : Type := {
  augmentations : list Augmentation;
  p : Q;
  results : list pyval
}.

(** What one call of an inner augmentation looked like: the callee, the
    image argument, and the [force] argument it received. *)
Record call_event : Type := {
  callee : string;
  arg : pyval;
  force_arg : bool
}.

(** The [for augmentation in self.augmentations] loop.  State: the local
    [result], the list [self.results], and the calls made so far. *)
Fixpoint loop (augs : list Augmentation) (result : pyval) (results : list pyval)
    (calls : list call_event) : M (pyval * list pyval * list call_event) :=
  match augs with
  | [] => ret (result, results, calls)
  | augmentation :: rest =>
      mbind (lift (if is_tuple result then tuple_first result else Ok result))
        (fun result =>
      mbind (aug_call augmentation result false)
        (fun current_result =>
      loop rest current_result (results ++ [current_result])
        (calls ++ [ {| callee := aug_name augmentation; arg := result; force_arg := false |} ])))
  end.

(** [AugmentationSequence.__call__(image, force)]: the returned value, the
    object after the call, and the calls of inner augmentations it made
    (when an augmentation raises, the exception is all that is kept). *)
Definition call (self : t) (image : pyval) (force : bool)
    : M (pyval * t * list call_event) :=
  let body :=
    mbind (loop (augmentations self) image (results self) [])
      (fun '(result, results', calls) =>
         ret (VTuple [result; VAugs (map aug_name (augmentations self))],
              {| augmentations := augmentations self; p := p self; results := results' |},
              calls)) in
  if force then body
  else mbind (should_run (p self)) (fun go => if go then body else ret (VNone, self, [])).

(** [AugmentationSequence(augmentations, p=1)] *)
Definition new (augs : list Augmentation) (p : Q) : t :=
  {| augmentations := augs; p := p; results := [] |}.

(** The first item of the returned pair. *)
Definition primary (v : pyval) : option pyval :=
  match v with
  | VTuple (a :: _) => Some a
  | _ => None
  end.

End AugmentationSequence.

(** ** Geometric *)

Module Geometric.

(** The functions defined in the class body. *)
Inductive method : Type :=
| m_crop
| m_scale_resize
| m_translate.

(** What an attribute of the object can hold. *)
Inductive attr : Type :=
| AFloat (q : Q)
| AInt (z : Z)
| AInts (items : list Z)
| AFloats (items : list Q)
| AMethod (f : method).

Fixpoint assoc (name : string) (d : list (string * attr)) : option attr :=
  match d with
  | [] => None
  | (k, v) :: t => if String.eqb name k then Some v else assoc name t
  end.

(** The attributes of the class: its functions. *)
Definition class_dict : list (string * attr) :=
  [ ("crop", AMethod m_crop);
    ("scale_resize", AMethod m_scale_resize);
    ("translate", AMethod m_translate) ]%string.

(** An object is its instance dictionary. *)
Definition obj := list (string * attr).

(** [Geometric.__init__]: the seven assignments [self.<name> = <name>]. *)
Definition init (scale : Q * Q) (translation : Z * Z) (fliplr flipud : Z)
    (crop : list Z) (rotate_range : Z * Z) (p : Q) : obj :=
  [ ("p", AFloat p);
    ("scale", AFloats [fst scale; snd scale]);
    ("translation", AInts [fst translation; snd translation]);
    ("fliplr", AInt fliplr);
    ("flipud", AInt flipud);
    ("crop", AInts crop);
    ("rotate_range", AInts [fst rotate_range; snd rotate_range]) ]%string.

(** [self.<name>]: a function of the class is a non-data descriptor, so
    the instance dictionary is searched first. *)
Definition getattr (self : obj) (name : string) : pyresult attr :=
  match assoc name self with
  | Some v => Ok v
  | None =>
      match assoc name class_dict with
      | Some v => Ok v
      | None => Raise AttributeError
      end
  end.

(** Truth value of an attribute. *)
Definition truthy (a : attr) : bool :=
  match a with
  | AFloat q => negb (Qeq_bool q 0)
  | AInt z => negb (z =? 0)
  | AInts l => negb (Nat.eqb (length l) 0)
  | AFloats l => negb (Nat.eqb (length l) 0)
  | AMethod _ => true
  end.

(** [l[start:stop]] *)
Definition py_slice {A : Type} (start stop : Z) (l : list A) : list A :=
  let n := Z.of_nat (length l) in
  let clip i := Z.max 0 (Z.min n (if i <? 0 then i + n else i)) in
  let a := clip start in
  let b := clip stop in
  firstn (Z.to_nat (b - a)) (skipn (Z.to_nat a) l).

(** [image[ystart:yend, xstart:xend]] *)
Definition slice2 (ystart yend xstart xend : Z) (image : Image) : Image :=
  match image with
  | Gray rows => Gray (map (py_slice xstart xend) (py_slice ystart yend rows))
  | Color rows => Color (map (py_slice xstart xend) (py_slice ystart yend rows))
  end.

(** [image.shape[:2]] *)
Definition shape2 (image : Image) : Z * Z :=
  match image with
  | Gray rows => (Z.of_nat (height rows), Z.of_nat (width rows))
  | Color rows => (Z.of_nat (height rows), Z.of_nat (width rows))
  end.

(** The function [crop] of the class body (lines 47 to 64). *)
Definition crop (self : obj) (image : Image) : pyresult Image :=
  c <- getattr self "crop" ;;
  match c with
  | AInts [xstart; ystart; xend; yend] =>
      let '(ysize, xsize) := shape2 image in
      let yend := if yend =? -1 then ysize else yend in
      let xend := if xend =? -1 then xsize else xend in
      let check_y := (ystart <? yend) && (0 <=? ystart) in
      let check_x := (xstart <? xend) && (0 <=? xstart) in
      if check_y && check_x then Ok (slice2 ystart yend xstart xend image)
      else Ok image
  | AInts _ => Ok image
  | AFloats l => if Nat.eqb (length l) 4 then Raise TypeError else Ok image
  | _ => Raise TypeError
  end.

Section Call.

(** The functions [scale_resize] and [translate] of the class, and the
    rest of [__call__] after the crop (lines 109 to 134: resize,
    translation, flips and rotation), which go through [cv2], NumPy slice
    assignment and [augraphy.augmentations.lib.rotate_image]. *)
Variables scale_resize translate : obj -> Image -> M Image.
Variable after_crop : obj -> Image -> M Image.

(** [f(image)] where [f] is the value of an attribute: only a function can
    be called. *)
Definition call_attr (self : obj) (f : attr) (image : Image) : M Image :=
  match f with
  | AMethod m_crop => lift (crop self image)
  | AMethod m_scale_resize => scale_resize self image
  | AMethod m_translate => translate self image
  | _ => lift (Raise TypeError)
  end.

(** [Geometric.__call__(image, force)] *)
Definition call (self : obj) (image : pyval) (force : bool) : M pyval :=
  mbind (lift (getattr self "p")) (fun pa =>
    match pa with
    | AFloat p =>
        gated p
          (fun v =>
             mbind (lift (py_copy v)) (fun image =>
             mbind (lift (getattr self "crop")) (fun c =>
             mbind (if truthy c
                    then mbind (lift (getattr self "crop")) (fun f => call_attr self f image)
                    else ret image) (fun image =>
             mbind (after_crop self image) (fun image =>
             ret (VImage image))))))
          image force
    | _ => lift (Raise TypeError)
    end).

End Call.

End Geometric.

(** ** ScannerAugmentation: the parallel light mask *)

Module ScannerAugmentation.

(** The names bound at module level: the five imports and the class. *)
Definition module_globals : list string :=
  [ "random"; "np"; "cv2"; "ImageTransformer"; "DirtyRollersAugmentation";
    "ScannerAugmentation" ]%string.

(** Looking up a name that is neither local nor built in. *)
Definition global (name : string) : pyresult unit :=
  if existsb (String.eqb name) module_globals then Ok tt
  else Raise (NameError name).

Inductive Mode : Type :=
| linear_dynamic
| linear_static
| gaussian
| other (mode : string).

Definition mode_of (mode : string) : Mode :=
  if String.eqb mode "linear_dynamic" then linear_dynamic
  else if String.eqb mode "linear_static" then linear_static
  else if String.eqb mode "gaussian" then gaussian
  else other mode.

(** [random.randint(a, b)] *)
Definition randint (a b : Z) (s : rng) : Z * rng :=
  let (d, s') := next s in
  (Z.min b (a + Qfloor (d * inject_Z (b - a + 1))), s').

(** [int(m * np.sqrt(2))] for an integer [m] *)
Definition times_sqrt2 (m : Z) : Z := Z.sgn m * Z.sqrt (2 * m * m).

Section LightMask.

(** What [norm.pdf(x, loc, scale)] stands for where the name [norm] is
    bound to [scipy.stats.norm]. *)
Variable norm_pdf : Q -> Q -> Q -> Q.

(** [_decayed_value_in_norm(x, max_value, min_value, center, range)] *)
Definition _decayed_value_in_norm (x max_value min_value center range : Q)
    : pyresult Q :=
  let radius := (range / 3)%Q in
  _ <- global "norm" ;;
  let center_prob := norm_pdf center center radius in
  let x_prob := norm_pdf x center radius in
  Ok ((x_prob / center_prob) * (max_value - min_value) + min_value)%Q.

(** [_decayed_value_in_linear(x, max_value, padding_center, decay_rate)] *)
Definition _decayed_value_in_linear (x max_value padding_center : Q)
    (decay_rate : option Q) : pyresult Q :=
  match decay_rate with
  | None => Raise TypeError
  | Some r =>
      let x_value := (max_value - Qabs (padding_center - x) * r)%Q in
      Ok (if Qle_bool 0 x_value then x_value else 1%Q)
  end.

(** The value the loop of [generate_parallel_light_mask] computes for row
    [i] (lines 114 to 119).  The mode is compared with the strings
    ["linear"] and ["gaussian"]. *)
Definition row_value (mode : string) (i : nat) (max_brightness min_brightness : Q)
    (light_y : Z) (linear_decay_rate : option Q) (size_y : Z) : pyresult Q :=
  if String.eqb mode "linear" then
    _decayed_value_in_linear (inject_Z (Z.of_nat i)) max_brightness (inject_Z light_y)
      linear_decay_rate
  else if String.eqb mode "gaussian" then
    _decayed_value_in_norm (inject_Z (Z.of_nat i)) max_brightness min_brightness
      (inject_Z light_y) (inject_Z size_y)
  else Ok 0%Q.

(** The state of [generate_parallel_light_mask] when the row loop is over
    (line 120), before the mask is rotated. *)
Record filled : Type := {
  mask : Plane Q;
  init_light_pos : Z * Z;
  direction : Z;
  decay_rate : option Q
}.

(** [generate_parallel_light_mask], lines 88 to 120: the defaults, the
    assertion on the mode, the padded canvas and the row loop.  What
    follows (rotation, crop, median blur, inversion) is [cv2]'s work.  The
    rounding of a row value to the [float32] of the mask is not modelled. *)
Definition fill_mask (mask_size : Z * Z) (position : option (Z * Z))
    (direction : option Z) (max_brightness min_brightness : Q) (mode : string)
    (linear_decay_rate : option Q) : M filled :=
  mbind (match position with
         | None =>
             fun s => let (pos_x, s1) := randint 0 (fst mask_size) s in
                      let (pos_y, s2) := randint 0 (snd mask_size) s1 in
                      Ok ((pos_x, pos_y), s2)
         | Some pos => ret pos
         end) (fun '(pos_x, pos_y) =>
  mbind (match direction with
         | None => fun s => Ok (randint 0 360 s)
         | Some d => ret d
         end) (fun direction =>
  mbind (match linear_decay_rate with
         | None =>
             if String.eqb mode "linear_static"
             then fun s => let (r, s') := uniform (2 # 10) 2 s in Ok (Some r, s')
             else ret None
         | Some r => ret (Some r)
         end) (fun linear_decay_rate =>
  mbind (if String.eqb mode "linear_dynamic" then
           let m := Z.max (fst mask_size) (snd mask_size) in
           if m =? 0 then lift (Raise ZeroDivisionError)
           else ret (Some ((max_brightness - min_brightness) / inject_Z m)%Q)
         else ret linear_decay_rate) (fun linear_decay_rate =>
  match mode_of mode with
  | other _ => lift (Raise AssertionError)
  | _ =>
      let padding := times_sqrt2 (Z.max (fst mask_size) (snd mask_size)) in
      let canvas_x := padding * 2 + fst mask_size in
      let canvas_y := padding * 2 + snd mask_size in
      if (canvas_x <? 0) || (canvas_y <? 0) then lift (Raise ValueError)
      else
        let mask0 := repeat (repeat 0%Q (Z.to_nat canvas_x)) (Z.to_nat canvas_y) in
        let light := (padding + pos_x, padding + pos_y) in
        mbind (lift (for_each (range 0 (Z.to_nat canvas_y))
                       (fun i mask =>
                          i_value <- row_value mode i max_brightness min_brightness
                                       (snd light) linear_decay_rate (snd mask_size) ;;
                          Ok (list_set i (repeat i_value (Z.to_nat canvas_x)) mask))
                       mask0))
          (fun mask =>
             ret {| mask := mask; init_light_pos := light; direction := direction;
                    decay_rate := linear_decay_rate |})
  end)))).

End LightMask.

End ScannerAugmentation.

(** ** Notions used to state the properties *)

(** [size] is a power of two: positive, with a single bit set. *)
Definition is_pow2 (size : Z) : bool :=
  (0 <? size) && (Z.land size (size - 1) =? 0).

(** The entry of the Bayer matrix of side [2 ^ k] at row [r], column [c]:
    the number of the quadrant the cell lies in (top-left 0, bottom-right 1,
    top-right 2, bottom-left 3) plus four times the entry of the cell inside
    that quadrant. *)
Fixpoint bayer_val (k : nat) (r c : nat) : Z :=
  match k with
  | O => 0
  | S k' =>
      let half := (2 ^ k')%nat in
      match (r <? half)%nat, (c <? half)%nat with
      | true, true => 0 + 4 * bayer_val k' r c
      | false, false => 1 + 4 * bayer_val k' (r - half) (c - half)
      | true, false => 2 + 4 * bayer_val k' r (c - half)
      | false, true => 3 + 4 * bayer_val k' (r - half) c
      end
  end.

(** Thresholding of a plane of samples against a threshold per position:
    255 where the sample is above its threshold, 0 elsewhere. *)
Definition threshold_dither (t : nat -> nat -> Z) (rows : Plane Z) : Plane Z :=
  map (fun yr =>
         map (fun xv => if t (fst yr) (fst xv) <? snd xv then 255 else 0)
             (combine (seq 0 (length (snd yr))) (snd yr)))
      (combine (seq 0 (length rows)) rows).

(** The normalized entry of the Bayer matrix of side [2 ^ order] at row
    [r], column [c]. *)
Definition normalized (order : nat) (r c : nat) : Z :=
  let side := (2 ^ order)%nat in
  Qfloor (inject_Z (bayer_val order r c)
          / inject_Z (Z.of_nat side * Z.of_nat side - 1) * 255).

(** The threshold [apply_Ordered] uses for the pixel at row [y], column
    [x]: the tile coordinates are taken modulo [order]. *)
Definition code_threshold (order : nat) (y x : nat) : Z :=
  normalized order (y mod order) (x mod order).

(** The threshold of the specification for the pixel at row [y], column
    [x]: the tile coordinates are taken modulo the side [2 ^ order] of the
    matrix. *)
Definition spec_threshold (order : nat) (y x : nat) : Z :=
  normalized order (y mod 2 ^ order) (x mod 2 ^ order).

(** The ordered dither of the specification on one plane of samples. *)
Definition spec_dither_Ordered (order : nat) (rows : Plane Z) : Plane Z :=
  threshold_dither (spec_threshold order) rows.

(** The lengths of the rows of an array. *)
Definition shape {A : Type} (a : Plane A) : list nat := map (@length A) a.

(** Case analysis on the comparisons of naturals in the goal, dropping the
    cases the context excludes. *)
Ltac split_cmp :=
  repeat match goal with
    | |- context [(?a <=? ?b)%nat] =>
        destruct (Nat.leb_spec a b); try (exfalso; lia)
    | |- context [(?a <? ?b)%nat] =>
        destruct (Nat.ltb_spec a b); try (exfalso; lia)
    end.

Ltac split_eqb :=
  repeat match goal with
    | |- context [Nat.eqb ?a ?b] =>
        destruct (Nat.eqb_spec a b); try (exfalso; lia); cbn [andb]
    end.

(** Whether the cell [(r, c)] lies in the square of side [h] whose top-left
    corner is at row [yn], column [xn]. *)
Definition in_square (yn xn h r c : nat) : bool :=
  ((yn <=? r) && (r <? yn + h) && (xn <=? c) && (c <? xn + h))%nat.

(** No halving of [q] ever yields one. *)
Definition never_one (q : Q) : Prop :=
  forall k : nat, ~ (q == inject_Z (2 ^ Z.of_nat k))%Q.

(** The threshold and the error of [apply_Floyd_Steinberg] for a pixel
    that holds [old] when it is visited. *)
Definition fs_new (old : Q) : Q := (255 * inject_Z (Qfloor (old / 128)))%Q.
Definition fs_err (old : Q) : Q := py_min (old - fs_new old) 0.

(** The pixels [apply_Floyd_Steinberg] visits in an array of [h] rows and
    [w] columns. *)
Definition interior (h w r c : nat) : bool :=
  ((1 <=? r) && (r + 1 <? h) && (1 <=? c) && (c + 1 <? w))%nat.

(** The pixels visited before the scan reaches row [cy], column [cx]. *)
Definition visited (h w cy cx r c : nat) : bool :=
  (interior h w r c && ((r <? cy) || (Nat.eqb r cy && (c <? cx))))%nat.



(** The plane of channel [k] of an image; a grayscale image is its only
    plane. *)
Definition plane_of (img : Image) (k : nat) : Plane Z :=
  match img with
  | Gray rows => rows
  | Color rows => channel 0 k rows
  end.

Definition channels (img : Image) : nat :=
  match img with
  | Gray _ => 1%nat
  | Color rows => length (hd [] (hd [] rows))
  end.

Definition img_height (img : Image) : nat :=
  match img with
  | Gray rows => height rows
  | Color rows => height rows
  end.

Definition img_width (img : Image) : nat :=
  match img with
  | Gray rows => width rows
  | Color rows => width rows
  end.

(** An 8-bit array: rows of one length, pixels of one number of channels,
    samples in [0, 255]. *)
Definition wf_image (img : Image) : Prop :=
  match img with
  | Gray rows => rect (width rows) rows /\ Forall (Forall is_uint8) rows
  | Color rows =>
      rect (width rows) rows /\
      Forall (Forall (fun pixel => length pixel = length (hd [] (hd [] rows))
                                   /\ Forall is_uint8 pixel)) rows
  end.

(** Two images of one shape. *)
Definition same_shape (a b : Image) : Prop :=
  match a, b with
  | Gray x, Gray y => shape x = shape y
  | Color x, Color y => map (map (@length Z)) x = map (map (@length Z)) y
  | _, _ => False
  end.

(** The 3 x 3 grayscale image of value 128. *)
Definition gray_128 : Image :=
  Gray [ [128; 128; 128]; [128; 128; 128]; [128; 128; 128] ].

(** A Python number whose value is the natural number [n]. *)
Definition is_nat (a : pynum) (n : nat) : Prop :=
  (num_val a == inject_Z (Z.of_nat n))%Q.

(** ** Further notions *)

(** The matrix [dither_Ordered] holds once it has normalized the Bayer
    matrix of side [2 ^ order]. *)
Definition normalized_matrix (order : nat) : Matrix :=
  map (fun r => map (normalized order r) (seq 0 (2 ^ order))) (seq 0 (2 ^ order)).

(** The value [apply_Ordered] writes over a sample [v] at row [y], column
    [x]. *)
Definition ordered_value (order : nat) (y x : nat) (v : Q) : Q :=
  if Qle_bool v (inject_Z (code_threshold order y x)) then 0%Q else 255%Q.

(** The two loops of [apply_Ordered] as a function of the float array. *)
Definition ordered_loops (order : nat) (h w : nat) (a : Plane Q) : Plane Q :=
  fold_left
    (fun img y =>
       fold_left (fun img x => plane_set y x (ordered_value order y x (px 0%Q img y x)) img)
         (seq 0 w) img)
    (seq 0 h) a.

(** No sample inside the border of the image lies in [128, 254]. *)
Definition no_midtone (img : Image) : Prop :=
  forall k r c, interior (img_height img) (img_width img) r c = true ->
    px 0 (plane_of img k) r c < 128 \/ px 0 (plane_of img k) r c = 255.

(** The state of the float array of [apply_Floyd_Steinberg] while no
    error has been produced: a visited pixel holds its threshold, any other
    pixel its original value. *)
Definition fs_plain (orig : Plane Z) (h w cy cx : nat) (a : Plane Q) : Prop :=
  length a = h /\ rect w a /\
  forall r c, (r < h)%nat -> (c < w)%nat ->
    Qeq (px 0%Q a r c)
        (if visited h w cy cx r c
         then (if px 0 orig r c =? 255 then 255%Q else 0%Q)
         else inject_Z (px 0 orig r c)).

(** An array with rows of one length and, when it has channels, pixels of
    one number of channels; samples are not constrained. *)
Definition shaped_image (img : Image) : Prop :=
  match img with
  | Gray rows => rect (width rows) rows
  | Color rows =>
      rect (width rows) rows /\
      Forall (Forall (fun pixel => length pixel = length (hd [] (hd [] rows)))) rows
  end.

(** A one-row colour image of two pixels with two channels, and a 2 x 2
    grayscale image. *)
Definition color_1x2 : Image := Color [ [ [10; 200]; [0; 255] ] ].
Definition gray_2x2 : Image := Gray [ [100; 100]; [7; 250] ].

(** A 3 x 3 grayscale image with no sample in [128, 254] inside its border. *)
Definition gray_dark : Image := Gray [ [0; 255; 12]; [130; 100; 255]; [3; 200; 90] ].

(** ** Sequences of stages *)

(** An [AugmentationSequence] used as an augmentation of another
    sequence: the caller sees the value [__call__] returns. *)
Definition as_augmentation (name : string) (self : AugmentationSequence.t) : Augmentation :=
  {| aug_name := name;
     aug_call := fun image force =>
       mbind (AugmentationSequence.call self image force)
         (fun '(v, _, _) => ret v) |}.

(** The stages with [p = 1] made of named image functions. *)
Definition stages_of (fs : list (string * (Image -> Image))) : list Augmentation :=
  map (fun nf => stage (fst nf) 1 (snd nf)) fs.

(** The images a chain of functions goes through after its input. *)
Fixpoint runs (fs : list (Image -> Image)) (i : Image) : list Image :=
  match fs with
  | [] => []
  | f :: rest => f i :: runs rest (f i)
  end.

(** The generator that always draws [1/2]. *)
Definition half_rng : rng := fun _ => (1 # 2)%Q.

(** A sequence of one stage that has run once, returning [None]. *)
Definition seq_A : AugmentationSequence.t :=
  {| AugmentationSequence.augmentations := stages_of [ ("A", fun i => i) ]%string;
     AugmentationSequence.p := 1;
     AugmentationSequence.results := [VNone] |}.

(** ** Geometric.translate *)

Module GeometricTranslate.

(** [l[a:b]]; a bound that is left out is [None]. *)
Definition slice {A : Type} (a b : option Z) (l : list A) : list A :=
  Geometric.py_slice (match a with Some i => i | None => 0 end)
    (match b with Some i => i | None => Z.of_nat (length l) end) l.

(** [dst[a:b] = src] along one axis: the items of the slice are replaced
    by those of [src], which must be as many.  (NumPy also accepts a source
    of length one, which it repeats; [translate] never assigns one to a
    slice of another length, and this is not modelled.) *)
Definition set_slice {A : Type} (a b : option Z) (dst src : list A) : pyresult (list A) :=
  let n := Z.of_nat (length dst) in
  let clip i := Z.max 0 (Z.min n (if i <? 0 then i + n else i)) in
  let lo := clip (match a with Some i => i | None => 0 end) in
  let hi := clip (match b with Some i => i | None => n end) in
  if Z.of_nat (length src) =? Z.max 0 (hi - lo)
  then Ok (firstn (Z.to_nat lo) dst ++ src ++ skipn (Z.to_nat lo + length src) dst)
  else Raise ValueError.

(** Row by row, for two arrays with the same number of rows. *)
Fixpoint zip_rows {A : Type} (f : list A -> list A -> pyresult (list A))
    (dst src : Plane A) : pyresult (Plane A) :=
  match dst, src with
  | [], [] => Ok []
  | d :: dst', s :: src' =>
      r <- f d s ;;
      rest <- zip_rows f dst' src' ;;
      Ok (r :: rest)
  | _, _ => Raise ValueError
  end.

(** The cast of an integer sample stored into an array of type [uint8]. *)
Definition uint8 (v : Z) : Z := v mod 256.

Section Planes.

(** The items of the first two axes are samples (a grayscale image) or
    pixels (a colour image): [white] is the item of [np.full_like(image,
    fill_value=255)] at the place of an item, [cast] the cast of an item
    stored into that array. *)
Context {A : Type} (white cast : A -> A).

(** [dst[:, a:b] = src] *)
Definition assign_columns (a b : option Z) (dst src : Plane A) : pyresult (Plane A) :=
  zip_rows (fun d s => set_slice a b d (map cast s)) dst src.

(** [dst[a:b, :] = src] *)
Definition assign_rows (a b : option Z) (dst src : Plane A) : pyresult (Plane A) :=
  set_slice a b dst (map (map cast) src).

(** Lines 77 to 99 for the offsets [offset_x] and [offset_y]. *)
Definition translate_plane (offset_x offset_y : Z) (image : Plane A) : pyresult (Plane A) :=
  let image_new := map (map white) image in
  image <- (if 0 <? offset_x then
              assign_columns (Some offset_x) None image_new
                (map (slice None (Some (- offset_x))) image)
            else if offset_x <? 0 then
              assign_columns None (Some offset_x) image_new
                (map (slice (Some (Z.abs offset_x)) None) image)
            else Ok image) ;;
  let new_image_new := map (map white) image in
  if 0 <? offset_y then
    assign_rows (Some offset_y) None new_image_new (slice None (Some (- offset_y)) image)
  else if offset_y <? 0 then
    assign_rows None (Some offset_y) new_image_new (slice (Some (Z.abs offset_y)) None image)
  else Ok image.

End Planes.

(** The function [translate] of the class (lines 76 to 99).  The offsets
    are [self.translation[0]] and [self.translation[1]]; a slice bound must
    be an integer. *)
Definition translate (self : Geometric.obj) (image : Image) : pyresult Image :=
  t <- Geometric.getattr self "translation" ;;
  match t with
  | Geometric.AInts (offset_x :: offset_y :: _) =>
      match image with
      | Gray rows =>
          out <- translate_plane (fun _ => 255) uint8 offset_x offset_y rows ;;
          Ok (Gray out)
      | Color rows =>
          out <- translate_plane (map (fun _ => 255)) (map uint8) offset_x offset_y rows ;;
          Ok (Color out)
      end
  | Geometric.AInts _ => Raise IndexError
  | Geometric.AFloats (offset_x :: offset_y :: _) =>
      if Qeq_bool offset_x 0 && Qeq_bool offset_y 0 then Ok image else Raise TypeError
  | Geometric.AFloats _ => Raise IndexError
  | _ => Raise TypeError
  end.

End GeometricTranslate.

(** The items of [l] moved by [off] places over [dst]: what the two slice
    assignments of one axis amount to. *)
Definition moved {A : Type} (off : Z) (dst l : list A) : list A :=
  if 0 <? off then
    firstn (Z.to_nat off) dst ++ firstn (length l - Z.to_nat off) l
  else if off <? 0 then
    skipn (Z.to_nat (- off)) l ++ skipn (length l - Z.to_nat (- off)) dst
  else l.

(** [0 <= i - off < n], with the position [i - off]. *)
Definition source_of (off : Z) (n i : nat) : option nat :=
  let j := Z.of_nat i - off in
  if (0 <=? j) && (j <? Z.of_nat n) then Some (Z.to_nat j) else None.

(** A 2 x 3 grayscale image. *)
Definition gray_2x3 : Image := Gray [ [1; 2; 3]; [4; 5; 6] ].

(** ** SubtleNoise *)

(** A [for] loop whose body draws random numbers and may raise. *)
Fixpoint for_each_m {A S : Type} (l : list A) (body : A -> S -> M S) (s : S) : M S :=
  match l with
  | [] => ret s
  | a :: t => mbind (body a s) (for_each_m t body)
  end.

Module SubtleNoise.

(** The object: [SubtleNoise(subtle_range, p)]. *)
Record t : Type := {
  subtle_range : Z;
  p : Q
}.

(** [a + b] on two integer arrays of one shape. *)
Definition add_planes (a b : Plane Z) : Plane Z :=
  map (fun rs => map (fun vs => fst vs + snd vs) (combine (fst rs) (snd rs)))
      (combine a b).

(** [np.clip(v, 0, 255)] on a sample, then the cast to [uint8]. *)
Definition clip_uint8 (v : Z) : Z := Z.min (Z.max v 0) 255 mod 256.

Section Noise.

(** [np.random.randint(low, high, size=(ysize, xsize))], NumPy's
    generator. *)
Variable np_random_randint : Z -> Z -> nat -> nat -> M (Plane Z).

(** [add_subtle_noise(image)] on a two-dimensional array (lines 28 to
    46). *)
Definition add_subtle_noise (self : t) (image : Plane Z) : M (Plane Z) :=
  let ysize := height image in
  let xsize := width image in
  mbind (np_random_randint (- subtle_range self) (subtle_range self) ysize xsize)
    (fun image_noise => ret (add_planes image image_noise)).

(** [SubtleNoise.__call__(image, force)] *)
Definition call (self : t) : pyval -> bool -> M pyval :=
  gated (p self)
    (fun v =>
       mbind (lift (py_copy v)) (fun image =>
       mbind (match image with
              | Color rows =>
                  let dim := length (hd [] (hd [] rows)) in
                  mbind (for_each_m (range 0 dim)
                           (fun i img =>
                              mbind (add_subtle_noise self (channel 0 i img))
                                (fun pl => ret (set_channel i pl img)))
                           rows)
                    (fun rows => ret (Color rows))
              | Gray rows =>
                  mbind (add_subtle_noise self rows) (fun rows => ret (Gray rows))
              end) (fun image =>
       ret (VImage (match image with
                    | Gray rows => Gray (map (map clip_uint8) rows)
                    | Color rows => Color (map (map (map clip_uint8)) rows)
                    end))))).

End Noise.

End SubtleNoise.

(** What is known of [np.random.randint(low, high, size=(h, w))] for
    [low < high]: an array of [h] rows and [w] columns of integers of
    [low, high). *)
Definition randint_array (f : Z -> Z -> nat -> nat -> M (Plane Z)) : Prop :=
  forall low high h w s, low < high ->
    exists noise s',
      f low high h w s = Ok (noise, s') /\
      length noise = h /\ rect w noise /\
      Forall (Forall (fun v => low <= v < high)) noise.

(** A generator that returns the lowest value everywhere. *)
Definition lowest_noise (low high : Z) (h w : nat) : M (Plane Z) :=
  ret (repeat (repeat low w) h).

(** ** ScannerAugmentation.__init__: the subtle noise *)

(** [random.randint(a, b)] as a computation: an empty range is a
    [ValueError]. *)
Definition py_randint (a b : Z) : M Z :=
  fun s => if b <? a then Raise ValueError else Ok (ScannerAugmentation.randint a b s).

Module ScannerAugmentationInit.

(** The function [np.vectorize] applies to every sample (line 17):

      lambda x: max(0, min(255, x + random.randint(-subtle_noise_range,
                                                   subtle_noise_range))) *)
Definition add_subtle_noise (subtle_noise_range : Z) (x : Z) : M Z :=
  mbind (py_randint (- subtle_noise_range) subtle_noise_range)
    (fun noise => ret (Z.max 0 (Z.min 255 (x + noise)))).

End ScannerAugmentationInit.

(** ** Letterpress *)

Module Letterpress.

(** The object: [Letterpress(n_samples, n_clusters, std_range,
    value_range, value_threshold_range, blur, p)]. *)
Record t : Type := {
  n_samples : Z * Z;
  n_clusters : Z * Z;
  std_range : Z * Z;
  value_range : Z * Z;
  value_threshold_range : Z * Z;
  blur : Z;
  p : Q
}.

(** [[random.randint(a, b) for _ in range(n)]] *)
Fixpoint randint_list (n : nat) (a b : Z) : M (list Z) :=
  match n with
  | O => ret []
  | S n' => mbind (py_randint a b) (fun v =>
            mbind (randint_list n' a b) (fun rest => ret (v :: rest)))
  end.

(** [np.zeros_like(image, dtype="uint8")] *)
Definition zeros_like (image : Image) : Image :=
  match image with
  | Gray rows => Gray (map (map (fun _ => 0)) rows)
  | Color rows => Color (map (map (map (fun _ => 0))) rows)
  end.

(** [noise_mask[y, x] = v] for integers [y] and [x]: a negative index
    counts from the end, an index outside the array is an [IndexError]; on
    a colour array the value goes to every channel of the pixel; a value
    outside [0, 255] is reduced modulo 256. *)
Definition mask_set (y x v : Z) (noise_mask : Image) : pyresult Image :=
  match noise_mask with
  | Gray rows =>
      match py_index (length rows) y with
      | None => Raise IndexError
      | Some r =>
          match py_index (length (nth r rows [])) x with
          | None => Raise IndexError
          | Some c => Ok (Gray (plane_set r c (v mod 256) rows))
          end
      end
  | Color rows =>
      match py_index (length rows) y with
      | None => Raise IndexError
      | Some r =>
          match py_index (length (nth r rows [])) x with
          | None => Raise IndexError
          | Some c =>
              Ok (Color (plane_set r c (map (fun _ => v mod 256) (px [] rows r c)) rows))
          end
      end
  end.

(** Lines 105 to 107 on one sample. *)
Definition press (value_threshold : Z) (sample noise : Z) : Z :=
  if sample <? value_threshold then noise else sample.

Definition press_row {A : Type} (f : A -> A -> A) (row noise : list A) : list A :=
  map (fun sn => f (fst sn) (snd sn)) (combine row noise).

(** [indices = image < value_threshold; image[indices] = noise_mask[indices]]:
    the two arrays must have one shape. *)
Definition apply_noise (value_threshold : Z) (image noise_mask : Image) : pyresult Image :=
  match image, noise_mask with
  | Gray rows, Gray noise =>
      if list_eq_dec Nat.eq_dec (shape rows) (shape noise)
      then Ok (Gray (press_row (press_row (press value_threshold)) rows noise))
      else Raise IndexError
  | Color rows, Color noise =>
      if list_eq_dec (list_eq_dec Nat.eq_dec)
           (map (map (@length Z)) rows) (map (map (@length Z)) noise)
      then Ok (Color (press_row (press_row (press_row (press value_threshold))) rows noise))
      else Raise IndexError
  | _, _ => Raise IndexError
  end.

(** The points that are left once the rows with a negative first
    coordinate, then those with a negative second coordinate, then those
    with a first coordinate beyond the last row, then those with a second
    coordinate beyond the last column have been deleted (lines 78 to 86). *)
Definition delete_invalid (ysize xsize : Z) (generated_points : list (Z * Z))
    : list (Z * Z) :=
  let generated_points := filter (fun pt => negb (fst pt <? 0)) generated_points in
  let generated_points := filter (fun pt => negb (snd pt <? 0)) generated_points in
  let generated_points := filter (fun pt => negb (ysize - 1 <? fst pt)) generated_points in
  filter (fun pt => negb (xsize - 1 <? snd pt)) generated_points.

Section External.

(** [make_blobs(n_samples=..., center_box=..., cluster_std=...,
    n_features=2)] of scikit-learn, the points it returns; and
    [cv2.GaussianBlur(noise_mask, (5, 5), 0)]. *)
Variable make_blobs : list Z -> Q * Q -> Q -> M (list (Q * Q)).
Variable GaussianBlur : Image -> Image.

(** Lines 55 to 73: the clusters of points. *)
Definition generate_points (self : t) (max_box_size : Z) : M (list (Q * Q)) :=
  mbind (py_randint 8 12) (fun rounds =>
  for_each_m (range 0 (Z.to_nat rounds))
    (fun _ generated_points =>
       mbind (py_randint (fst (n_clusters self)) (snd (n_clusters self))) (fun clusters =>
       mbind (randint_list (Z.to_nat clusters) (fst (n_samples self)) (snd (n_samples self)))
         (fun n_samples =>
       mbind (py_randint (fst (std_range self)) (snd (std_range self))) (fun std100 =>
       let std := (inject_Z std100 / 100)%Q in
       mbind (make_blobs n_samples (0%Q, inject_Z max_box_size) std)
         (fun generated_points_new =>
       ret (generated_points ++ generated_points_new))))))
    [(inject_Z (-1), inject_Z (-1))]).

(** [Letterpress.__call__(image, force)] *)
Definition call (self : t) : pyval -> bool -> M pyval :=
  gated (p self)
    (fun v =>
       mbind (lift (py_copy v)) (fun image =>
       let '(ysize, xsize) := Geometric.shape2 image in
       let max_box_size := Z.max ysize xsize in
       mbind (generate_points self max_box_size) (fun generated_points =>
       let generated_points :=
         map (fun pt => (Qtrunc (fst pt), Qtrunc (snd pt))) generated_points in
       let generated_points := delete_invalid ysize xsize generated_points in
       mbind (for_each_m generated_points
                (fun pt noise_mask =>
                   mbind (py_randint (fst (value_range self)) (snd (value_range self)))
                     (fun value => lift (mask_set (fst pt) (snd pt) value noise_mask)))
                (zeros_like image)) (fun noise_mask =>
       let noise_mask := if blur self =? 0 then noise_mask else GaussianBlur noise_mask in
       mbind (if fst (value_threshold_range self) <=? snd (value_threshold_range self)
              then py_randint (fst (value_threshold_range self))
                     (snd (value_threshold_range self))
              else ret (snd (value_threshold_range self))) (fun value_threshold =>
       mbind (lift (apply_noise value_threshold image noise_mask)) (fun image =>
       ret (VImage image))))))).

End External.

End Letterpress.

(** What is assumed of [make_blobs]: it returns, and leaves the generator
    of [random] in order; and of [cv2.GaussianBlur]: it returns an 8-bit
    array of the shape of its argument. *)
Definition blobs_return (f : list Z -> Q * Q -> Q -> M (list (Q * Q))) : Prop :=
  forall n_samples box std s, rng_ok s ->
    exists points s', f n_samples box std s = Ok (points, s') /\ rng_ok s'.

Definition blur_keeps_shape (f : Image -> Image) : Prop :=
  forall mask, wf_image mask -> same_shape mask (f mask) /\ wf_image (f mask).

(** Every sample of an array has the property [P]. *)
Definition samples (P : Z -> Prop) (img : Image) : Prop :=
  match img with
  | Gray rows => Forall (Forall P) rows
  | Color rows => Forall (Forall (Forall P)) rows
  end.

(** One cluster of two points, one of them outside every image. *)
Definition two_points (n_samples : list Z) (box : Q * Q) (std : Q) : M (list (Q * Q)) :=
  ret [ ((1 # 2)%Q, (3 # 2)%Q); (inject_Z 7, inject_Z (-3)) ].


(** The default object without the blur. *)
Definition letterpress_sharp : Letterpress.t :=
  {| Letterpress.n_samples := (300, 800);
     Letterpress.n_clusters := (300, 800);
     Letterpress.std_range := (1500, 5000);
     Letterpress.value_range := (200, 255);
     Letterpress.value_threshold_range := (128, 128);
     Letterpress.blur := 0;
     Letterpress.p := 1 |}.

(** * Properties *)

(** ** Lists and numbers *)

Lemma Qtrunc_inject_Z (q : Q) (n : Z) : (q == inject_Z n)%Q -> Qtrunc q = n.
Proof.
  unfold Qeq, Qtrunc, inject_Z; simpl. intros H.
  rewrite Z.mul_1_r in H. rewrite H.
  apply Z.quot_mul. discriminate.
Qed.

Lemma py_int_nat (a : pynum) (n : nat) : is_nat a n -> py_int a = Z.of_nat n.
Proof.
  unfold is_nat. destruct a as [z|q]; simpl; intros H.
  - unfold Qeq in H; simpl in H. lia.
  - now apply Qtrunc_inject_Z.
Qed.

Lemma is_nat_add (a b : pynum) (n h : nat) :
  is_nat a n -> is_nat b h -> is_nat (py_add a b) (n + h).
Proof.
  unfold is_nat. intros Ha Hb.
  assert (E : (num_val (py_add a b) == num_val a + num_val b)%Q).
  { destruct a, b; simpl; try reflexivity. now rewrite inject_Z_plus. }
  rewrite E, Ha, Hb, <- inject_Z_plus. now rewrite Nat2Z.inj_add.
Qed.

Lemma is_nat_half (a : pynum) (h : nat) :
  is_nat a (2 * h) -> is_nat (py_half a) h.
Proof.
  unfold is_nat, py_half; cbn [num_val]. intros H. rewrite H.
  rewrite Nat2Z.inj_mul, inject_Z_mult. change (inject_Z (Z.of_nat 2)) with 2%Q. field.
Qed.

Lemma py_is_one_nat (a : pynum) (n : nat) :
  is_nat a n -> py_is_one a = Nat.eqb n 1.
Proof.
  unfold is_nat, py_is_one. intros H.
  destruct (Nat.eqb_spec n 1) as [->|Hn].
  - apply Qeq_bool_iff. now rewrite H.
  - destruct (Qeq_bool (num_val a) 1) eqn:E; [|reflexivity].
    apply Qeq_bool_iff in E. rewrite H in E.
    unfold Qeq in E; simpl in E. lia.
Qed.

Lemma py_index_nat (len n : nat) :
  (n < len)%nat -> py_index len (Z.of_nat n) = Some n.
Proof.
  intros H. unfold py_index.
  replace (0 <=? Z.of_nat n) with true by (symmetry; apply Z.leb_le; lia).
  replace (Z.of_nat n <? Z.of_nat len) with true by (symmetry; apply Z.ltb_lt; lia).
  simpl. now rewrite Nat2Z.id.
Qed.

Lemma length_list_set {A : Type} (i : nat) (v : A) (l : list A) :
  length (list_set i v l) = length l.
Proof.
  revert i. induction l as [|h t IH]; intros [|i]; simpl; auto.
Qed.

Lemma nth_error_list_set {A : Type} (i j : nat) (v : A) (l : list A) :
  nth_error (list_set i v l) j =
  if (Nat.eqb i j && (i <? length l)%nat)%bool then Some v else nth_error l j.
Proof.
  revert i j. induction l as [|h t IH]; intros i j.
  - simpl. rewrite Bool.andb_comm.
    replace (i <? 0)%nat with false by (symmetry; apply Nat.ltb_ge; lia).
    destruct i; reflexivity.
  - destruct i as [|i], j as [|j]; simpl; try reflexivity.
    rewrite IH. reflexivity.
Qed.

Lemma cell_set (m : Matrix) (r c : nat) (v : Z) (row : list Z) (r' c' : nat) :
  nth_error m r = Some row ->
  cell (list_set r (list_set c v row) m) r' c' =
  if (Nat.eqb r r' && Nat.eqb c c' && (c <? length row)%nat)%bool
  then Some v else cell m r' c'.
Proof.
  intros Hrow. unfold cell. rewrite nth_error_list_set.
  assert (Hr : (r < length m)%nat) by (apply nth_error_Some; congruence).
  apply Nat.ltb_lt in Hr. rewrite Hr, Bool.andb_true_r.
  destruct (Nat.eqb_spec r r') as [<-|Hne]; simpl.
  - rewrite nth_error_list_set, Hrow. reflexivity.
  - reflexivity.
Qed.

Lemma shape_set (m : Matrix) (r c : nat) (v : Z) (row : list Z) :
  nth_error m r = Some row ->
  map (@length Z) (list_set r (list_set c v row) m) = map (@length Z) m.
Proof.
  revert r. induction m as [|h t IH]; intros [|r]; simpl; intros H; try discriminate.
  - injection H as ->. now rewrite length_list_set.
  - now rewrite IH.
Qed.

Lemma is_default_shape (m m' : Matrix) :
  map (@length Z) m' = map (@length Z) m ->
  Dithering.is_default m' = Dithering.is_default m.
Proof.
  destruct m as [|[|a r] [|r2 t]], m' as [|[|a' r'] [|r2' t']]; simpl; intros H;
    try reflexivity; discriminate.
Qed.

Lemma shape_length (m m' : Matrix) :
  map (@length Z) m' = map (@length Z) m -> length m' = length m.
Proof.
  intros H. apply (f_equal (@length nat)) in H. now rewrite !length_map in H.
Qed.

Lemma shape_Forall (P : nat -> Prop) (m m' : Matrix) :
  map (@length Z) m' = map (@length Z) m ->
  Forall (fun row => P (length row)) m -> Forall (fun row => P (length row)) m'.
Proof.
  revert m'. induction m as [|h t IH]; intros [|h' t']; simpl; intros E H;
    try discriminate; constructor; inversion H; subst; injection E as E1 E2.
  - now rewrite E1.
  - now apply IH.
Qed.

Lemma create_bayer_S d x y size value step matrix :
  Dithering.create_bayer (S d) x y size value step matrix =
  let fresh := Dithering.is_default matrix in
  m0 <- (if fresh then Dithering.zeros size else Ok matrix) ;;
  if py_is_one size then
    m1 <- setitem2 m0 (py_int y) (py_int x) value ;;
    Ok (if fresh then matrix else m1, None)
  else
    let half := py_half size in
    ' (m1, _) <- Dithering.create_bayer d x y half (value + step * 0) (step * 4) m0 ;;
    ' (m2, _) <- Dithering.create_bayer d (py_add x half) (py_add y half) half
                   (value + step * 1) (step * 4) m1 ;;
    ' (m3, _) <- Dithering.create_bayer d (py_add x half) y half
                   (value + step * 2) (step * 4) m2 ;;
    ' (m4, _) <- Dithering.create_bayer d x (py_add y half) half
                   (value + step * 3) (step * 4) m3 ;;
    Ok (if fresh then matrix else m4, Some m4).
Proof. reflexivity. Qed.

(** The effect of one call on a matrix that is large enough: the square
    it is given holds the Bayer values, scaled by [step] and shifted by
    [value]; the shape and all other cells are untouched. *)
Lemma create_bayer_region (k : nat) :
  forall d x y size value step m m0 xn yn,
    (k < d)%nat ->
    is_nat x xn -> is_nat y yn -> is_nat size (2 ^ k) ->
    (if Dithering.is_default m then Dithering.zeros size else Ok m) = Ok m0 ->
    Dithering.is_default m0 = false ->
    (yn + 2 ^ k <= length m0)%nat ->
    Forall (fun row => (xn + 2 ^ k <= length row)%nat) m0 ->
    exists m',
      Dithering.create_bayer d x y size value step m =
        Ok (if Dithering.is_default m then m else m',
            if Nat.eqb k 0 then None else Some m') /\
      map (@length Z) m' = map (@length Z) m0 /\
      forall r c, cell m' r c =
                  if in_square yn xn (2 ^ k) r c
                  then Some (value + step * bayer_val k (r - yn) (c - xn))
                  else cell m0 r c.
Proof.
  induction k as [|k IH]; intros d x y size value step m m0 xn yn Hd Hx Hy Hs Hm0 Hnd Hrows Hcols.
  - destruct d as [|d]; [lia|].
    rewrite create_bayer_S. cbv zeta. rewrite Hm0. cbn [bind].
    rewrite (py_is_one_nat _ _ Hs). cbn [Nat.pow Nat.eqb].
    rewrite (py_int_nat _ _ Hx), (py_int_nat _ _ Hy).
    simpl in Hrows, Hcols.
    unfold setitem2. rewrite py_index_nat by lia.
    destruct (nth_error m0 yn) as [row|] eqn:Hrow.
    2:{ apply nth_error_None in Hrow. lia. }
    assert (Hlen : (xn + 1 <= length row)%nat).
    { rewrite Forall_forall in Hcols. apply Hcols. eapply nth_error_In; eauto. }
    rewrite py_index_nat by lia. cbn [bind].
    exists (list_set yn (list_set xn value row) m0). split; [reflexivity|]. split.
    + now apply shape_set.
    + intros r c. rewrite (cell_set _ _ _ _ _ _ _ Hrow).
      unfold in_square. cbn [bayer_val].
      replace (xn <? length row)%nat with true by (symmetry; apply Nat.ltb_lt; lia).
      rewrite Bool.andb_true_r.
      destruct (Nat.eqb_spec yn r), (Nat.eqb_spec xn c); subst; simpl.
      * replace (r <=? r)%nat with true by (symmetry; apply Nat.leb_le; lia).
        replace (r <? r + 1)%nat with true by (symmetry; apply Nat.ltb_lt; lia).
        replace (c <=? c)%nat with true by (symmetry; apply Nat.leb_le; lia).
        replace (c <? c + 1)%nat with true by (symmetry; apply Nat.ltb_lt; lia).
        simpl. f_equal. lia.
      * destruct (xn <=? c)%nat eqn:E1, (c <? xn + 1)%nat eqn:E2;
          rewrite ?Bool.andb_false_r; try reflexivity.
        apply Nat.leb_le in E1. apply Nat.ltb_lt in E2. lia.
      * destruct (yn <=? r)%nat eqn:E1, (r <? yn + 1)%nat eqn:E2;
          simpl; try reflexivity.
        apply Nat.leb_le in E1. apply Nat.ltb_lt in E2. lia.
      * destruct (yn <=? r)%nat eqn:E1, (r <? yn + 1)%nat eqn:E2;
          simpl; try reflexivity.
        apply Nat.leb_le in E1. apply Nat.ltb_lt in E2. lia.
  - destruct d as [|d]; [lia|].
    rewrite create_bayer_S. cbv zeta. rewrite Hm0. cbn [bind].
    rewrite (py_is_one_nat _ _ Hs).
    set (h := (2 ^ k)%nat) in *.
    assert (Hh : (2 ^ S k = 2 * h)%nat) by (subst h; apply Nat.pow_succ_r').
    assert (Hpos : (0 < h)%nat) by (subst h; apply Nat.neq_0_lt_0, Nat.pow_nonzero; lia).
    rewrite Hh in *.
    replace (Nat.eqb (2 * h) 1) with false by (symmetry; apply Nat.eqb_neq; lia).
    assert (Hhalf : is_nat (py_half size) h) by now apply is_nat_half.
    assert (Hxh := is_nat_add _ _ _ _ Hx Hhalf).
    assert (Hyh := is_nat_add _ _ _ _ Hy Hhalf).
    (* top-left *)
    destruct (IH d x y (py_half size) (value + step * 0) (step * 4) m0 m0 xn yn)
      as (m1 & E1 & S1 & C1); try assumption; try lia.
    { now rewrite Hnd. }
    { eapply Forall_impl; [|exact Hcols]. simpl; intros; lia. }
    rewrite Hnd in E1. rewrite E1. cbn [bind].
    assert (D1 : Dithering.is_default m1 = false)
      by now rewrite (is_default_shape _ _ S1).
    (* bottom-right *)
    destruct (IH d (py_add x (py_half size)) (py_add y (py_half size)) (py_half size)
                (value + step * 1) (step * 4) m1 m1 (xn + h)%nat (yn + h)%nat)
      as (m2 & E2 & S2 & C2); try assumption; try lia.
    { now rewrite D1. }
    { rewrite (shape_length _ _ S1). lia. }
    { apply (shape_Forall (fun n => (xn + h + h <= n)%nat) _ _ S1).
      eapply Forall_impl; [|exact Hcols]. simpl; intros; lia. }
    rewrite D1 in E2. rewrite E2. cbn [bind].
    rewrite S1 in S2.
    assert (D2 : Dithering.is_default m2 = false)
      by now rewrite (is_default_shape _ _ S2).
    (* top-right *)
    destruct (IH d (py_add x (py_half size)) y (py_half size)
                (value + step * 2) (step * 4) m2 m2 (xn + h)%nat yn)
      as (m3 & E3 & S3 & C3); try assumption; try lia.
    { now rewrite D2. }
    { rewrite (shape_length _ _ S2). lia. }
    { apply (shape_Forall (fun n => (xn + h + h <= n)%nat) _ _ S2).
      eapply Forall_impl; [|exact Hcols]. simpl; intros; lia. }
    rewrite D2 in E3. rewrite E3. cbn [bind].
    rewrite S2 in S3.
    assert (D3 : Dithering.is_default m3 = false)
      by now rewrite (is_default_shape _ _ S3).
    (* bottom-left *)
    destruct (IH d x (py_add y (py_half size)) (py_half size)
                (value + step * 3) (step * 4) m3 m3 xn (yn + h)%nat)
      as (m4 & E4 & S4 & C4); try assumption; try lia.
    { now rewrite D3. }
    { rewrite (shape_length _ _ S3). lia. }
    { apply (shape_Forall (fun n => (xn + h <= n)%nat) _ _ S3).
      eapply Forall_impl; [|exact Hcols]. simpl; intros; lia. }
    rewrite D3 in E4. rewrite E4. cbn [bind].
    rewrite S3 in S4.
    exists m4. split; [|split].
    + destruct (Dithering.is_default m); reflexivity.
    + exact S4.
    + intros r c. rewrite C4, C3, C2, C1. unfold in_square.
      cbn [bayer_val]. fold h.
      split_cmp; cbn [andb]; try reflexivity;
        f_equal; try (replace (r - yn - h)%nat with (r - (yn + h))%nat by lia);
        try (replace (c - xn - h)%nat with (c - (xn + h))%nat by lia); ring.
Qed.

(** ** The Bayer values are a numbering of the cells *)

Lemma pow2_pos (k : nat) : (0 < 2 ^ k)%nat.
Proof. apply Nat.neq_0_lt_0, Nat.pow_nonzero. lia. Qed.

Lemma bayer_val_range (k : nat) :
  forall r c, 0 <= bayer_val k r c < 4 ^ Z.of_nat k.
Proof.
  induction k as [|k IH]; intros r c.
  - simpl. lia.
  - rewrite Nat2Z.inj_succ, Z.pow_succ_r by lia. cbn [bayer_val].
    destruct (r <? 2 ^ k)%nat, (c <? 2 ^ k)%nat;
      match goal with |- context [bayer_val k ?a ?b] => specialize (IH a b) end; lia.
Qed.

Lemma bayer_val_inj (k : nat) :
  forall r c r' c',
    (r < 2 ^ k)%nat -> (c < 2 ^ k)%nat -> (r' < 2 ^ k)%nat -> (c' < 2 ^ k)%nat ->
    bayer_val k r c = bayer_val k r' c' -> r = r' /\ c = c'.
Proof.
  induction k as [|k IH]; intros r c r' c' Hr Hc Hr' Hc' E.
  - simpl in *. lia.
  - rewrite Nat.pow_succ_r' in *. cbn [bayer_val] in E.
    pose proof (pow2_pos k) as Hpos.
    set (h := (2 ^ k)%nat) in *.
    destruct (Nat.ltb_spec r h), (Nat.ltb_spec c h),
      (Nat.ltb_spec r' h), (Nat.ltb_spec c' h);
      repeat match goal with
      | _ : context [bayer_val k ?a ?b] |- _ =>
          lazymatch goal with
          | _ : 0 <= bayer_val k a b < _ |- _ => fail
          | _ => pose proof (bayer_val_range k a b)
          end
      end; try lia;
      match type of E with
      | _ + 4 * bayer_val k ?a ?b = _ + 4 * bayer_val k ?a' ?b' =>
          assert (E' : bayer_val k a b = bayer_val k a' b') by lia;
          apply IH in E'; lia
      end.
Qed.

Lemma list_eq_map_seq {A : Type} (l : list A) (f : nat -> A) (n : nat) :
  length l = n ->
  (forall i, (i < n)%nat -> nth_error l i = Some (f i)) ->
  l = map f (seq 0 n).
Proof.
  intros Hlen H. apply nth_error_ext. intros i.
  rewrite nth_error_map, nth_error_seq.
  destruct (Nat.ltb_spec i n) as [Hi|Hi]; simpl.
  - now apply H.
  - apply nth_error_None. lia.
Qed.

Lemma matrix_eq_map_seq (m : Matrix) (f : nat -> nat -> Z) (h w : nat) :
  map (@length Z) m = repeat w h ->
  (forall r c, (r < h)%nat -> (c < w)%nat -> cell m r c = Some (f r c)) ->
  m = map (fun r => map (f r) (seq 0 w)) (seq 0 h).
Proof.
  intros Hshape Hcell.
  assert (Hlen : length m = h).
  { apply (f_equal (@length nat)) in Hshape.
    now rewrite length_map, repeat_length in Hshape. }
  apply list_eq_map_seq; [exact Hlen|].
  intros r Hr.
  destruct (nth_error m r) as [row|] eqn:Hrow.
  2:{ apply nth_error_None in Hrow. lia. }
  f_equal. apply list_eq_map_seq.
  - assert (E : nth_error (map (@length Z) m) r = Some (length row))
      by (rewrite nth_error_map, Hrow; reflexivity).
    rewrite Hshape in E. apply nth_error_In, repeat_spec in E. exact E.
  - intros c Hc. specialize (Hcell r c Hr Hc). unfold cell in Hcell.
    now rewrite Hrow in Hcell.
Qed.

Lemma concat_map_rows {A : Type} (f : nat -> nat -> A) (rs cs : list nat) :
  concat (map (fun r => map (f r) cs) rs) =
  map (fun rc => f (fst rc) (snd rc)) (list_prod rs cs).
Proof.
  induction rs as [|r rs IH]; simpl.
  - reflexivity.
  - rewrite map_app, map_map, IH. reflexivity.
Qed.

Lemma NoDup_list_prod {A B : Type} (l : list A) (l' : list B) :
  NoDup l -> NoDup l' -> NoDup (list_prod l l').
Proof.
  intros Hl Hl'. induction Hl as [|a l Ha Hl IH]; simpl.
  - constructor.
  - apply NoDup_app.
    + apply NoDup_map_NoDup_ForallPairs; [|exact Hl'].
      intros x y _ _ E. congruence.
    + exact IH.
    + intros [a' b'] Hin1 Hin2.
      apply in_map_iff in Hin1. destruct Hin1 as (b & E & _).
      apply in_prod_iff in Hin2. destruct Hin2 as [Hin2 _].
      congruence.
Qed.

(** A list without repetition whose [n] elements all lie in [0, n) holds
    each number of that interval exactly once. *)
Lemma numbering_count (l : list Z) (n : nat) :
  NoDup l -> length l = n ->
  (forall v, In v l -> 0 <= v < Z.of_nat n) ->
  forall v, 0 <= v < Z.of_nat n -> count_occ Z.eq_dec l v = 1%nat.
Proof.
  intros Hnd Hlen Hrange v Hv.
  apply (proj1 (NoDup_count_occ' Z.eq_dec l) Hnd).
  apply (@NoDup_length_incl Z l (map Z.of_nat (seq 0 n)) Hnd).
  - rewrite length_map, length_seq. lia.
  - intros u Hu. apply Hrange in Hu. apply in_map_iff.
    exists (Z.to_nat u). split; [lia|]. apply in_seq. lia.
  - apply in_map_iff. exists (Z.to_nat v). split; [lia|]. apply in_seq. lia.
Qed.

Lemma is_default_repeat (row : list Z) (n : nat) :
  (2 <= n)%nat -> Dithering.is_default (repeat row n) = false.
Proof.
  destruct n as [|[|n]]; try lia. intros _. simpl. now destruct row.
Qed.

Lemma cell_repeat (v : Z) (h w r c : nat) :
  cell (repeat (repeat v w) h) r c =
  if ((r <? h) && (c <? w))%nat then Some v else None.
Proof.
  unfold cell.
  destruct (Nat.ltb_spec r h) as [Hr|Hr]; simpl.
  - rewrite (nth_error_repeat _ Hr).
    destruct (Nat.ltb_spec c w) as [Hc|Hc].
    + now apply nth_error_repeat.
    + apply nth_error_None. rewrite repeat_length. lia.
  - replace (nth_error (repeat (repeat v w) h) r) with (@None (list Z)); [reflexivity|].
    symmetry. apply nth_error_None. rewrite repeat_length. lia.
Qed.

(** The matrix [create_bayer(0, 0, 2 ** order, 0, 1)] returns, for
    [order >= 1] and enough stack. *)
Lemma create_bayer_top (order extra : nat) :
  (1 <= order)%nat ->
  exists m0,
    Dithering.create_bayer (S order + extra) (PInt 0) (PInt 0)
      (PInt (2 ^ Z.of_nat order)) 0 1 [ [] ] =
    Ok (m0, Some (map (fun r => map (bayer_val order r) (seq 0 (2 ^ order)))
                     (seq 0 (2 ^ order)))).
Proof.
  intros Ho.
  set (n := (2 ^ order)%nat).
  assert (Hn : Z.of_nat n = 2 ^ Z.of_nat order).
  { subst n. rewrite Nat2Z.inj_pow. reflexivity. }
  assert (Hn2 : (2 <= n)%nat).
  { subst n. destruct order as [|o]; [lia|]. rewrite Nat.pow_succ_r'.
    pose proof (pow2_pos o). lia. }
  destruct (create_bayer_region order (S order + extra) (PInt 0) (PInt 0)
              (PInt (2 ^ Z.of_nat order)) 0 1 [ [] ]
              (repeat (repeat 0 n) n) 0%nat 0%nat)
    as (m' & E & Hshape & Hcell).
  - lia.
  - unfold is_nat; simpl. reflexivity.
  - unfold is_nat; simpl. reflexivity.
  - unfold is_nat; simpl. fold n. now rewrite Hn.
  - simpl. rewrite <- Hn, Nat2Z.id. reflexivity.
  - now apply is_default_repeat.
  - rewrite repeat_length. fold n. lia.
  - apply Forall_forall. intros row Hin. apply repeat_spec in Hin. subst row.
    rewrite repeat_length. fold n. lia.
  - exists [ [] ]. rewrite E. simpl Dithering.is_default. cbv iota.
    replace (Nat.eqb order 0) with false by (symmetry; apply Nat.eqb_neq; lia).
    do 3 f_equal. fold n in Hcell.
    apply matrix_eq_map_seq.
    + rewrite Hshape. rewrite map_repeat, repeat_length. reflexivity.
    + intros r c Hr Hc. rewrite Hcell. unfold in_square.
      split_cmp. cbn [andb]. rewrite !Nat.sub_0_r. f_equal. ring.
Qed.

(** C4. For every order >= 1 (and a stack deeper than the order),
    [build(2 ** order)] returns a square matrix of side [2 ** order] in
    which every integer of [0, (2 ** order) ** 2 - 1] occurs exactly once. *)
Theorem build_is_numbering (order extra : nat) :
  (1 <= order)%nat ->
  exists m,
    Dithering.build (S order + extra) (2 ^ Z.of_nat order) = Ok (Some m) /\
    length m = (2 ^ order)%nat /\
    Forall (fun row => length row = (2 ^ order)%nat) m /\
    forall v, 0 <= v <= (2 ^ Z.of_nat order) ^ 2 - 1 ->
              count_occ Z.eq_dec (concat m) v = 1%nat.
Proof.
  intros Ho. destruct (create_bayer_top order extra Ho) as (m0 & E).
  set (n := (2 ^ order)%nat) in *.
  eexists. split; [|split; [|split]].
  - unfold Dithering.build. rewrite E. reflexivity.
  - now rewrite length_map, length_seq.
  - apply Forall_forall. intros row Hin. apply in_map_iff in Hin.
    destruct Hin as (r & <- & _). now rewrite length_map, length_seq.
  - intros v Hv. rewrite concat_map_rows.
    assert (Hsq : (2 ^ Z.of_nat order) ^ 2 = Z.of_nat (n * n)).
    { subst n. rewrite Nat2Z.inj_mul, Nat2Z.inj_pow. simpl (Z.of_nat 2). ring. }
    assert (H4 : 4 ^ Z.of_nat order = Z.of_nat (n * n)).
    { rewrite <- Hsq. change 4 with (2 ^ 2). rewrite <- !Z.pow_mul_r by lia.
      f_equal. lia. }
    apply (numbering_count _ (n * n)).
    + apply NoDup_map_NoDup_ForallPairs.
      * intros [r c] [r' c'] Hin Hin' Eq. simpl in Eq.
        apply in_prod_iff in Hin, Hin'. rewrite !in_seq in Hin, Hin'.
        apply bayer_val_inj in Eq; try (fold n; lia).
        destruct Eq; congruence.
      * apply NoDup_list_prod; apply seq_NoDup.
    + now rewrite length_map, length_prod, !length_seq.
    + intros u Hu. apply in_map_iff in Hu. destruct Hu as ([r c] & <- & _).
      simpl. rewrite <- H4. apply bayer_val_range.
    + lia.
Qed.

Lemma build_is_numbering_witness :
  (1 <= 2)%nat /\
  exists m,
    Dithering.build (S 2 + 997) (2 ^ Z.of_nat 2) = Ok (Some m) /\
    length m = (2 ^ 2)%nat /\
    Forall (fun row => length row = (2 ^ 2)%nat) m /\
    forall v, 0 <= v <= (2 ^ Z.of_nat 2) ^ 2 - 1 ->
              count_occ Z.eq_dec (concat m) v = 1%nat.
Proof.
  split; [lia | apply (build_is_numbering 2 997); lia].
Defined.

(** C5. [build(4)] is the classical 4 x 4 Bayer matrix, whatever stack
    is left beyond the three frames the construction needs. *)
Theorem build_4 (extra : nat) :
  Dithering.build (3 + extra) 4 =
  Ok (Some [ [0; 8; 2; 10]; [12; 4; 14; 6]; [3; 11; 1; 9]; [15; 7; 13; 5] ]).
Proof. reflexivity. Qed.

(** ** Sizes that are not powers of two *)

Lemma never_one_half (q : Q) : never_one q -> never_one (q / 2).
Proof.
  intros H k E. apply (H (S k)).
  rewrite Nat2Z.inj_succ, Z.pow_succ_r by lia.
  rewrite inject_Z_mult, <- E. change (inject_Z 2) with 2%Q. field.
Qed.

Lemma is_pow2_pow (k : nat) : is_pow2 (2 ^ Z.of_nat k) = true.
Proof.
  unfold is_pow2. apply andb_true_iff. split.
  - apply Z.ltb_lt. apply Z.pow_pos_nonneg; lia.
  - apply Z.eqb_eq.
    replace (2 ^ Z.of_nat k - 1) with (Z.ones (Z.of_nat k))
      by (rewrite Z.ones_equiv; lia).
    rewrite Z.land_ones by lia. apply Z.mod_same.
    apply Z.pow_nonzero; lia.
Qed.

Lemma not_pow2_never_one (size : Z) :
  is_pow2 size = false -> never_one (inject_Z size).
Proof.
  intros H k E. unfold Qeq in E; simpl in E.
  assert (size = 2 ^ Z.of_nat k) by lia. subst size.
  rewrite is_pow2_pow in H. discriminate.
Qed.

Lemma create_bayer_never_one (depth : nat) :
  forall x y size value step m,
    Dithering.is_default m = false ->
    never_one (num_val size) ->
    Dithering.create_bayer depth x y size value step m = Raise RecursionError.
Proof.
  induction depth as [|d IH]; intros x y size value step m Hm Hsize.
  - reflexivity.
  - rewrite create_bayer_S. cbv zeta. rewrite Hm. cbn [bind].
    assert (E : py_is_one size = false).
    { unfold py_is_one. destruct (Qeq_bool (num_val size) 1) eqn:E; [|reflexivity].
      apply Qeq_bool_iff in E. exfalso. apply (Hsize 0%nat). exact E. }
    rewrite E, IH; [reflexivity|exact Hm|].
    now apply never_one_half.
Qed.

Lemma is_default_zeros (n : nat) :
  Dithering.is_default (repeat (repeat 0 n) n) = false.
Proof. destruct n as [|[|n]]; reflexivity. Qed.

(** C8, as the code has it.  [create_bayer] does not validate its size:
    when [size] is not a power of two no halving reaches [size == 1], and
    whatever the depth of the stack the call ends in [RecursionError]. *)
Theorem build_not_pow2 (depth : nat) (size : Z) :
  is_pow2 size = false ->
  Dithering.build depth size = Raise RecursionError.
Proof.
  intros H. unfold Dithering.build.
  destruct depth as [|d]; [reflexivity|].
  rewrite create_bayer_S. cbv zeta. simpl Dithering.is_default. cbv iota.
  unfold Dithering.zeros. cbn [bind].
  pose proof (not_pow2_never_one size H) as Hn.
  assert (E : py_is_one (PInt size) = false).
  { unfold py_is_one. destruct (Qeq_bool (num_val (PInt size)) 1) eqn:E; [|reflexivity].
    apply Qeq_bool_iff in E. exfalso. apply (Hn 0%nat). exact E. }
  rewrite E, create_bayer_never_one; [reflexivity|apply is_default_zeros|].
  apply never_one_half. exact Hn.
Qed.

Lemma build_not_pow2_witness :
  is_pow2 6 = false /\ Dithering.build 1000 6 = Raise RecursionError.
Proof.
  split; [reflexivity | apply (build_not_pow2 1000 6); reflexivity].
Defined.

(** C8, counterexample.  What [build(3)] raises with the standard stack of
    1000 frames is the exhaustion of that stack, met a thousand calls deep;
    with one frame less to spend the same happens one call earlier. *)
Lemma build_3_recursion_error :
  Dithering.build 1000 3 = Raise RecursionError /\
  Dithering.build 999 3 = Raise RecursionError.
Proof. split; vm_compute; reflexivity. Qed.

(** ** The probability gate and the sequence of augmentations *)

Lemma rng_ok_next (s : rng) : rng_ok s -> rng_ok (snd (next s)).
Proof. intros H n. apply (H (S n)). Qed.

Lemma should_run_draw (p : Q) (s : rng) :
  should_run p s = Ok (Qle_bool (s O) p, snd (next s)).
Proof.
  unfold should_run, uniform, next. f_equal. f_equal.
  assert (Heq : (0 + (1 - 0) * s O == s O)%Q) by ring.
  destruct (Qle_bool (s O) p) eqn:E, (Qle_bool (0 + (1 - 0) * s O) p) eqn:E';
    try reflexivity.
  - apply Qle_bool_iff in E. rewrite <- Heq in E. apply Qle_bool_iff in E. congruence.
  - apply Qle_bool_iff in E'. rewrite Heq in E'. apply Qle_bool_iff in E'. congruence.
Qed.

(** With [p = 1] the gate lets every draw through. *)
Lemma gated_one (body : pyval -> M pyval) (v : pyval) (s : rng) :
  rng_ok s -> gated 1 body v false s = body v (snd (next s)).
Proof.
  intros H. unfold gated, mbind. rewrite should_run_draw.
  replace (Qle_bool (s O) 1) with true; [reflexivity|].
  symmetry. apply Qle_bool_iff. apply H.
Qed.



(** Every call the loop records passes [force = False], one call per
    augmentation, and each output is appended to the results. *)
Lemma loop_calls (augs : list Augmentation) :
  forall result results calls s result' results' calls' s',
    AugmentationSequence.loop augs result results calls s =
      Ok ((result', results', calls'), s') ->
    exists outs new_calls,
      results' = results ++ outs /\ calls' = calls ++ new_calls /\
      length outs = length augs /\
      map AugmentationSequence.callee new_calls = map aug_name augs /\
      Forall (fun e => AugmentationSequence.force_arg e = false) new_calls.
Proof.
  induction augs as [|a augs IH]; intros result results calls s result' results' calls' s' H.
  - cbn in H. injection H as <- <- <- <-. exists [], [].
    rewrite !app_nil_r. repeat split; constructor.
  - cbn [AugmentationSequence.loop] in H. unfold mbind, lift in H.
    destruct (if is_tuple result then tuple_first result else Ok result) as [r|e];
      [|discriminate].
    destruct (aug_call a r false s) as [[cur s1]|e]; [|discriminate].
    apply IH in H. destruct H as (outs & ncs & -> & -> & Hlen & Hnames & Hforce).
    exists (cur :: outs),
      ({| AugmentationSequence.callee := aug_name a;
          AugmentationSequence.arg := r;
          AugmentationSequence.force_arg := false |} :: ncs).
    rewrite <- !app_assoc. simpl. repeat split; try congruence.
    constructor; [reflexivity|assumption].
Qed.

(** C6. A sequence built from two stages with [p = 1] returns, as the
    first item of its result, the second stage's function applied to the
    first stage's function applied to the image. *)
Theorem sequence_two_stages (nA nB : string) (fA fB : Image -> Image)
    (I : Image) (force : bool) (s : rng) :
  rng_ok s ->
  exists v self' calls s',
    AugmentationSequence.call
      (AugmentationSequence.new [stage nA 1 fA; stage nB 1 fB] 1)
      (VImage I) force s = Ok ((v, self', calls), s') /\
    v = VTuple [VImage (fB (fA I)); VAugs [nA; nB]] /\
    AugmentationSequence.primary v = Some (VImage (fB (fA I))) /\
    AugmentationSequence.results self' = [VImage (fA I); VImage (fB (fA I))] /\
    map AugmentationSequence.arg calls = [VImage I; VImage (fA I)].
Proof.
  intros Hs.
  assert (Hbody : forall s0, rng_ok s0 ->
    mbind (AugmentationSequence.loop [stage nA 1 fA; stage nB 1 fB] (VImage I) [] [])
      (fun '(result, results', calls) =>
         ret (VTuple [result; VAugs (map aug_name [stage nA 1 fA; stage nB 1 fB])],
              {| AugmentationSequence.augmentations := [stage nA 1 fA; stage nB 1 fB];
                 AugmentationSequence.p := 1;
                 AugmentationSequence.results := results' |},
              calls)) s0 =
    Ok ((VTuple [VImage (fB (fA I)); VAugs [nA; nB]],
         {| AugmentationSequence.augmentations := [stage nA 1 fA; stage nB 1 fB];
            AugmentationSequence.p := 1;
            AugmentationSequence.results := [VImage (fA I); VImage (fB (fA I))] |},
         [ {| AugmentationSequence.callee := nA; AugmentationSequence.arg := VImage I;
              AugmentationSequence.force_arg := false |};
           {| AugmentationSequence.callee := nB; AugmentationSequence.arg := VImage (fA I);
              AugmentationSequence.force_arg := false |} ]),
        snd (next (snd (next s0))))).
  { intros s0 H0. unfold mbind at 1. cbn [AugmentationSequence.loop].
    unfold mbind at 1. cbn [is_tuple lift]. unfold mbind at 1.
    cbn [stage aug_call aug_name]. rewrite (gated_one _ _ _ H0).
    cbn [py_copy bind lift is_tuple]. unfold mbind at 1. cbn [is_tuple lift].
    unfold mbind at 1. rewrite (gated_one _ _ _ (rng_ok_next _ H0)).
    cbn [py_copy bind lift]. reflexivity. }
  unfold AugmentationSequence.call, AugmentationSequence.new.
  cbn [AugmentationSequence.augmentations AugmentationSequence.p
       AugmentationSequence.results].
  destruct force.
  - rewrite (Hbody s Hs). do 4 eexists. split; [reflexivity|]. repeat split.
  - unfold mbind at 1. rewrite should_run_draw.
    replace (Qle_bool (s O) 1) with true
      by (symmetry; apply Qle_bool_iff; apply Hs).
    rewrite (Hbody _ (rng_ok_next _ Hs)).
    do 4 eexists. split; [reflexivity|]. repeat split.
Qed.

Lemma sequence_two_stages_witness :
  rng_ok (fun _ => 1 # 2)%Q /\
  exists v self' calls s',
    AugmentationSequence.call
      (AugmentationSequence.new
         [stage "A" 1 Dithering.dither_Floyd_Steinberg;
          stage "B" 1 (fun i => i)] 1)
      (VImage (Gray [ [7] ])) false (fun _ => 1 # 2)%Q = Ok ((v, self', calls), s') /\
    v = VTuple [VImage (Gray [ [7] ]); VAugs ["A"; "B"]%string] /\
    AugmentationSequence.primary v = Some (VImage (Gray [ [7] ])) /\
    AugmentationSequence.results self' = [VImage (Gray [ [7] ]); VImage (Gray [ [7] ])] /\
    map AugmentationSequence.arg calls = [VImage (Gray [ [7] ]); VImage (Gray [ [7] ])].
Proof.
  assert (H : rng_ok (fun _ => 1 # 2)%Q)
    by (intros n; split; unfold Qle; simpl; lia).
  split; [exact H|].
  exact (sequence_two_stages "A" "B" Dithering.dither_Floyd_Steinberg (fun i => i)
           (Gray [ [7] ]) false (fun _ => 1 # 2)%Q H).
Defined.



(** ** Geometric: the crop *)

(** The function [crop] of the class leaves the image alone when the
    bounds are degenerate. *)
Lemma crop_function_degenerate (scale : Q * Q) (translation : Z * Z)
    (fliplr flipud xstart ystart xend yend : Z) (rotate_range : Z * Z) (p : Q)
    (image : Image) :
  (xend <> -1 /\ xend <= xstart) \/ (yend <> -1 /\ yend <= ystart)
  \/ xstart < 0 \/ ystart < 0 ->
  Geometric.crop
    (Geometric.init scale translation fliplr flipud [xstart; ystart; xend; yend]
       rotate_range p) image = Ok image.
Proof.
  intros H. unfold Geometric.crop, Geometric.init. cbn [Geometric.getattr Geometric.assoc
    String.eqb Ascii.eqb Bool.eqb bind].
  destruct (Geometric.shape2 image) as [ysize xsize].
  destruct (Z.eqb_spec yend (-1)), (Z.eqb_spec xend (-1)); cbv iota;
    repeat match goal with
      | |- context [?a <? ?b] => destruct (Z.ltb_spec a b)
      | |- context [?a <=? ?b] => destruct (Z.leb_spec a b)
      end; cbn [andb]; try reflexivity; exfalso; lia.
Qed.

(** C9, what the code does.  [__init__] stores the crop tuple in the
    attribute [crop] of the object, which hides the function [crop] of the
    class: with any non-empty crop tuple, [self.crop(image)] calls a tuple
    and [__call__] raises [TypeError]. *)
Theorem call_with_crop_raises
    (scale_resize translate after_crop : Geometric.obj -> Image -> M Image)
    (scale : Q * Q) (translation : Z * Z) (fliplr flipud : Z) (c : Z) (cs : list Z)
    (rotate_range : Z * Z) (p : Q) (image : Image) (s : rng) :
  Geometric.call scale_resize translate after_crop
    (Geometric.init scale translation fliplr flipud (c :: cs) rotate_range p)
    (VImage image) true s = Raise TypeError.
Proof.
  unfold Geometric.call, Geometric.init.
  cbn [Geometric.getattr Geometric.assoc String.eqb Ascii.eqb Bool.eqb lift].
  unfold mbind at 1. cbn [gated].
  unfold mbind at 1. cbn [py_copy lift].
  unfold mbind at 1.
  cbn [Geometric.getattr Geometric.assoc String.eqb Ascii.eqb Bool.eqb lift].
  unfold mbind at 1. cbn [Geometric.truthy length Nat.eqb negb].
  unfold mbind at 1.
  cbn [Geometric.getattr Geometric.assoc String.eqb Ascii.eqb Bool.eqb lift].
  reflexivity.
Qed.

(** With the empty tuple, the default, the crop is skipped. *)
Lemma call_without_crop
    (scale_resize translate after_crop : Geometric.obj -> Image -> M Image)
    (scale : Q * Q) (translation : Z * Z) (fliplr flipud : Z)
    (rotate_range : Z * Z) (p : Q) (image : Image) (s : rng) :
  let self := Geometric.init scale translation fliplr flipud [] rotate_range p in
  Geometric.call scale_resize translate after_crop self (VImage image) true s =
  mbind (after_crop self image) (fun image => ret (VImage image)) s.
Proof. reflexivity. Qed.

(** ** The light mask *)

Lemma list_set_repeat {A : Type} (v : A) (n i : nat) :
  list_set i v (repeat v n) = repeat v n.
Proof.
  revert i. induction n as [|n IH]; intros [|i]; simpl; try reflexivity.
  now rewrite IH.
Qed.

Lemma for_each_fixed {A S : Type} (l : list A) (body : A -> S -> pyresult S) (s : S) :
  (forall a, body a s = Ok s) -> for_each l body s = Ok s.
Proof.
  intros H. induction l as [|a l IH]; simpl; [reflexivity|].
  rewrite H. exact IH.
Qed.




Lemma times_sqrt2_nonneg (m : Z) : 0 <= m -> 0 <= ScannerAugmentation.times_sqrt2 m.
Proof.
  intros H. unfold ScannerAugmentation.times_sqrt2.
  apply Z.mul_nonneg_nonneg.
  - destruct m; simpl; lia.
  - apply Z.sqrt_nonneg.
Qed.

(** The row loop of [generate_parallel_light_mask] compares the mode with
    ["linear"]: in mode ["linear_static"] the value of every row is [0]. *)
Lemma row_value_linear_static (norm_pdf : Q -> Q -> Q -> Q) (i : nat)
    (max_brightness min_brightness : Q) (light_y : Z) (rate : option Q) (size_y : Z) :
  ScannerAugmentation.row_value norm_pdf "linear_static" i max_brightness
    min_brightness light_y rate size_y = Ok 0%Q.
Proof. reflexivity. Qed.

(** In mode ["gaussian"] the value of a row is computed through the name
    [norm], which the module never binds. *)
Lemma row_value_gaussian (norm_pdf : Q -> Q -> Q -> Q) (i : nat)
    (max_brightness min_brightness : Q) (light_y : Z) (rate : option Q) (size_y : Z) :
  ScannerAugmentation.row_value norm_pdf "gaussian" i max_brightness
    min_brightness light_y rate size_y = Raise (NameError "norm").
Proof. reflexivity. Qed.

(** C3, what the code does.  In mode ["linear_static"], for every mask
    size, position, direction, brightness and decay rate, the mask is all
    zero when the row loop is over. *)
Theorem linear_static_mask_is_zero (norm_pdf : Q -> Q -> Q -> Q) (w h : Z)
    (position : option (Z * Z)) (direction : option Z)
    (max_brightness min_brightness : Q) (rate : option Q) (s : rng) :
  0 <= w -> 0 <= h ->
  exists f s',
    ScannerAugmentation.fill_mask norm_pdf (w, h) position direction
      max_brightness min_brightness "linear_static" rate s = Ok (f, s') /\
    let padding := ScannerAugmentation.times_sqrt2 (Z.max w h) in
    ScannerAugmentation.mask f =
      repeat (repeat 0%Q (Z.to_nat (padding * 2 + w))) (Z.to_nat (padding * 2 + h)).
Proof.
  intros Hw Hh.
  pose proof (times_sqrt2_nonneg (Z.max w h) ltac:(lia)) as Hp.
  unfold ScannerAugmentation.fill_mask. cbn [fst snd].
  unfold mbind at 1.
  destruct (match position with
            | Some pos => ret pos
            | None => _
            end s) as [[[pos_x pos_y] s1]|e] eqn:E1.
  2:{ destruct position as [pos|]; [discriminate|].
      destruct (ScannerAugmentation.randint 0 w s) as [a sa].
      destruct (ScannerAugmentation.randint 0 h sa). discriminate. }
  unfold mbind at 1.
  destruct (match direction with
            | Some d => ret d
            | None => _
            end s1) as [[dir s2]|e] eqn:E2.
  2:{ destruct direction; discriminate. }
  unfold mbind at 1.
  change (String.eqb "linear_static" "linear_static") with true. cbv iota.
  destruct (match rate with
            | Some r => ret (Some r)
            | None => _
            end s2) as [[rate' s3]|e] eqn:E3.
  2:{ destruct rate; [discriminate|].
      destruct (uniform (2 # 10) 2 s2). discriminate. }
  unfold mbind at 1.
  change (String.eqb "linear_static" "linear_dynamic") with false. cbv iota.
  unfold ret at 1.
  change (ScannerAugmentation.mode_of "linear_static")
    with ScannerAugmentation.linear_static. cbv iota.
  replace (ScannerAugmentation.times_sqrt2 (Z.max w h) * 2 + w <? 0) with false
    by (symmetry; apply Z.ltb_ge; lia).
  replace (ScannerAugmentation.times_sqrt2 (Z.max w h) * 2 + h <? 0) with false
    by (symmetry; apply Z.ltb_ge; lia).
  cbn [orb]. unfold mbind at 1.
  rewrite for_each_fixed.
  - cbn [lift]. unfold ret. do 2 eexists. split; reflexivity.
  - intros i. rewrite row_value_linear_static. cbn [bind].
    now rewrite list_set_repeat.
Qed.

Lemma linear_static_mask_is_zero_witness :
  0 <= 2 /\ 0 <= 2 /\
  exists f s',
    ScannerAugmentation.fill_mask (fun _ _ _ => 1%Q) (2, 2) (Some (1, 1)) (Some 0)
      255 0 "linear_static" (Some 1%Q) (fun _ => 1 # 2)%Q = Ok (f, s') /\
    let padding := ScannerAugmentation.times_sqrt2 (Z.max 2 2) in
    ScannerAugmentation.mask f =
      repeat (repeat 0%Q (Z.to_nat (padding * 2 + 2))) (Z.to_nat (padding * 2 + 2)).
Proof.
  split; [lia|]. split; [lia|].
  apply (linear_static_mask_is_zero (fun _ _ _ => 1%Q) 2 2 (Some (1, 1)) (Some 0)
           255 0 (Some 1%Q) (fun _ => 1 # 2)%Q); lia.
Defined.

(** The helper the loop never reaches replaces negative values by [1] and
    keeps the values of [0, 1): here 255 rows away from the centre at rate
    1 the value is [0]. *)
Lemma decayed_value_in_linear_below_one :
  ScannerAugmentation._decayed_value_in_linear 258 255 3 (Some 1%Q) = Ok 0%Q /\
  ScannerAugmentation._decayed_value_in_linear 259 255 3 (Some 1%Q) = Ok 1%Q.
Proof. split; reflexivity. Qed.

(** C7, what the code does.  In mode ["gaussian"], for every mask with a
    row to fill, the call raises [NameError] on the name [norm]. *)
Theorem gaussian_mask_raises (norm_pdf : Q -> Q -> Q -> Q) (w h : Z)
    (position : option (Z * Z)) (direction : option Z)
    (max_brightness min_brightness : Q) (rate : option Q) (s : rng) :
  0 <= w -> 0 < h ->
  ScannerAugmentation.fill_mask norm_pdf (w, h) position direction
    max_brightness min_brightness "gaussian" rate s = Raise (NameError "norm").
Proof.
  intros Hw Hh.
  pose proof (times_sqrt2_nonneg (Z.max w h) ltac:(lia)) as Hp.
  unfold ScannerAugmentation.fill_mask. cbn [fst snd].
  unfold mbind at 1.
  destruct (match position with
            | Some pos => ret pos
            | None => _
            end s) as [[[pos_x pos_y] s1]|e] eqn:E1.
  2:{ destruct position as [pos|]; [discriminate|].
      destruct (ScannerAugmentation.randint 0 w s) as [a sa].
      destruct (ScannerAugmentation.randint 0 h sa). discriminate. }
  unfold mbind at 1.
  destruct (match direction with
            | Some d => ret d
            | None => _
            end s1) as [[dir s2]|e] eqn:E2.
  2:{ destruct direction; discriminate. }
  unfold mbind at 1.
  change (String.eqb "gaussian" "linear_static") with false. cbv iota.
  destruct (match rate with
            | Some r => ret (Some r)
            | None => ret None
            end s2) as [[rate' s3]|e] eqn:E3.
  2:{ destruct rate; discriminate. }
  unfold mbind at 1.
  change (String.eqb "gaussian" "linear_dynamic") with false. cbv iota.
  unfold ret at 1.
  change (ScannerAugmentation.mode_of "gaussian") with ScannerAugmentation.gaussian.
  cbv iota.
  replace (ScannerAugmentation.times_sqrt2 (Z.max w h) * 2 + w <? 0) with false
    by (symmetry; apply Z.ltb_ge; lia).
  replace (ScannerAugmentation.times_sqrt2 (Z.max w h) * 2 + h <? 0) with false
    by (symmetry; apply Z.ltb_ge; lia).
  cbn [orb]. unfold mbind at 1.
  destruct (Z.to_nat (ScannerAugmentation.times_sqrt2 (Z.max w h) * 2 + h)) as [|n] eqn:En;
    [lia|].
  unfold range. rewrite Nat.sub_0_r. cbn [seq for_each].
  rewrite row_value_gaussian. reflexivity.
Qed.

Lemma gaussian_mask_raises_witness :
  0 <= 2 /\ 0 < 2 /\
  ScannerAugmentation.fill_mask (fun _ _ _ => 1%Q) (2, 2) (Some (1, 1)) (Some 0)
    255 0 "gaussian" None (fun _ => 1 # 2)%Q = Raise (NameError "norm").
Proof.
  split; [lia|]. split; [lia|].
  apply (gaussian_mask_raises (fun _ _ _ => 1%Q) 2 2 (Some (1, 1)) (Some 0)
           255 0 None (fun _ => 1 # 2)%Q); lia.
Defined.

(** At order 1 on the one-row image [[100, 100]] the code builds the
    matrix of side [2 ** order = 2] and normalizes it to
    [[0, 170], [255, 85]], but [apply_Ordered] tiles with [y % order] and
    [x % order], here [% 1]: both pixels meet the entry [0] and come out as
    255, where the specification has the second pixel meet 170 and come out
    as 0. *)
Lemma dither_Ordered_tiles_by_order :
  Dithering.dither_Ordered 1000 (Gray [ [100; 100] ]) 1 = Ok (Gray [ [255; 255] ]) /\
  spec_dither_Ordered 1 [ [100; 100] ] = [ [255; 0] ].
Proof. split; vm_compute; reflexivity. Qed.

(** ** Planes *)

Lemma nth_list_set {A : Type} (i j : nat) (v d : A) (l : list A) :
  nth j (list_set i v l) d =
  if (Nat.eqb i j && (i <? length l)%nat)%bool then v else nth j l d.
Proof.
  revert i j. induction l as [|h t IH]; intros i j.
  - rewrite Bool.andb_comm. destruct i, j; reflexivity.
  - destruct i as [|i], j as [|j]; simpl; try reflexivity.
    rewrite IH. reflexivity.
Qed.

Lemma shape_plane_set {A : Type} (y x : nat) (v : A) (a : Plane A) :
  shape (plane_set y x v a) = shape a.
Proof.
  unfold plane_set, shape. destruct (nth_error a y) as [row|] eqn:E; [|reflexivity].
  revert y E. induction a as [|h t IH]; intros [|y] E; simpl in *; try discriminate.
  - injection E as ->. now rewrite length_list_set.
  - f_equal. now apply IH.
Qed.

Lemma shape_rect {A : Type} (w : nat) (a : Plane A) :
  rect w a <-> shape a = repeat w (length a).
Proof.
  unfold rect, shape. induction a as [|h t IH]; simpl.
  - split; [reflexivity|constructor].
  - split.
    + intros H. inversion H; subst. f_equal. now apply IH.
    + intros H. injection H as H1 H2. constructor; [exact H1|now apply IH].
Qed.

Lemma shape_length_eq {A B : Type} (a : Plane A) (b : Plane B) :
  shape a = shape b -> length a = length b.
Proof.
  unfold shape. intros H. apply (f_equal (@length nat)) in H.
  now rewrite !length_map in H.
Qed.

Lemma rect_nth {A : Type} (w : nat) (a : Plane A) (y : nat) :
  rect w a -> (y < length a)%nat -> length (nth y a []) = w.
Proof.
  intros H Hy. unfold rect in H. rewrite Forall_forall in H.
  apply H. now apply nth_In.
Qed.

(** Reading after [a[y, x] = v], at positions the array has. *)
Lemma px_plane_set {A : Type} (d : A) (w : nat) (a : Plane A) (y x : nat) (v : A)
    (r c : nat) :
  rect w a -> (y < length a)%nat -> (x < w)%nat ->
  px d (plane_set y x v a) r c =
  if (Nat.eqb y r && Nat.eqb x c)%bool then v else px d a r c.
Proof.
  intros Hrect Hy Hx. unfold plane_set, px.
  destruct (nth_error a y) as [row|] eqn:E.
  2:{ apply nth_error_None in E. lia. }
  assert (Hrow : nth y a [] = row) by (now apply nth_error_nth).
  assert (Hlen : length row = w) by (rewrite <- Hrow; now apply rect_nth).
  rewrite nth_list_set.
  replace (y <? length a)%nat with true by (symmetry; apply Nat.ltb_lt; lia).
  rewrite Bool.andb_true_r.
  destruct (Nat.eqb_spec y r) as [<-|Hne]; simpl.
  - rewrite nth_list_set, Hlen, Hrow.
    replace (x <? w)%nat with true by (symmetry; apply Nat.ltb_lt; lia).
    now rewrite Bool.andb_true_r.
  - reflexivity.
Qed.

Lemma rect_plane_set {A : Type} (w : nat) (y x : nat) (v : A) (a : Plane A) :
  rect w a -> rect w (plane_set y x v a).
Proof.
  intros H. apply shape_rect. rewrite shape_plane_set.
  rewrite (shape_length_eq (plane_set y x v a) a) by apply shape_plane_set.
  now apply shape_rect.
Qed.

Lemma length_plane_set {A : Type} (y x : nat) (v : A) (a : Plane A) :
  length (plane_set y x v a) = length a.
Proof. apply shape_length_eq, shape_plane_set. Qed.

Lemma px_plane_add (w : nat) (a : Plane Q) (y x : nat) (e : Q) (r c : nat) :
  rect w a -> (y < length a)%nat -> (x < w)%nat ->
  px 0%Q (plane_add y x e a) r c =
  if (Nat.eqb y r && Nat.eqb x c)%bool then (px 0%Q a y x + e)%Q else px 0%Q a r c.
Proof. intros. unfold plane_add. now apply px_plane_set with (w := w). Qed.

(** ** Error diffusion: one pixel *)

Lemma floor_cases (old : Q) :
  let k := inject_Z (Qfloor (old / 128)) in
  (128 * k <= old /\ old < 128 * (k + 1))%Q /\
  (k <= -2 \/ k == -1 \/ k == 0 \/ k == 1 \/ 2 <= k)%Q.
Proof.
  intros k. subst k. split.
  - pose proof (Qfloor_le (old / 128)) as H1.
    pose proof (Qlt_floor (old / 128)) as H2.
    rewrite inject_Z_plus in H2. change (inject_Z 1) with 1%Q in H2.
    assert (E : (old == 128 * (old / 128))%Q) by (field).
    set (t := (old / 128)%Q) in *. lra.
  - set (z := Qfloor (old / 128)).
    assert (Hz : z <= -2 \/ z = -1 \/ z = 0 \/ z = 1 \/ 2 <= z) by lia.
    destruct Hz as [Hz|[Hz|[Hz|[Hz|Hz]]]].
    + left. change (-2)%Q with (inject_Z (-2)). now rewrite <- Zle_Qle.
    + right; left. now rewrite Hz.
    + right; right; left. now rewrite Hz.
    + right; right; right; left. now rewrite Hz.
    + right; right; right; right. change 2%Q with (inject_Z 2). now rewrite <- Zle_Qle.
Qed.

Lemma py_min_cases (a b : Q) :
  (a <= b /\ py_min a b = a)%Q \/ (b < a /\ py_min a b = b)%Q.
Proof.
  unfold py_min. destruct (Qle_bool a b) eqn:E.
  - left. split; [now apply Qle_bool_iff|reflexivity].
  - right. split; [|reflexivity].
    apply Qnot_le_lt. intros H. apply Qle_bool_iff in H. congruence.
Qed.


(** The threshold stored for a pixel that holds [old], a value of
    [-128, 255], is 255 from 128 on, 0 from 0 on, and -255 below 0. *)
Lemma fs_new_cases (old : Q) :
  (-128 <= old)%Q -> (old <= 255)%Q ->
  (fs_new old == 255 /\ 128 <= old)%Q \/
  (fs_new old == 0 /\ 0 <= old /\ old < 128)%Q \/
  (fs_new old == -255 /\ old < 0)%Q.
Proof.
  intros Hlo Hhi. unfold fs_new.
  destruct (floor_cases old) as [[H1 H2] Hk].
  set (k := inject_Z (Qfloor (old / 128))) in *.
  destruct Hk as [Hk|[Hk|[Hk|[Hk|Hk]]]].
  - lra.
  - right; right. rewrite Hk in *. lra.
  - right; left. rewrite Hk in *. lra.
  - left. rewrite Hk in *. lra.
  - lra.
Qed.

Lemma rect_plane_add (w y x : nat) (e : Q) (a : Plane Q) :
  rect w a -> rect w (plane_add y x e a).
Proof. apply rect_plane_set. Qed.

Lemma length_plane_add (y x : nat) (e : Q) (a : Plane Q) :
  length (plane_add y x e a) = length a.
Proof. apply length_plane_set. Qed.

(** What one step of the scan leaves at every position. *)
Lemma px_fs_step (w : nat) (a : Plane Q) (y x r c : nat) :
  rect w a -> (1 <= x)%nat -> (x + 1 < w)%nat -> (y + 1 < length a)%nat ->
  px 0%Q (Dithering.fs_step y x a) r c =
  let old := px 0%Q a y x in
  if (Nat.eqb (y + 1) r && Nat.eqb (x + 1) c)%bool
  then (px 0%Q a r c + fs_err old * (1 / 16))%Q
  else if (Nat.eqb (y + 1) r && Nat.eqb x c)%bool
  then (px 0%Q a r c + fs_err old * (5 / 16))%Q
  else if (Nat.eqb (y + 1) r && Nat.eqb (x - 1) c)%bool
  then (px 0%Q a r c + fs_err old * (3 / 16))%Q
  else if (Nat.eqb y r && Nat.eqb (x + 1) c)%bool
  then (px 0%Q a r c + fs_err old * (7 / 16))%Q
  else if (Nat.eqb y r && Nat.eqb x c)%bool
  then fs_new old
  else px 0%Q a r c.
Proof.
  intros Hrect Hx1 Hx2 Hy. cbv zeta. unfold Dithering.fs_step.
  fold (fs_new (px 0%Q a y x)). fold (fs_err (px 0%Q a y x)).
  set (e := fs_err (px 0%Q a y x)).
  set (a1 := plane_set y x (fs_new (px 0%Q a y x)) a).
  set (a2 := plane_add y (x + 1) (e * (7 / 16)) a1).
  set (a3 := plane_add (y + 1) (x - 1) (e * (3 / 16)) a2).
  set (a4 := plane_add (y + 1) x (e * (5 / 16)) a3).
  assert (R1 : rect w a1) by now apply rect_plane_set.
  assert (L1 : length a1 = length a) by apply length_plane_set.
  assert (R2 : rect w a2) by now apply rect_plane_add.
  assert (L2 : length a2 = length a) by (unfold a2; now rewrite length_plane_add).
  assert (R3 : rect w a3) by now apply rect_plane_add.
  assert (L3 : length a3 = length a) by (unfold a3; now rewrite length_plane_add).
  assert (R4 : rect w a4) by now apply rect_plane_add.
  assert (L4 : length a4 = length a) by (unfold a4; now rewrite length_plane_add).
  assert (P1 : forall r c, px 0%Q a1 r c =
                 if (Nat.eqb y r && Nat.eqb x c)%bool then fs_new (px 0%Q a y x)
                 else px 0%Q a r c).
  { intros. apply px_plane_set with (w := w); auto; lia. }
  assert (P2 : forall r c, px 0%Q a2 r c =
                 if (Nat.eqb y r && Nat.eqb (x + 1) c)%bool
                 then (px 0%Q a1 y (x + 1) + e * (7 / 16))%Q else px 0%Q a1 r c).
  { intros. apply px_plane_add with (w := w); auto; lia. }
  assert (P3 : forall r c, px 0%Q a3 r c =
                 if (Nat.eqb (y + 1) r && Nat.eqb (x - 1) c)%bool
                 then (px 0%Q a2 (y + 1) (x - 1) + e * (3 / 16))%Q else px 0%Q a2 r c).
  { intros. apply px_plane_add with (w := w); auto; lia. }
  assert (P4 : forall r c, px 0%Q a4 r c =
                 if (Nat.eqb (y + 1) r && Nat.eqb x c)%bool
                 then (px 0%Q a3 (y + 1) x + e * (5 / 16))%Q else px 0%Q a3 r c).
  { intros. apply px_plane_add with (w := w); auto; lia. }
  rewrite (px_plane_add w) by (auto; lia).
  rewrite !P4, !P3, !P2, !P1.
  split_eqb; subst; reflexivity.
Qed.

(** ** Error diffusion: the scan *)

Lemma interior_spec (h w r c : nat) :
  interior h w r c = true <->
  (1 <= r /\ r + 1 < h /\ 1 <= c /\ c + 1 < w)%nat.
Proof.
  unfold interior. rewrite !andb_true_iff, !Nat.leb_le, !Nat.ltb_lt. tauto.
Qed.

Lemma visited_spec (h w cy cx r c : nat) :
  visited h w cy cx r c = true <->
  (1 <= r /\ r + 1 < h /\ 1 <= c /\ c + 1 < w)%nat /\
  (r < cy \/ (r = cy /\ c < cx))%nat.
Proof.
  unfold visited. rewrite andb_true_iff, interior_spec, orb_true_iff,
    andb_true_iff, !Nat.ltb_lt, Nat.eqb_eq. tauto.
Qed.

Lemma visited_later (h w cy cx r c : nat) :
  (cy < r \/ (r = cy /\ cx <= c))%nat -> visited h w cy cx r c = false.
Proof.
  intros H. destruct (visited h w cy cx r c) eqn:E; [|reflexivity].
  apply visited_spec in E. lia.
Qed.

Lemma visited_step (h w cy cx r c : nat) :
  interior h w cy cx = true ->
  visited h w cy (cx + 1) r c =
  (visited h w cy cx r c || (Nat.eqb r cy && Nat.eqb c cx))%bool.
Proof.
  intros Hi. apply interior_spec in Hi.
  destruct (visited h w cy (cx + 1) r c) eqn:E1,
    (visited h w cy cx r c) eqn:E2; cbn [orb]; try reflexivity.
  - apply visited_spec in E1. symmetry. apply andb_true_iff.
    rewrite !Nat.eqb_eq.
    assert (~ ((1 <= r /\ r + 1 < h /\ 1 <= c /\ c + 1 < w) /\
               (r < cy \/ r = cy /\ c < cx))%nat)
      by (rewrite <- visited_spec; congruence).
    lia.
  - apply visited_spec in E2.
    assert (~ ((1 <= r /\ r + 1 < h /\ 1 <= c /\ c + 1 < w) /\
               (r < cy \/ r = cy /\ c < cx + 1))%nat)
      by (rewrite <- visited_spec; congruence).
    lia.
  - symmetry. apply andb_false_iff. rewrite !Nat.eqb_neq.
    assert (~ ((1 <= r /\ r + 1 < h /\ 1 <= c /\ c + 1 < w) /\
               (r < cy \/ r = cy /\ c < cx + 1))%nat)
      by (rewrite <- visited_spec; congruence).
    lia.
Qed.

Lemma length_fs_step (y x : nat) (a : Plane Q) :
  length (Dithering.fs_step y x a) = length a.
Proof.
  unfold Dithering.fs_step. cbv zeta.
  now rewrite !length_plane_add, length_plane_set.
Qed.

Lemma rect_fs_step (w y x : nat) (a : Plane Q) :
  rect w a -> rect w (Dithering.fs_step y x a).
Proof.
  intros H. unfold Dithering.fs_step. cbv zeta.
  now repeat apply rect_plane_add; apply rect_plane_set.
Qed.

Section Scan.

Variable orig : Plane Z.
Variables h w : nat.
Hypothesis orig_uint8 : forall r c, 0 <= px 0 orig r c <= 255.






End Scan.

(** ** Error diffusion: the whole image *)

Lemma px_map {A B : Type} (f : A -> B) (d : A) (a : Plane A) (r c : nat) :
  px (f d) (map (map f) a) r c = f (px d a r c).
Proof.
  unfold px.
  change (@nil B) with (map f (@nil A)).
  rewrite (map_nth (map f)). rewrite map_nth. reflexivity.
Qed.

Lemma shape_map {A B : Type} (f : A -> B) (a : Plane A) :
  shape (map (map f) a) = shape a.
Proof.
  unfold shape. rewrite map_map. apply map_ext. intros row. apply length_map.
Qed.

Lemma shape_fs_step (y x : nat) (a : Plane Q) :
  shape (Dithering.fs_step y x a) = shape a.
Proof.
  unfold Dithering.fs_step, plane_add. cbv zeta.
  now rewrite !shape_plane_set.
Qed.

Lemma shape_fs_loops (a : Plane Q) (h w : nat) :
  shape (Dithering.fs_loops a h w) = shape a.
Proof.
  unfold Dithering.fs_loops.
  generalize (range 1 (h - 1)). intros ys. revert a.
  induction ys as [|y ys IH]; intros a; [reflexivity|].
  cbn [fold_left]. rewrite IH.
  generalize (range 1 (w - 1)). intros xs. revert a.
  induction xs as [|x xs IHx]; intros a; [reflexivity|].
  cbn [fold_left]. rewrite IHx. apply shape_fs_step.
Qed.

Lemma astype_uint8_inject (z : Z) : astype_uint8 (inject_Z z) = z mod 256.
Proof. unfold astype_uint8. now rewrite (Qtrunc_inject_Z _ z). Qed.

Lemma astype_uint8_eq (q : Q) (z : Z) :
  (q == inject_Z z)%Q -> astype_uint8 q = z mod 256.
Proof. intros H. unfold astype_uint8. now rewrite (Qtrunc_inject_Z _ z H). Qed.

Lemma astype_uint8_idem (q : Q) :
  astype_uint8 (inject_Z (astype_uint8 q)) = astype_uint8 q.
Proof.
  rewrite astype_uint8_inject. unfold astype_uint8. apply Z.mod_mod. lia.
Qed.

(** The cast of the cast of a plane is the cast. *)
Lemma plane_uint8_idem (a : Plane Q) :
  plane_uint8 (to_float (plane_uint8 a)) = plane_uint8 a.
Proof.
  unfold plane_uint8, to_float. rewrite !map_map. apply map_ext. intros row.
  rewrite !map_map. apply map_ext. intros q. apply astype_uint8_idem.
Qed.






Lemma channel_map {A B : Type} (f : A -> B) (d : A) (k : nat) (a : Plane (list A)) :
  channel (f d) k (map (map (map f)) a) = map (map f) (channel d k a).
Proof.
  unfold channel. rewrite !map_map. apply map_ext. intros row.
  rewrite !map_map. apply map_ext. intros pixel. apply map_nth.
Qed.

Lemma shape_channel {A : Type} (d : A) (k : nat) (a : Plane (list A)) :
  shape (channel d k a) = shape a.
Proof. apply shape_map. Qed.

Lemma row_set_channel {A : Type} (d : A) (k k' : nat) (dim : nat) :
  forall (row : list (list A)) (prow : list A),
    length prow = length row ->
    Forall (fun pixel => length pixel = dim) row -> (k < dim)%nat ->
    let row' := map (fun pv => list_set k (snd pv) (fst pv)) (combine row prow) in
    Forall (fun pixel => length pixel = dim) row' /\
    length row' = length row /\
    map (fun pixel => nth k' pixel d) row' =
      if Nat.eqb k k' then prow else map (fun pixel => nth k' pixel d) row.
Proof.
  induction row as [|pixel row IH]; intros [|v prow] Hlen Hdim Hk; try discriminate.
  - simpl. repeat split; [constructor|]. now destruct (Nat.eqb k k').
  - simpl in Hlen. injection Hlen as Hlen. inversion Hdim as [|? ? Hp Hrest]; subst.
    destruct (IH prow Hlen Hrest Hk) as (I1 & I2 & I3). cbn [combine map fst snd].
    split; [|split].
    + constructor; [now rewrite length_list_set|exact I1].
    + simpl. now rewrite I2.
    + rewrite I3, nth_list_set.
      replace (k <? length pixel)%nat with true by (symmetry; apply Nat.ltb_lt; lia).
      rewrite Bool.andb_true_r. now destruct (Nat.eqb k k').
Qed.

Lemma set_channel_channel {A : Type} (d : A) (k k' : nat) (dim : nat) :
  forall (a : Plane (list A)) (pl : Plane A),
    shape pl = shape a ->
    Forall (Forall (fun pixel => length pixel = dim)) a -> (k < dim)%nat ->
    Forall (Forall (fun pixel => length pixel = dim)) (set_channel k pl a) /\
    shape (set_channel k pl a) = shape a /\
    channel d k' (set_channel k pl a) = if Nat.eqb k k' then pl else channel d k' a.
Proof.
  induction a as [|row a IH]; intros [|prow pl] Hshape Hdim Hk; try discriminate.
  - simpl. repeat split; [constructor|]. now destruct (Nat.eqb k k').
  - unfold shape in Hshape. simpl in Hshape. injection Hshape as Hlen Hshape.
    inversion Hdim as [|? ? Hrow Hrest]; subst.
    destruct (IH pl Hshape Hrest Hk) as (I1 & I2 & I3).
    destruct (row_set_channel d k k' dim row prow Hlen Hrow Hk) as (R1 & R2 & R3).
    unfold set_channel in *. cbn [combine map fst snd]. split; [|split].
    + constructor; assumption.
    + unfold shape in *. simpl. now rewrite R2, I2.
    + unfold channel in *. cbn [map]. rewrite R3, I3.
      now destruct (Nat.eqb k k').
Qed.

(** The loop over the channels: each plane is replaced by the result of
    [g] on it, the other planes are not touched. *)
Lemma channels_loop (g : Plane Q -> Plane Q) (dim : nat) (F0 : Plane (list Q)) :
  (forall pl, shape (g pl) = shape pl) ->
  Forall (Forall (fun pixel => length pixel = dim)) F0 ->
  forall n, (n <= dim)%nat ->
    let F := fold_left (fun img k => set_channel k (g (channel 0%Q k img)) img)
               (seq 0 n) F0 in
    Forall (Forall (fun pixel => length pixel = dim)) F /\
    shape F = shape F0 /\
    forall k, channel 0%Q k F =
              if (k <? n)%nat then g (channel 0%Q k F0) else channel 0%Q k F0.
Proof.
  intros Hg Hdim n. induction n as [|n IH]; intros Hn F.
  - subst F. simpl. repeat split; assumption.
  - subst F. rewrite seq_S, fold_left_app. cbn [fold_left Nat.add].
    destruct (IH ltac:(lia)) as (I1 & I2 & I3).
    set (Fn := fold_left _ (seq 0 n) F0) in *.
    assert (Hs : shape (g (channel 0%Q n Fn)) = shape Fn)
      by (rewrite Hg; apply shape_channel).
    split; [|split].
    + apply (set_channel_channel 0%Q n 0 dim Fn _ Hs I1). lia.
    + rewrite <- I2. apply (set_channel_channel 0%Q n 0 dim Fn _ Hs I1). lia.
    + intros k.
      destruct (set_channel_channel 0%Q n k dim Fn _ Hs I1 ltac:(lia)) as (_ & _ & ->).
      rewrite !I3. replace (n <? n)%nat with false by (symmetry; apply Nat.ltb_ge; lia).
      destruct (Nat.eqb_spec n k) as [<-|Hne].
      * replace (n <? S n)%nat with true by (symmetry; apply Nat.ltb_lt; lia).
        reflexivity.
      * destruct (Nat.ltb_spec k n), (Nat.ltb_spec k (S n)); try reflexivity; lia.
Qed.

Lemma px_map_default {A B : Type} (f : A -> B) (d : A) (d' : B) (a : Plane A)
    (r c : nat) :
  f d = d' -> px d' (map (map f) a) r c = f (px d a r c).
Proof. intros <-. apply px_map. Qed.

Lemma px_Forall {A : Type} (P : A -> Prop) (d : A) (a : Plane A) (r c : nat) :
  Forall (Forall P) a -> P d -> P (px d a r c).
Proof.
  intros Ha Hd. unfold px.
  assert (Hrow : Forall P (nth r a [])).
  { destruct (nth_in_or_default r a []) as [Hin| ->]; [|constructor].
    rewrite Forall_forall in Ha. now apply Ha. }
  destruct (nth_in_or_default c (nth r a []) d) as [Hin| ->]; [|exact Hd].
  rewrite Forall_forall in Hrow. now apply Hrow.
Qed.

Lemma shape3_uniform {A : Type} (dim : nat) (a : Plane (list A)) :
  Forall (Forall (fun pixel => length pixel = dim)) a ->
  map (map (@length A)) a = map (repeat dim) (shape a).
Proof.
  intros H. unfold shape. rewrite map_map. apply map_ext_Forall.
  eapply Forall_impl; [|exact H]. intros row Hrow. cbv beta.
  induction Hrow as [|pixel row Hp _ IH]; simpl; [reflexivity|].
  now rewrite Hp, IH.
Qed.

(** Every plane of the result of [dither_Floyd_Steinberg] is the cast of
    the float array the loops leave for that plane of the image. *)
Lemma dither_Floyd_Steinberg_plane (img : Image) (k : nat) :
  wf_image img -> (k < channels img)%nat ->
  plane_of (Dithering.dither_Floyd_Steinberg img) k =
  plane_uint8 (Dithering.fs_loops (to_float (plane_of img k))
                 (img_height img) (img_width img)).
Proof.
  destruct img as [rows|rows]; intros Hwf Hk.
  - simpl. unfold Dithering.apply_Floyd_Steinberg. apply plane_uint8_idem.
  - destruct Hwf as [Hrect Hpix]. cbn [channels] in Hk.
    cbn [Dithering.dither_Floyd_Steinberg plane_of img_height img_width].
    unfold range. rewrite Nat.sub_0_r.
    set (dim := length (hd [] (hd [] rows))) in *.
    set (F0 := map (map (map inject_Z)) rows).
    set (g := fun pl => to_float (Dithering.apply_Floyd_Steinberg pl
                                    (height rows) (width rows))).
    destruct (channels_loop g dim F0) with (n := dim) as (_ & _ & Hch).
    + intros pl. unfold g, to_float, Dithering.apply_Floyd_Steinberg, plane_uint8.
      now rewrite !shape_map, shape_fs_loops.
    + unfold F0. apply Forall_map. eapply Forall_impl; [|exact Hpix].
      intros row Hrow. apply Forall_map. eapply Forall_impl; [|exact Hrow].
      intros pixel [Hp _]. cbv beta. now rewrite length_map.
    + lia.
    + change (fold_left _ (seq 0 dim) (map (map (map inject_Z)) rows))
        with (fold_left (fun img k => set_channel k (g (channel 0%Q k img)) img)
                (seq 0 dim) F0).
      change (channel 0 k (map (map (map astype_uint8)) ?a))
        with (channel (astype_uint8 0%Q) k (map (map (map astype_uint8)) a)).
      rewrite channel_map, Hch.
      replace (k <? dim)%nat with true by (symmetry; apply Nat.ltb_lt; lia).
      unfold g, Dithering.apply_Floyd_Steinberg.
      fold (plane_uint8 (to_float (plane_uint8
              (Dithering.fs_loops (channel 0%Q k F0) (height rows) (width rows))))).
      rewrite plane_uint8_idem. unfold F0.
      change (channel 0%Q k (map (map (map inject_Z)) rows))
        with (channel (inject_Z 0) k (map (map (map inject_Z)) rows)).
      rewrite channel_map. reflexivity.
Qed.

Lemma plane_of_wf (img : Image) (k : nat) :
  wf_image img ->
  length (plane_of img k) = img_height img /\
  rect (img_width img) (plane_of img k) /\
  forall r c, 0 <= px 0 (plane_of img k) r c <= 255.
Proof.
  destruct img as [rows|rows]; intros [Hrect Hpix]; cbn [plane_of img_height img_width].
  - split; [reflexivity|]. split; [exact Hrect|].
    intros r c. apply (px_Forall is_uint8); [exact Hpix|unfold is_uint8; lia].
  - split; [|split].
    + unfold channel, height. apply length_map.
    + apply shape_rect. rewrite shape_channel.
      unfold channel. rewrite length_map. now apply shape_rect.
    + intros r c. unfold channel.
      rewrite (px_map_default (fun pixel => nth k pixel 0) [] 0)
        by (destruct k; reflexivity).
      assert (Hp : Forall is_uint8 (px [] rows r c)).
      { apply (px_Forall (Forall is_uint8)); [|constructor].
        eapply Forall_impl; [|exact Hpix]. intros row Hrow.
        eapply Forall_impl; [|exact Hrow]. intros pixel [_ H]. exact H. }
      destruct (nth_in_or_default k (px [] rows r c) 0) as [Hin| ->].
      * rewrite Forall_forall in Hp. now apply Hp.
      * lia.
Qed.

Lemma dither_Floyd_Steinberg_shape (img : Image) :
  wf_image img -> same_shape img (Dithering.dither_Floyd_Steinberg img).
Proof.
  destruct img as [rows|rows]; intros [Hrect Hpix].
  - simpl. unfold Dithering.apply_Floyd_Steinberg, plane_uint8, to_float.
    now rewrite !shape_map, shape_fs_loops, shape_map.
  - cbn [Dithering.dither_Floyd_Steinberg same_shape].
    unfold range. rewrite Nat.sub_0_r.
    set (dim := length (hd [] (hd [] rows))) in *.
    set (F0 := map (map (map inject_Z)) rows).
    set (g := fun pl => to_float (Dithering.apply_Floyd_Steinberg pl
                                    (height rows) (width rows))).
    assert (H0 : Forall (Forall (fun pixel : list Q => length pixel = dim)) F0).
    { unfold F0. apply Forall_map. eapply Forall_impl; [|exact Hpix].
      intros row Hrow. apply Forall_map. eapply Forall_impl; [|exact Hrow].
      intros pixel [Hp _]. cbv beta. now rewrite length_map. }
    destruct (channels_loop g dim F0) with (n := dim) as (Hd & Hs & _).
    + intros pl. unfold g, to_float, Dithering.apply_Floyd_Steinberg, plane_uint8.
      now rewrite !shape_map, shape_fs_loops.
    + exact H0.
    + lia.
    + unfold g in Hd, Hs. cbv beta in Hd, Hs.
      match goal with
      | |- context [fold_left ?f (seq 0 dim) F0] =>
          set (F := fold_left f (seq 0 dim) F0) in *
      end.
      assert (E : forall (A B : Type) (f : A -> B) (a : Plane (list A)),
                 map (map (@length B)) (map (map (map f)) a) = map (map (@length A)) a).
      { intros A B f a. rewrite map_map. apply map_ext. intros row.
        rewrite map_map. apply map_ext. intros pixel. apply length_map. }
      rewrite E. rewrite (shape3_uniform dim F Hd), Hs.
      rewrite <- (shape3_uniform dim F0 H0). unfold F0. now rewrite E.
Qed.




(** An interior pixel that is 0 next to one that is rounded up holds -255
    when the loops are over. *)
Lemma floyd_steinberg_negative_interior :
  Qeq (px 0%Q (Dithering.fs_loops
                 (to_float [ [0; 0; 0; 0]; [0; 128; 0; 0]; [0; 0; 0; 0] ]) 3 4) 1 2)
      (-255)%Q.
Proof. vm_compute. reflexivity. Qed.

(** ** Ordered dithering *)

Lemma for_each_pure {A S : Type} (g : A -> S -> S) (body : A -> S -> pyresult S)
    (l : list A) (s : S) :
  (forall a s, In a l -> body a s = Ok (g a s)) ->
  for_each l body s = Ok (fold_left (fun s a => g a s) l s).
Proof.
  revert s. induction l as [|a l IH]; intros s H; simpl; [reflexivity|].
  rewrite H by now left. cbn [bind]. apply IH. intros a' s' Hin. apply H. now right.
Qed.

Lemma quantize_row_map (total : Z) (row : list Z) :
  total <> 0 ->
  Dithering.quantize_row total row =
  Ok (map (fun v => Qfloor (inject_Z v / inject_Z total * 255)) row).
Proof.
  intros Ht. induction row as [|v row IH]; simpl; [reflexivity|].
  unfold Dithering.quantize.
  replace (total =? 0) with false by (symmetry; now apply Z.eqb_neq).
  cbn [bind]. rewrite IH. reflexivity.
Qed.

Lemma quantize_matrix_map (total : Z) (m : Matrix) :
  total <> 0 ->
  Dithering.quantize_matrix total m =
  Ok (map (map (fun v => Qfloor (inject_Z v / inject_Z total * 255))) m).
Proof.
  intros Ht. induction m as [|row m IH]; simpl; [reflexivity|].
  rewrite quantize_row_map by exact Ht. cbn [bind]. rewrite IH. reflexivity.
Qed.

(** The inner loop of a pointwise update, from column [cx] on. *)
Lemma pointwise_row (f : nat -> nat -> Q -> Q) (w y : nat) (n : nat) :
  forall cx a,
    rect w a -> (y < length a)%nat -> (cx + n <= w)%nat ->
    let a' := fold_left (fun img x => plane_set y x (f y x (px 0%Q img y x)) img)
                (seq cx n) a in
    rect w a' /\ length a' = length a /\
    forall r c, px 0%Q a' r c =
                if (Nat.eqb y r && (cx <=? c) && (c <? cx + n))%nat
                then f r c (px 0%Q a r c) else px 0%Q a r c.
Proof.
  induction n as [|n IH]; intros cx a Hrect Hy Hn a'.
  - subst a'. simpl. repeat split; try assumption. intros r c.
    destruct (Nat.eqb y r), (Nat.leb_spec cx c), (Nat.ltb_spec c (cx + 0));
      cbn [andb]; try reflexivity; lia.
  - subst a'. cbn [seq fold_left].
    set (a1 := plane_set y cx (f y cx (px 0%Q a y cx)) a).
    assert (R1 : rect w a1) by now apply rect_plane_set.
    assert (L1 : length a1 = length a) by apply length_plane_set.
    destruct (IH (S cx) a1 R1 ltac:(lia) ltac:(lia)) as (R & L & P).
    split; [exact R|]. split; [lia|].
    intros r c. rewrite P. unfold a1.
    rewrite !(px_plane_set 0%Q w) by (auto; lia).
    destruct (Nat.eqb_spec y r), (Nat.eqb_spec cx c), (Nat.leb_spec (S cx) c),
      (Nat.ltb_spec c (S cx + n)), (Nat.leb_spec cx c), (Nat.ltb_spec c (cx + S n));
      cbn [andb]; subst; try reflexivity; lia.
Qed.

(** The two loops of a pointwise update. *)
Lemma pointwise_rows (f : nat -> nat -> Q -> Q) (w : nat) (m : nat) :
  forall cy a,
    rect w a -> (cy + m <= length a)%nat ->
    let a' := fold_left
                (fun img y =>
                   fold_left (fun img x => plane_set y x (f y x (px 0%Q img y x)) img)
                     (seq 0 w) img)
                (seq cy m) a in
    rect w a' /\ length a' = length a /\
    forall r c, px 0%Q a' r c =
                if ((cy <=? r) && (r <? cy + m) && (c <? w))%nat
                then f r c (px 0%Q a r c) else px 0%Q a r c.
Proof.
  induction m as [|m IH]; intros cy a Hrect Hm a'.
  - subst a'. simpl. repeat split; try assumption. intros r c.
    destruct (Nat.leb_spec cy r), (Nat.ltb_spec r (cy + 0)); cbn [andb];
      try reflexivity; lia.
  - subst a'. cbn [seq fold_left].
    destruct (pointwise_row f w cy w 0%nat a Hrect ltac:(lia) ltac:(lia))
      as (R1 & L1 & P1).
    set (a1 := fold_left _ (seq 0 w) a) in *.
    destruct (IH (S cy) a1 R1 ltac:(lia)) as (R & L & P).
    split; [exact R|]. split; [lia|].
    intros r c. rewrite P, P1.
    destruct (Nat.eqb_spec cy r), (Nat.leb_spec (S cy) r), (Nat.ltb_spec r (S cy + m)),
      (Nat.leb_spec cy r), (Nat.ltb_spec r (cy + S m)), (Nat.leb_spec 0 c),
      (Nat.ltb_spec c (0 + w)), (Nat.ltb_spec c w);
      cbn [andb]; subst; try reflexivity; lia.
Qed.

Lemma nth_combine_seq {A : Type} (l : list A) (d : A) (i : nat) :
  nth i (combine (seq 0 (length l)) l) (O, d) = (if (i <? length l)%nat then i else O, nth i l d).
Proof.
  assert (G : forall s, nth i (combine (seq s (length l)) l) (O, d) =
                        (if (i <? length l)%nat then (s + i)%nat else O, nth i l d)).
  { revert i. induction l as [|a l IH]; intros i s.
    - destruct i; reflexivity.
    - destruct i as [|i]; simpl.
      + now rewrite Nat.add_0_r.
      + rewrite IH. change (S i <? S (length l))%nat with (i <? length l)%nat.
        destruct (i <? length l)%nat; [|reflexivity]. f_equal. lia. }
  apply G.
Qed.

(** Reading the thresholded plane. *)
Lemma px_threshold_dither (t : nat -> nat -> Z) (w : nat) (rows : Plane Z) (r c : nat) :
  rect w rows -> (r < length rows)%nat -> (c < w)%nat ->
  px 0 (threshold_dither t rows) r c = if t r c <? px 0 rows r c then 255 else 0.
Proof.
  intros Hrect Hr Hc. unfold threshold_dither, px.
  set (g := fun yr : nat * list Z =>
              map (fun xv => if t (fst yr) (fst xv) <? snd xv then 255 else 0)
                (combine (seq 0 (length (snd yr))) (snd yr))).
  rewrite (nth_indep _ [] (g (O, [])))
    by (rewrite length_map, length_combine, length_seq; lia).
  rewrite (map_nth g), nth_combine_seq.
  replace (r <? length rows)%nat with true by (symmetry; apply Nat.ltb_lt; lia).
  unfold g at 1. cbn [fst snd].
  assert (Hlen : length (nth r rows []) = w) by now apply rect_nth.
  set (k := fun xv : nat * Z => if t r (fst xv) <? snd xv then 255 else 0).
  rewrite (nth_indep _ 0 (k (O, 0)))
    by (rewrite length_map, length_combine, length_seq; lia).
  rewrite (map_nth k), nth_combine_seq, Hlen.
  replace (c <? w)%nat with true by (symmetry; apply Nat.ltb_lt; lia).
  reflexivity.
Qed.

Lemma shape_threshold_dither (t : nat -> nat -> Z) (rows : Plane Z) :
  shape (threshold_dither t rows) = shape rows.
Proof.
  unfold threshold_dither, shape. rewrite map_map.
  assert (G : forall s,
             map (fun yr : nat * list Z =>
                    length (map (fun xv : nat * Z => if t (fst yr) (fst xv) <? snd xv then 255 else 0)
                              (combine (seq 0 (length (snd yr))) (snd yr))))
               (combine (seq s (length rows)) rows) = map (@length Z) rows).
  { induction rows as [|row rows IH]; intros s; simpl; [reflexivity|].
    rewrite length_map, length_combine, length_seq, Nat.min_id. f_equal. apply IH. }
  apply G.
Qed.

(** Two planes of one shape that agree at every position are equal. *)
Lemma plane_ext {A : Type} (d : A) (w : nat) (a b : Plane A) :
  rect w a -> shape a = shape b ->
  (forall r c, (r < length a)%nat -> (c < w)%nat -> px d a r c = px d b r c) ->
  a = b.
Proof.
  intros Hrect Hshape H.
  assert (Hlen : length a = length b) by now apply shape_length_eq.
  apply (nth_ext a b [] []); [exact Hlen|].
  intros r Hr.
  assert (La : length (nth r a []) = w) by now apply rect_nth.
  assert (Lb : length (nth r b []) = w).
  { assert (E : nth r (shape a) O = nth r (shape b) O) by now rewrite Hshape.
    unfold shape in E.
    rewrite (nth_indep _ O (length (@nil A))) in E by (rewrite length_map; lia).
    rewrite (nth_indep (map _ b) O (length (@nil A))) in E by (rewrite length_map; lia).
    rewrite !map_nth in E. lia. }
  apply (nth_ext _ _ d d); [lia|].
  intros c Hc. apply H; lia.
Qed.

Lemma order_lt_pow2 (order : nat) : (order < 2 ^ order)%nat.
Proof. apply Nat.pow_gt_lin_r. lia. Qed.

(** Reading the normalized matrix at natural positions. *)
Lemma getitem2_map_seq (q : Z -> Z) (f : nat -> nat -> Z) (n i j : nat) :
  (i < n)%nat -> (j < n)%nat ->
  getitem2 (map (map q) (map (fun r => map (f r) (seq 0 n)) (seq 0 n)))
    (Z.of_nat i) (Z.of_nat j) = Ok (q (f i j)).
Proof.
  intros Hi Hj. unfold getitem2.
  rewrite !length_map, length_seq, py_index_nat by lia.
  rewrite !nth_error_map, nth_error_seq.
  replace (i <? n)%nat with true by (symmetry; apply Nat.ltb_lt; lia).
  cbn [option_map]. rewrite !length_map, length_seq, py_index_nat by lia.
  rewrite !nth_error_map, nth_error_seq.
  replace (j <? n)%nat with true by (symmetry; apply Nat.ltb_lt; lia).
  reflexivity.
Qed.

Lemma Qle_bool_inject (a b : Z) : Qle_bool (inject_Z a) (inject_Z b) = (a <=? b).
Proof.
  destruct (Z.leb_spec a b) as [H|H].
  - apply Qle_bool_iff. now rewrite <- Zle_Qle.
  - destruct (Qle_bool (inject_Z a) (inject_Z b)) eqn:E; [|reflexivity].
    apply Qle_bool_iff in E. rewrite <- Zle_Qle in E. lia.
Qed.

(** C1, what the code does.  On a grayscale image, for every order from
    1 on (and a stack deeper than the order), [dither_Ordered] sets each
    pixel to 255 when it is above the normalized matrix entry at row
    [y mod order], column [x mod order], and to 0 otherwise: the tiles have
    side [order], not the side [2 ** order] of the matrix. *)
Theorem dither_Ordered_gray (order extra : nat) (rows : Plane Z) :
  (1 <= order)%nat -> rect (width rows) rows ->
  Dithering.dither_Ordered (S order + extra) (Gray rows) (Z.of_nat order) =
  Ok (Gray (threshold_dither (code_threshold order) rows)).
Proof.
  intros Ho Hrect. unfold Dithering.dither_Ordered, Dithering.pow2.
  replace (0 <=? Z.of_nat order) with true by (symmetry; apply Z.leb_le; lia).
  destruct (create_bayer_top order extra Ho) as (m0 & E). rewrite E. cbn [bind].
  cbv beta iota.
  set (n := (2 ^ order)%nat) in *.
  assert (Hn : (2 <= n)%nat).
  { subst n. destruct order as [|o]; [lia|]. rewrite Nat.pow_succ_r'.
    pose proof (pow2_pos o). lia. }
  set (M := map (fun r => map (bayer_val order r) (seq 0 n)) (seq 0 n)).
  assert (HM : exists rest, M = map (bayer_val order 0) (seq 0 n) :: rest).
  { unfold M. destruct n as [|n']; [lia|]. cbn [seq map]. eexists. reflexivity. }
  destruct HM as (rest & HM).
  assert (LM : length M = n) by (unfold M; now rewrite length_map, length_seq).
  rewrite HM at 1. cbv beta iota zeta.
  rewrite LM, length_map, length_seq.
  set (total := Z.of_nat n * Z.of_nat n - 1).
  assert (Ht : total <> 0) by (unfold total; nia).
  rewrite quantize_matrix_map by exact Ht. cbn [bind].
  set (q := fun v => Qfloor (inject_Z v / inject_Z total * 255)).
  set (f := fun (y x : nat) (v : Q) =>
              if Qle_bool v (inject_Z (code_threshold order y x)) then 0%Q else 255%Q).
  assert (Hstep : forall y x img,
             Dithering.ordered_step (Z.of_nat order) (map (map q) M) y x img =
             Ok (plane_set y x (f y x (px 0%Q img y x)) img)).
  { intros y x img. unfold Dithering.ordered_step, Dithering.py_mod.
    replace (Z.of_nat order =? 0) with false by (symmetry; apply Z.eqb_neq; lia).
    cbn [bind]. rewrite <- !Nat2Z.inj_mod.
    pose proof (order_lt_pow2 order) as Hlt. fold n in Hlt.
    assert (Hy : (y mod order < n)%nat)
      by (pose proof (Nat.mod_upper_bound y order); lia).
    assert (Hx : (x mod order < n)%nat)
      by (pose proof (Nat.mod_upper_bound x order); lia).
    unfold M. rewrite (getitem2_map_seq q (bayer_val order) n _ _ Hy Hx). cbn [bind].
    unfold f, code_threshold, normalized. fold n. fold total. fold (q (bayer_val order (y mod order) (x mod order))).
    now destruct (Qle_bool _ _). }
  unfold Dithering.apply_Ordered, range. rewrite !Nat.sub_0_r.
  rewrite (for_each_pure
             (fun y img =>
                fold_left (fun img x => plane_set y x (f y x (px 0%Q img y x)) img)
                  (seq 0 (width rows)) img)).
  2:{ intros y img _. apply for_each_pure. intros x img' _. apply Hstep. }
  cbn [bind].
  assert (Rf : rect (width rows) (to_float rows)).
  { apply shape_rect. unfold to_float. rewrite shape_map, length_map.
    now apply shape_rect. }
  destruct (pointwise_rows f (width rows) (height rows) 0%nat (to_float rows) Rf)
    as (R & L & P).
  { unfold to_float, height. rewrite length_map. lia. }
  set (image' := fold_left _ (seq 0 (height rows)) (to_float rows)) in *.
  rewrite plane_uint8_idem. do 2 f_equal.
  assert (Lr : length image' = length rows)
    by (rewrite L; unfold to_float; apply length_map).
  apply (plane_ext 0 (width rows)).
  - apply shape_rect. unfold plane_uint8. rewrite shape_map, length_map.
    now apply shape_rect.
  - rewrite shape_threshold_dither. unfold plane_uint8. rewrite shape_map.
    rewrite (proj1 (shape_rect _ _) R), (proj1 (shape_rect _ _) Hrect). now rewrite Lr.
  - intros r c Hr Hc. unfold plane_uint8 in Hr. rewrite length_map, Lr in Hr.
    rewrite (px_threshold_dither _ (width rows)) by assumption.
    unfold plane_uint8.
    rewrite (px_map_default astype_uint8 0%Q 0) by reflexivity.
    rewrite P. unfold height.
    replace (0 <=? r)%nat with true by (symmetry; apply Nat.leb_le; lia).
    replace (r <? 0 + length rows)%nat with true by (symmetry; apply Nat.ltb_lt; lia).
    replace (c <? width rows)%nat with true by (symmetry; apply Nat.ltb_lt; lia).
    cbn [andb]. unfold to_float.
    rewrite (px_map_default inject_Z 0 0%Q) by reflexivity.
    unfold f. rewrite Qle_bool_inject.
    destruct (Z.leb_spec (px 0 rows r c) (code_threshold order r c)),
      (Z.ltb_spec (code_threshold order r c) (px 0 rows r c));
      try reflexivity; lia.
Qed.

Lemma dither_Ordered_gray_witness :
  (1 <= 1)%nat /\ rect (width [ [100; 100] ]) [ [100; 100] ] /\
  Dithering.dither_Ordered (S 1 + 998) (Gray [ [100; 100] ]) (Z.of_nat 1) =
  Ok (Gray (threshold_dither (code_threshold 1) [ [100; 100] ])).
Proof.
  split; [lia|]. split; [repeat constructor|].
  apply (dither_Ordered_gray 1 998 [ [100; 100] ]); [lia | repeat constructor].
Defined.

(** The thresholds of the code and of the specification for the second
    pixel of the first row, at order 1. *)
Lemma thresholds_differ :
  code_threshold 1 0 1 = 0 /\ spec_threshold 1 0 1 = 170.
Proof. split; reflexivity. Qed.

(** * Further properties *)

(** * Further properties *)

(** ** Ordered dithering on every image *)

Lemma pow2_ge_2 (order : nat) : (1 <= order)%nat -> (2 <= 2 ^ order)%nat.
Proof.
  intros H. destruct order as [|o]; [lia|]. rewrite Nat.pow_succ_r'.
  pose proof (pow2_pos o). lia.
Qed.

(** The start of [dither_Ordered]: the matrix is built and normalized. *)
Lemma dither_Ordered_matrix (order extra : nat) (image : Image) :
  (1 <= order)%nat ->
  Dithering.dither_Ordered (S order + extra) image (Z.of_nat order) =
  match image with
  | Color rows =>
      out <- for_each (range 0 (length (hd [] (hd [] rows))))
               (fun channel_num img =>
                  ' (_, r) <- Dithering.apply_Ordered (channel 0%Q channel_num img)
                                (height rows) (width rows) (Z.of_nat order)
                                (normalized_matrix order) ;;
                  Ok (set_channel channel_num (to_float r) img))
               (map (map (map inject_Z)) rows) ;;
      Ok (Color (map (map (map astype_uint8)) out))
  | Gray rows =>
      ' (_, r) <- Dithering.apply_Ordered (to_float rows) (height rows) (width rows)
                    (Z.of_nat order) (normalized_matrix order) ;;
      Ok (Gray (plane_uint8 (to_float r)))
  end.
Proof.
  intros Ho. unfold Dithering.dither_Ordered, Dithering.pow2.
  replace (0 <=? Z.of_nat order) with true by (symmetry; apply Z.leb_le; lia).
  destruct (create_bayer_top order extra Ho) as (m0 & E). rewrite E. cbn [bind].
  cbv beta iota.
  pose proof (pow2_ge_2 order Ho) as Hn.
  set (n := (2 ^ order)%nat) in *.
  set (M := map (fun r => map (bayer_val order r) (seq 0 n)) (seq 0 n)).
  assert (HM : exists rest, M = map (bayer_val order 0) (seq 0 n) :: rest).
  { unfold M. destruct n as [|n']; [lia|]. cbn [seq map]. eexists. reflexivity. }
  destruct HM as (rest & HM).
  assert (LM : length M = n) by (unfold M; now rewrite length_map, length_seq).
  rewrite HM at 1. cbv beta iota zeta.
  rewrite LM, length_map, length_seq.
  assert (Ht : Z.of_nat n * Z.of_nat n - 1 <> 0) by nia.
  rewrite quantize_matrix_map by exact Ht. cbn [bind].
  assert (EM : map (map (fun v => Qfloor (inject_Z v / inject_Z (Z.of_nat n * Z.of_nat n - 1) * 255))) M
               = normalized_matrix order).
  { unfold M, normalized_matrix. fold n. rewrite map_map. apply map_ext. intros r.
    rewrite map_map. apply map_ext. intros c. unfold normalized. fold n. reflexivity. }
  rewrite EM. reflexivity.
Qed.

(** [apply_Ordered] never raises on the normalized matrix: its loops are
    the pure [ordered_loops]. *)
Lemma apply_Ordered_loops (order : nat) (a : Plane Q) (h w : nat) :
  (1 <= order)%nat ->
  Dithering.apply_Ordered a h w (Z.of_nat order) (normalized_matrix order) =
  Ok (ordered_loops order h w a, plane_uint8 (ordered_loops order h w a)).
Proof.
  intros Ho.
  assert (Hstep : forall y x img,
             Dithering.ordered_step (Z.of_nat order) (normalized_matrix order) y x img =
             Ok (plane_set y x (ordered_value order y x (px 0%Q img y x)) img)).
  { intros y x img. unfold Dithering.ordered_step, Dithering.py_mod.
    replace (Z.of_nat order =? 0) with false by (symmetry; apply Z.eqb_neq; lia).
    cbn [bind]. rewrite <- !Nat2Z.inj_mod.
    pose proof (order_lt_pow2 order) as Hlt.
    assert (Hy : (y mod order < 2 ^ order)%nat)
      by (pose proof (Nat.mod_upper_bound y order); lia).
    assert (Hx : (x mod order < 2 ^ order)%nat)
      by (pose proof (Nat.mod_upper_bound x order); lia).
    unfold normalized_matrix.
    rewrite <- (map_id (map (fun r => map (normalized order r) (seq 0 (2 ^ order)))
                          (seq 0 (2 ^ order)))).
    rewrite <- (map_ext (map (fun v : Z => v)) (fun l => l)) by (intros; apply map_id).
    rewrite (getitem2_map_seq (fun v => v) (normalized order) _ _ _ Hy Hx). cbn [bind].
    unfold ordered_value, code_threshold. now destruct (Qle_bool _ _). }
  unfold Dithering.apply_Ordered, range. rewrite !Nat.sub_0_r.
  rewrite (for_each_pure
             (fun y img =>
                fold_left
                  (fun img x => plane_set y x (ordered_value order y x (px 0%Q img y x)) img)
                  (seq 0 w) img)).
  2:{ intros y img _. apply for_each_pure. intros x img' _. apply Hstep. }
  reflexivity.
Qed.

Lemma shape_ordered_loops (order h w : nat) (a : Plane Q) :
  shape (ordered_loops order h w a) = shape a.
Proof.
  unfold ordered_loops. generalize (seq 0 h). intros ys. revert a.
  induction ys as [|y ys IH]; intros a; [reflexivity|].
  cbn [fold_left]. rewrite IH.
  generalize (seq 0 w). intros xs. revert a.
  induction xs as [|x xs IHx]; intros a; [reflexivity|].
  cbn [fold_left]. rewrite IHx. apply shape_plane_set.
Qed.

Lemma rect_to_float (w : nat) (pl : Plane Z) : rect w pl -> rect w (to_float pl).
Proof.
  intros H. apply shape_rect. unfold to_float. rewrite shape_map, length_map.
  now apply shape_rect.
Qed.

(** The cast of what the loops leave of a plane of samples. *)
Lemma ordered_loops_plane (order w : nat) (pl : Plane Z) :
  rect w pl ->
  plane_uint8 (ordered_loops order (length pl) w (to_float pl)) =
  threshold_dither (code_threshold order) pl.
Proof.
  intros Hrect.
  destruct (pointwise_rows (ordered_value order) w (length pl) 0%nat (to_float pl)
              (rect_to_float w pl Hrect)) as (R & L & P).
  { unfold to_float. rewrite length_map. lia. }
  fold (ordered_loops order (length pl) w (to_float pl)) in R, L, P.
  set (image' := ordered_loops order (length pl) w (to_float pl)) in *.
  assert (Lr : length image' = length pl)
    by (rewrite L; unfold to_float; apply length_map).
  apply (plane_ext 0 w).
  - apply shape_rect. unfold plane_uint8. rewrite shape_map, length_map.
    now apply shape_rect.
  - rewrite shape_threshold_dither. unfold plane_uint8. rewrite shape_map.
    rewrite (proj1 (shape_rect _ _) R), (proj1 (shape_rect _ _) Hrect). now rewrite Lr.
  - intros r c Hr Hc. unfold plane_uint8 in Hr. rewrite length_map, Lr in Hr.
    rewrite (px_threshold_dither _ w) by assumption.
    unfold plane_uint8.
    rewrite (px_map_default astype_uint8 0%Q 0) by reflexivity.
    rewrite P.
    replace (0 <=? r)%nat with true by (symmetry; apply Nat.leb_le; lia).
    replace (r <? 0 + length pl)%nat with true by (symmetry; apply Nat.ltb_lt; lia).
    replace (c <? w)%nat with true by (symmetry; apply Nat.ltb_lt; lia).
    cbn [andb]. unfold to_float.
    rewrite (px_map_default inject_Z 0 0%Q) by reflexivity.
    unfold ordered_value. rewrite Qle_bool_inject.
    destruct (Z.leb_spec (px 0 pl r c) (code_threshold order r c)),
      (Z.ltb_spec (code_threshold order r c) (px 0 pl r c));
      try reflexivity; lia.
Qed.

Lemma pixels_to_float (dim : nat) (rows : Plane (list Z)) :
  Forall (Forall (fun pixel => length pixel = dim)) rows ->
  Forall (Forall (fun pixel : list Q => length pixel = dim))
    (map (map (map inject_Z)) rows).
Proof.
  intros Hpix. apply Forall_map. eapply Forall_impl; [|exact Hpix].
  intros row Hrow. apply Forall_map. eapply Forall_impl; [|exact Hrow].
  intros pixel Hp. cbv beta. now rewrite length_map.
Qed.

Lemma shape3_map {A B : Type} (f : A -> B) (a : Plane (list A)) :
  map (map (@length B)) (map (map (map f)) a) = map (map (@length A)) a.
Proof.
  rewrite map_map. apply map_ext. intros row.
  rewrite map_map. apply map_ext. intros pixel. apply length_map.
Qed.

Lemma wf_shaped (img : Image) : wf_image img -> shaped_image img.
Proof.
  destruct img as [rows|rows]; intros [Hrect Hpix]; [exact Hrect|].
  split; [exact Hrect|]. eapply Forall_impl; [|exact Hpix]. intros row Hrow.
  eapply Forall_impl; [|exact Hrow]. intros pixel [H _]. exact H.
Qed.

Lemma plane_of_shaped (img : Image) (k : nat) :
  shaped_image img ->
  length (plane_of img k) = img_height img /\
  rect (img_width img) (plane_of img k).
Proof.
  destruct img as [rows|rows]; cbn [plane_of img_height img_width shaped_image].
  - intros Hrect. split; [reflexivity|exact Hrect].
  - intros [Hrect _]. split.
    + unfold channel, height. apply length_map.
    + apply shape_rect. rewrite shape_channel.
      unfold channel. rewrite length_map. now apply shape_rect.
Qed.

(** What [dither_Ordered] returns, plane by plane, on every image. *)
Lemma dither_Ordered_planes (order extra : nat) (img : Image) :
  shaped_image img -> (1 <= order)%nat ->
  exists out,
    Dithering.dither_Ordered (S order + extra) img (Z.of_nat order) = Ok out /\
    same_shape img out /\
    forall k, (k < channels img)%nat ->
      plane_of out k = threshold_dither (code_threshold order) (plane_of img k).
Proof.
  intros Hwf Ho. rewrite (dither_Ordered_matrix order extra img Ho).
  destruct img as [rows|rows].
  - cbn [shaped_image] in Hwf. rewrite (apply_Ordered_loops order _ _ _ Ho). cbn [bind].
    rewrite plane_uint8_idem. unfold height.
    rewrite (ordered_loops_plane order (width rows) rows Hwf).
    eexists. split; [reflexivity|]. split.
    + cbn [same_shape]. now rewrite shape_threshold_dither.
    + intros k _. reflexivity.
  - destruct Hwf as [Hrect Hpix].
    set (dim := length (hd [] (hd [] rows))) in *.
    set (F0 := map (map (map inject_Z)) rows).
    set (g := fun pl => to_float (plane_uint8
                                    (ordered_loops order (height rows) (width rows) pl))).
    assert (H0 : Forall (Forall (fun pixel : list Q => length pixel = dim)) F0)
      by now apply pixels_to_float.
    rewrite (for_each_pure (fun k img => set_channel k (g (channel 0%Q k img)) img)).
    2:{ intros k img _. rewrite (apply_Ordered_loops order _ _ _ Ho). reflexivity. }
    cbn [bind]. unfold range. rewrite Nat.sub_0_r.
    destruct (channels_loop g dim F0) with (n := dim) as (Hd & Hs & Hch).
    { intros pl. unfold g, to_float, plane_uint8.
      now rewrite !shape_map, shape_ordered_loops. }
    { exact H0. }
    { lia. }
    match goal with
    | |- context [fold_left ?f (seq 0 dim) F0] =>
        set (F := fold_left f (seq 0 dim) F0) in *
    end.
    eexists. split; [reflexivity|]. split.
    + cbn [same_shape]. rewrite shape3_map.
      rewrite (shape3_uniform dim F Hd), Hs.
      rewrite <- (shape3_uniform dim F0 H0). unfold F0. now rewrite shape3_map.
    + intros k Hk. cbn [channels] in Hk. fold dim in Hk. cbn [plane_of].
      change (channel 0 k (map (map (map astype_uint8)) F))
        with (channel (astype_uint8 0%Q) k (map (map (map astype_uint8)) F)).
      rewrite channel_map, Hch.
      replace (k <? dim)%nat with true by (symmetry; apply Nat.ltb_lt; lia).
      unfold g.
      fold (plane_uint8 (to_float (plane_uint8
              (ordered_loops order (height rows) (width rows) (channel 0%Q k F0))))).
      rewrite plane_uint8_idem. unfold F0.
      change (channel 0%Q k (map (map (map inject_Z)) rows))
        with (channel (inject_Z 0) k (map (map (map inject_Z)) rows)).
      rewrite channel_map.
      fold (to_float (channel 0 k rows)).
      destruct (plane_of_shaped (Color rows) k (conj Hrect Hpix)) as (Hlen & Hr).
      cbn [plane_of img_height img_width] in Hlen, Hr.
      rewrite <- Hlen. now apply ordered_loops_plane.
Qed.

(** ** The thresholds of the code *)

Lemma bayer_val_max (k : nat) :
  forall r c, (r < 2 ^ k)%nat -> (c < 2 ^ k)%nat ->
    bayer_val k r c = 4 ^ Z.of_nat k - 1 -> r = (2 ^ k - 1)%nat.
Proof.
  induction k as [|k IH]; intros r c Hr Hc E.
  - simpl in *. lia.
  - rewrite Nat2Z.inj_succ, Z.pow_succ_r in E by lia.
    rewrite Nat.pow_succ_r' in *. cbn [bayer_val] in E.
    pose proof (pow2_pos k) as Hpos.
    set (h := (2 ^ k)%nat) in *.
    destruct (Nat.ltb_spec r h), (Nat.ltb_spec c h);
      match type of E with
      | _ + 4 * bayer_val k ?a ?b = _ =>
          pose proof (bayer_val_range k a b) as Hb;
          try (assert (E' : bayer_val k a b = 4 ^ Z.of_nat k - 1) by lia;
               apply IH in E'; lia); lia
      end.
Qed.

(** Every threshold [apply_Ordered] meets lies in [0, 254]. *)
Lemma code_threshold_range (order y x : nat) :
  (1 <= order)%nat -> 0 <= code_threshold order y x < 255.
Proof.
  intros Ho. unfold code_threshold, normalized.
  pose proof (order_lt_pow2 order) as Hlt.
  pose proof (pow2_ge_2 order Ho) as Hn.
  set (n := (2 ^ order)%nat) in *.
  assert (Hr : (y mod order < n)%nat)
    by (pose proof (Nat.mod_upper_bound y order); lia).
  assert (Hc : (x mod order < n)%nat)
    by (pose proof (Nat.mod_upper_bound x order); lia).
  assert (H4 : 4 ^ Z.of_nat order = Z.of_nat n * Z.of_nat n).
  { subst n. rewrite Nat2Z.inj_pow. change 4 with (2 ^ 2).
    rewrite <- Z.pow_mul_r, Z.mul_comm, Z.pow_mul_r by lia.
    simpl (Z.of_nat 2). ring. }
  pose proof (bayer_val_range order (y mod order) (x mod order)) as Hv.
  assert (Hne : bayer_val order (y mod order) (x mod order) <> 4 ^ Z.of_nat order - 1).
  { intros E. apply bayer_val_max in E; try assumption.
    pose proof (Nat.mod_upper_bound y order). fold n in E. lia. }
  set (v := bayer_val order (y mod order) (x mod order)) in *.
  set (T := Z.of_nat n * Z.of_nat n - 1) in *.
  assert (HT : 0 < T) by (unfold T; nia).
  assert (HTq : (0 < inject_Z T)%Q)
    by (change 0%Q with (inject_Z 0); now rewrite <- Zlt_Qlt).
  assert (H0 : (0 <= inject_Z v / inject_Z T)%Q).
  { apply Qle_shift_div_l; [exact HTq|]. rewrite Qmult_0_l.
    change 0%Q with (inject_Z 0). rewrite <- Zle_Qle. lia. }
  assert (H1 : (inject_Z v / inject_Z T < 1)%Q).
  { apply Qlt_shift_div_r; [exact HTq|]. rewrite Qmult_1_l.
    rewrite <- Zlt_Qlt. lia. }
  set (t := (inject_Z v / inject_Z T)%Q) in *.
  split.
  - assert (E : Qfloor 0 <= Qfloor (t * 255)) by (apply Qfloor_resp_le; lra).
    exact E.
  - pose proof (Qfloor_le (t * 255)) as Hf.
    assert (Hq : (inject_Z (Qfloor (t * 255)) < inject_Z 255)%Q)
      by (change (inject_Z 255) with 255%Q; lra).
    now rewrite <- Zlt_Qlt in Hq.
Qed.

(** Thresholding a thresholded plane again changes nothing, as long as
    the thresholds lie in [0, 254]. *)
Lemma threshold_dither_idem (t : nat -> nat -> Z) (rows : Plane Z) :
  (forall y x, 0 <= t y x < 255) ->
  threshold_dither t (threshold_dither t rows) = threshold_dither t rows.
Proof.
  intros Ht. unfold threshold_dither.
  assert (G : forall s,
             map (fun yr : nat * list Z =>
                    map (fun xv : nat * Z => if t (fst yr) (fst xv) <? snd xv then 255 else 0)
                      (combine (seq 0 (length (snd yr))) (snd yr)))
               (combine (seq s (length
                  (map (fun yr : nat * list Z =>
                     map (fun xv : nat * Z => if t (fst yr) (fst xv) <? snd xv then 255 else 0)
                       (combine (seq 0 (length (snd yr))) (snd yr)))
                     (combine (seq s (length rows)) rows))))
                  (map (fun yr : nat * list Z =>
                     map (fun xv : nat * Z => if t (fst yr) (fst xv) <? snd xv then 255 else 0)
                       (combine (seq 0 (length (snd yr))) (snd yr)))
                     (combine (seq s (length rows)) rows))) =
             map (fun yr : nat * list Z =>
                    map (fun xv : nat * Z => if t (fst yr) (fst xv) <? snd xv then 255 else 0)
                      (combine (seq 0 (length (snd yr))) (snd yr)))
               (combine (seq s (length rows)) rows)).
  { induction rows as [|row rows IH]; intros s; [reflexivity|].
    cbn [length combine seq map fst snd]. f_equal.
    - rewrite length_map, length_combine, length_seq, Nat.min_id.
      generalize 0%nat. induction row as [|v row IHr]; intros s0; [reflexivity|].
      cbn [length combine seq map fst snd]. f_equal.
      + specialize (Ht s s0).
        destruct (Z.ltb_spec (t s s0) v);
          [destruct (Z.ltb_spec (t s s0) 255) | destruct (Z.ltb_spec (t s s0) 0)];
          try reflexivity; lia.
      + apply IHr.
    - specialize (IH (S s)). cbn [length] in IH.
      rewrite length_map, length_combine, length_seq, Nat.min_id in IH |- *.
      exact IH. }
  apply G.
Qed.

(** ** Images as their planes *)

Lemma width_shape {A : Type} (a : Plane A) : width a = hd O (shape a).
Proof. destruct a; reflexivity. Qed.

Lemma rect_shape_eq {A B : Type} (w : nat) (a : Plane A) (b : Plane B) :
  rect w a -> shape a = shape b -> rect w b.
Proof.
  intros Hr Hs. apply shape_rect. rewrite <- Hs, <- (shape_length_eq a b Hs).
  now apply shape_rect.
Qed.

Lemma shape3_shape {A B : Type} (a : Plane (list A)) (b : Plane (list B)) :
  map (map (@length A)) a = map (map (@length B)) b -> shape a = shape b.
Proof.
  intros H. unfold shape.
  assert (E : forall (C : Type) (x : Plane (list C)),
             map (@length (list C)) x = map (@length nat) (map (map (@length C)) x)).
  { intros C x. rewrite map_map. apply map_ext. intros row. now rewrite length_map. }
  now rewrite (E A a), (E B b), H.
Qed.

Lemma dim_shape3 {A : Type} (a : Plane (list A)) :
  length (hd [] (hd [] a)) = hd O (hd [] (map (map (@length A)) a)).
Proof. destruct a as [|[|p row] a]; reflexivity. Qed.

Lemma pixels_shape3 {A B : Type} (dim : nat) (a : Plane (list A)) (b : Plane (list B)) :
  map (map (@length A)) a = map (map (@length B)) b ->
  Forall (Forall (fun pixel => length pixel = dim)) a ->
  Forall (Forall (fun pixel => length pixel = dim)) b.
Proof.
  revert b. induction a as [|row a IH]; intros [|row' b] E H; try discriminate;
    constructor; simpl in E; injection E as E1 E2; inversion H as [|? ? Hrow Hrest]; subst.
  - clear - E1 Hrow. revert row' E1.
    induction Hrow as [|p row Hp _ IHr]; intros [|p' row'] E1; try discriminate;
      constructor; simpl in E1; injection E1 as E0 E1.
    + congruence.
    + now apply IHr.
  - now apply IH.
Qed.

Lemma same_shape_shaped (a b : Image) :
  shaped_image a -> same_shape a b ->
  shaped_image b /\ channels b = channels a /\
  img_height b = img_height a /\ img_width b = img_width a.
Proof.
  destruct a as [x|x], b as [y|y]; cbn [same_shape]; try contradiction; intros Ha Hs.
  - cbn [shaped_image channels img_height img_width] in *.
    assert (Hw : width y = width x) by now rewrite !width_shape, Hs.
    split; [|split; [reflexivity|split; [|exact Hw]]].
    + rewrite Hw. now apply (rect_shape_eq _ x).
    + unfold height. symmetry. now apply shape_length_eq.
  - destruct Ha as [Hrect Hpix]. cbn [shaped_image channels img_height img_width].
    pose proof (shape3_shape x y Hs) as Hs2.
    assert (Hw : width y = width x) by now rewrite !width_shape, Hs2.
    assert (Hd : length (hd [] (hd [] y)) = length (hd [] (hd [] x)))
      by now rewrite !dim_shape3, Hs.
    split; [split|split; [exact Hd|split; [|exact Hw]]].
    + rewrite Hw. now apply (rect_shape_eq _ x).
    + rewrite Hd. now apply (pixels_shape3 _ x).
    + unfold height. symmetry. now apply shape_length_eq.
Qed.

Lemma same_shape_trans (a b c : Image) :
  same_shape a b -> same_shape b c -> same_shape a c.
Proof.
  destruct a, b, c; cbn [same_shape]; try contradiction; congruence.
Qed.

Lemma row_channels_ext (dim : nat) :
  forall row row' : list (list Z),
    map (@length Z) row = map (@length Z) row' ->
    Forall (fun pixel => length pixel = dim) row ->
    (forall k, (k < dim)%nat ->
       map (fun pixel => nth k pixel 0) row = map (fun pixel => nth k pixel 0) row') ->
    row = row'.
Proof.
  induction row as [|p row IH]; intros [|p' row'] Hs Hd Hk; try discriminate;
    [reflexivity|].
  simpl in Hs. injection Hs as Hp Hs. inversion Hd as [|? ? Hlen Hrest]; subst.
  f_equal.
  - apply (nth_ext p p' 0 0 Hp). intros k Hlt.
    specialize (Hk k Hlt). simpl in Hk. now injection Hk.
  - apply IH; try assumption. intros k Hlt.
    specialize (Hk k Hlt). simpl in Hk. now injection Hk.
Qed.

Lemma color_ext (dim : nat) :
  forall a b : Plane (list Z),
    map (map (@length Z)) a = map (map (@length Z)) b ->
    Forall (Forall (fun pixel => length pixel = dim)) a ->
    (forall k, (k < dim)%nat -> channel 0 k a = channel 0 k b) ->
    a = b.
Proof.
  induction a as [|row a IH]; intros [|row' b] Hs Hd Hk; try discriminate;
    [reflexivity|].
  simpl in Hs. injection Hs as Hr Hs. inversion Hd as [|? ? Hrow Hrest]; subst.
  f_equal.
  - apply (row_channels_ext dim); try assumption. intros k Hlt.
    specialize (Hk k Hlt). unfold channel in Hk. simpl in Hk. now injection Hk.
  - apply IH; try assumption. intros k Hlt.
    specialize (Hk k Hlt). unfold channel in Hk. simpl in Hk. now injection Hk.
Qed.

(** Two images of one shape with the same planes are the same image. *)
Lemma image_ext (a b : Image) :
  shaped_image a -> same_shape a b ->
  (forall k, (k < channels a)%nat -> plane_of a k = plane_of b k) ->
  a = b.
Proof.
  destruct a as [x|x], b as [y|y]; cbn [same_shape]; try contradiction; intros Ha Hs Hk.
  - f_equal. apply (Hk O). simpl. lia.
  - f_equal. destruct Ha as [_ Hpix].
    apply (color_ext (length (hd [] (hd [] x)))); assumption.
Qed.

(** X1. On every image, grayscale or colour, and for every order from 1
    on (and a stack deeper than the order), [dither_Ordered] returns an
    image of the same shape in which every sample is 255 or 0: 255 where
    the sample of the image is above the threshold of the code at its
    position, 0 elsewhere; the channels are thresholded one by one against
    the same matrix. *)
Theorem dither_Ordered_samples (order extra : nat) (img : Image) (k r c : nat) :
  shaped_image img -> (1 <= order)%nat ->
  (k < channels img)%nat -> (r < img_height img)%nat -> (c < img_width img)%nat ->
  exists out,
    Dithering.dither_Ordered (S order + extra) img (Z.of_nat order) = Ok out /\
    same_shape img out /\
    px 0 (plane_of out k) r c =
      (if code_threshold order r c <? px 0 (plane_of img k) r c then 255 else 0).
Proof.
  intros Hs Ho Hk Hr Hc.
  destruct (dither_Ordered_planes order extra img Hs Ho) as (out & E & Hsh & Hpl).
  exists out. split; [exact E|]. split; [exact Hsh|].
  rewrite (Hpl k Hk).
  destruct (plane_of_shaped img k Hs) as (Hlen & Hrect).
  apply (px_threshold_dither _ (img_width img)); try assumption. lia.
Qed.

Lemma dither_Ordered_samples_witness :
  shaped_image color_1x2 /\
  (1 <= 2)%nat /\ (1 < channels color_1x2)%nat /\
  (0 < img_height color_1x2)%nat /\
  (1 < img_width color_1x2)%nat /\
  exists out,
    Dithering.dither_Ordered (S 2 + 997) color_1x2
      (Z.of_nat 2) = Ok out /\
    same_shape color_1x2 out /\
    px 0 (plane_of out 1) 0 1 =
      (if code_threshold 2 0 1 <? px 0 (plane_of color_1x2 1) 0 1
       then 255 else 0).
Proof.
  assert (Hs : shaped_image color_1x2)
    by (split; repeat constructor).
  split; [exact Hs|]. split; [lia|].
  split; [vm_compute; lia|]. split; [vm_compute; lia|]. split; [vm_compute; lia|].
  apply (dither_Ordered_samples 2 997 color_1x2 1 0 1 Hs);
    vm_compute; lia.
Defined.

(** X2. Ordered dithering is idempotent: dithering the result again, with
    the same order, returns it unchanged. *)
Theorem dither_Ordered_idempotent (order extra : nat) (img : Image) :
  shaped_image img -> (1 <= order)%nat ->
  exists out,
    Dithering.dither_Ordered (S order + extra) img (Z.of_nat order) = Ok out /\
    Dithering.dither_Ordered (S order + extra) out (Z.of_nat order) = Ok out.
Proof.
  intros Hs Ho.
  destruct (dither_Ordered_planes order extra img Hs Ho) as (out & E & Hsh & Hpl).
  destruct (same_shape_shaped img out Hs Hsh) as (Hso & Hch & _ & _).
  destruct (dither_Ordered_planes order extra out Hso Ho) as (out2 & E2 & Hsh2 & Hpl2).
  exists out. split; [exact E|]. rewrite E2. f_equal. symmetry.
  apply image_ext; try assumption.
  intros k Hk. rewrite (Hpl2 k Hk). rewrite Hch in Hk. rewrite (Hpl k Hk).
  symmetry. apply threshold_dither_idem. intros y x.
  now apply code_threshold_range.
Qed.

Lemma dither_Ordered_idempotent_witness :
  shaped_image gray_2x2 /\ (1 <= 1)%nat /\
  exists out,
    Dithering.dither_Ordered (S 1 + 998) gray_2x2 (Z.of_nat 1)
      = Ok out /\
    Dithering.dither_Ordered (S 1 + 998) out (Z.of_nat 1) = Ok out.
Proof.
  assert (Hs : shaped_image gray_2x2) by (repeat constructor).
  split; [exact Hs|]. split; [lia|].
  apply (dither_Ordered_idempotent 1 998 gray_2x2 Hs). lia.
Defined.

(** X3. An order of 0 or below is an error for every image: at order 0
    [create_bayer] takes its [size == 1] path and returns [None], whose
    length [dither_Ordered] asks for; below 0, [2 ** order] is a float that
    [range] refuses.  Either way the call raises [TypeError]. *)
Theorem dither_Ordered_order_nonpositive (depth : nat) (image : Image) (order : Z) :
  order <= 0 ->
  Dithering.dither_Ordered (S depth) image order = Raise TypeError.
Proof.
  intros Ho. unfold Dithering.dither_Ordered, Dithering.pow2.
  destruct (Z.leb_spec 0 order) as [H|H].
  - assert (order = 0) by lia. subst order. reflexivity.
  - reflexivity.
Qed.

Lemma dither_Ordered_order_nonpositive_witness :
  -3 <= 0 /\ Dithering.dither_Ordered (S 999) gray_128 (-3) = Raise TypeError.
Proof.
  split; [lia | apply (dither_Ordered_order_nonpositive 999 gray_128 (-3)); lia].
Defined.

(** ** Error diffusion without errors *)

Lemma plane_of_uint8 (img : Image) (k : nat) :
  wf_image img -> Forall (Forall is_uint8) (plane_of img k).
Proof.
  destruct img as [rows|rows]; intros [_ Hpix]; cbn [plane_of]; [exact Hpix|].
  unfold channel. apply Forall_map. eapply Forall_impl; [|exact Hpix].
  intros row Hrow. apply Forall_map. eapply Forall_impl; [|exact Hrow].
  intros pixel [_ Hp]. cbv beta.
  destruct (nth_in_or_default k pixel 0) as [Hin| ->].
  - rewrite Forall_forall in Hp. now apply Hp.
  - unfold is_uint8. lia.
Qed.

(** Casting 8-bit samples to float and back gives them back. *)
Lemma plane_uint8_to_float (pl : Plane Z) :
  Forall (Forall is_uint8) pl -> plane_uint8 (to_float pl) = pl.
Proof.
  intros H. unfold plane_uint8, to_float. rewrite map_map.
  rewrite <- (map_id pl) at 2. apply map_ext_Forall.
  eapply Forall_impl; [|exact H]. intros row Hrow. cbv beta.
  rewrite map_map. rewrite <- (map_id row) at 2. apply map_ext_Forall.
  eapply Forall_impl; [|exact Hrow]. intros v Hv. cbv beta.
  rewrite astype_uint8_inject. apply Z.mod_small. unfold is_uint8 in Hv. lia.
Qed.

Lemma fs_loops_thin (a : Plane Q) (h w : nat) :
  (h <= 2 \/ w <= 2)%nat -> Dithering.fs_loops a h w = a.
Proof.
  intros H. unfold Dithering.fs_loops, range.
  destruct (Nat.le_gt_cases h 2) as [Hh|Hh].
  - replace (h - 1 - 1)%nat with 0%nat by lia. reflexivity.
  - replace (w - 1 - 1)%nat with 0%nat by lia. cbn [seq fold_left].
    generalize (seq 1 (h - 1 - 1)). intros ys.
    induction ys as [|y ys IH]; [reflexivity|exact IH].
Qed.

(** X4. An image with at most two rows or at most two columns has no
    pixel inside its border: [dither_Floyd_Steinberg] returns it as it
    is. *)
Theorem floyd_steinberg_thin (img : Image) :
  wf_image img ->
  (img_height img <= 2 \/ img_width img <= 2)%nat ->
  Dithering.dither_Floyd_Steinberg img = img.
Proof.
  intros Hwf Hthin. symmetry. apply image_ext.
  - now apply wf_shaped.
  - now apply dither_Floyd_Steinberg_shape.
  - intros k Hk. rewrite (dither_Floyd_Steinberg_plane img k Hwf Hk).
    rewrite fs_loops_thin by exact Hthin.
    symmetry. apply plane_uint8_to_float. now apply plane_of_uint8.
Qed.

Lemma floyd_steinberg_thin_witness :
  wf_image gray_2x2 /\
  (img_height gray_2x2 <= 2 \/ img_width gray_2x2 <= 2)%nat /\
  Dithering.dither_Floyd_Steinberg gray_2x2 = gray_2x2.
Proof.
  assert (Hwf : wf_image gray_2x2)
    by (split; repeat constructor; unfold is_uint8; lia).
  split; [exact Hwf|]. split; [left; vm_compute; lia|].
  apply (floyd_steinberg_thin gray_2x2 Hwf). left. vm_compute. lia.
Defined.

(** The scan of [apply_Floyd_Steinberg] keeps every property that a
    visit keeps and that depends on the scan position through the set of
    visited pixels only. *)
Lemma fs_scan (h w : nat) (P : nat -> nat -> Plane Q -> Prop) :
  (forall cy cx a, interior h w cy cx = true ->
     P cy cx a -> P cy (cx + 1)%nat (Dithering.fs_step cy cx a)) ->
  (forall cy cx cy' cx' a,
     (forall r c, visited h w cy cx r c = visited h w cy' cx' r c) ->
     P cy cx a -> P cy' cx' a) ->
  forall a, P 1%nat 1%nat a ->
            P (1 + (h - 1 - 1))%nat 1%nat (Dithering.fs_loops a h w).
Proof.
  intros Hstep Hext.
  assert (Hrow : forall cy n cx a,
             (1 <= cy)%nat -> (cy + 1 < h)%nat -> (1 <= cx)%nat -> (cx + n + 1 <= w)%nat ->
             P cy cx a ->
             P cy (cx + n)%nat
               (fold_left (fun img x => Dithering.fs_step cy x img) (seq cx n) a)).
  { intros cy n. induction n as [|n IH]; intros cx a Hy1 Hy2 Hx1 Hx2 HP.
    - simpl. now rewrite Nat.add_0_r.
    - cbn [seq fold_left]. replace (cx + S n)%nat with (S cx + n)%nat by lia.
      apply IH; try lia. replace (S cx) with (cx + 1)%nat by lia.
      apply Hstep; [|exact HP]. apply interior_spec. lia. }
  assert (Hrows : forall m cy a,
             (1 <= cy)%nat -> (cy + m + 1 <= h \/ m = 0)%nat ->
             P cy 1%nat a ->
             P (cy + m)%nat 1%nat
               (fold_left
                  (fun img y =>
                     fold_left (fun img x => Dithering.fs_step y x img)
                       (range 1 (w - 1)) img)
                  (seq cy m) a)).
  { induction m as [|m IH]; intros cy a Hy1 Hy2 HP.
    - simpl. now rewrite Nat.add_0_r.
    - cbn [seq fold_left]. replace (cy + S m)%nat with (S cy + m)%nat by lia.
      apply IH; try lia. unfold range.
      apply (Hext cy (1 + (w - 1 - 1))%nat).
      + intros r c.
        destruct (visited h w cy (1 + (w - 1 - 1)) r c) eqn:E1,
          (visited h w (S cy) 1 r c) eqn:E2; try reflexivity.
        * apply visited_spec in E1.
          assert (~ ((1 <= r /\ r + 1 < h /\ 1 <= c /\ c + 1 < w) /\
                     (r < S cy \/ r = S cy /\ c < 1))%nat)
            by (rewrite <- visited_spec; congruence).
          lia.
        * apply visited_spec in E2.
          assert (~ ((1 <= r /\ r + 1 < h /\ 1 <= c /\ c + 1 < w) /\
                     (r < cy \/ r = cy /\ c < 1 + (w - 1 - 1)))%nat)
            by (rewrite <- visited_spec; congruence).
          lia.
      + destruct (Nat.le_gt_cases w 1) as [Hw|Hw].
        * replace (w - 1 - 1)%nat with 0%nat by lia. cbn [seq fold_left].
          now rewrite Nat.add_0_r.
        * apply Hrow; try lia. exact HP. }
  intros a HP. unfold Dithering.fs_loops, range at 1.
  apply Hrows; [lia|lia|exact HP].
Qed.

Lemma fs_plain_ext (orig : Plane Z) (h w cy cx cy' cx' : nat) (a : Plane Q) :
  (forall r c, visited h w cy cx r c = visited h w cy' cx' r c) ->
  fs_plain orig h w cy cx a -> fs_plain orig h w cy' cx' a.
Proof.
  intros E (Hlen & Hrect & Hpx). split; [exact Hlen|]. split; [exact Hrect|].
  intros r c Hr Hc. rewrite <- E. now apply Hpx.
Qed.

(** A pixel that holds an original value below 128, or 255, sends no
    error on. *)
Lemma fs_no_error (old : Q) (o : Z) :
  (old == inject_Z o)%Q -> 0 <= o -> (o < 128 \/ o = 255) ->
  (fs_err old == 0)%Q /\ (fs_new old == if o =? 255 then 255 else 0)%Q.
Proof.
  intros E H0 Ho.
  assert (Hq : (0 <= old /\ (old < 128 \/ old == 255))%Q).
  { rewrite E. split.
    - change 0%Q with (inject_Z 0). now rewrite <- Zle_Qle.
    - destruct Ho as [Ho| ->]; [left|right; reflexivity].
      change 128%Q with (inject_Z 128). now rewrite <- Zlt_Qlt. }
  destruct Hq as [Hq0 Hq].
  assert (Hb : (-128 <= old /\ old <= 255)%Q) by (destruct Hq; lra).
  destruct (fs_new_cases old (proj1 Hb) (proj2 Hb)) as [[Hn Hc]|[[Hn Hc]|[Hn Hc]]].
  - assert (Ho' : o = 255).
    { destruct Ho as [Ho|Ho]; [|exact Ho]. exfalso.
      assert (inject_Z o < 128)%Q
        by (change 128%Q with (inject_Z 128); now rewrite <- Zlt_Qlt).
      lra. }
    subst o. cbn [Z.eqb Pos.eqb]. split; [|exact Hn].
    unfold fs_err.
    destruct (py_min_cases (old - fs_new old) 0) as [[Hle ->]|[Hlt ->]]; lra.
  - assert (Ho' : o <> 255).
    { intros ->. change (inject_Z 255) with 255%Q in E. lra. }
    replace (o =? 255) with false by (symmetry; now apply Z.eqb_neq).
    split; [|exact Hn].
    unfold fs_err.
    destruct (py_min_cases (old - fs_new old) 0) as [[Hle ->]|[Hlt ->]]; lra.
  - lra.
Qed.

Lemma fs_plain_step (orig : Plane Z) (h w cy cx : nat) (a : Plane Q) :
  (forall r c, interior h w r c = true ->
     0 <= px 0 orig r c /\ (px 0 orig r c < 128 \/ px 0 orig r c = 255)) ->
  interior h w cy cx = true ->
  fs_plain orig h w cy cx a ->
  fs_plain orig h w cy (cx + 1) (Dithering.fs_step cy cx a).
Proof.
  intros Horig Hint (Hlen & Hrect & Hpx).
  pose proof (proj1 (interior_spec _ _ _ _) Hint) as (Hy1 & Hy2 & Hx1 & Hx2).
  split; [now rewrite length_fs_step|]. split; [now apply rect_fs_step|].
  intros r c Hr Hc.
  rewrite (px_fs_step w) by (auto; lia). cbv zeta.
  pose proof (Hpx cy cx ltac:(lia) ltac:(lia)) as Hold.
  rewrite (visited_later h w cy cx cy cx) in Hold by lia.
  destruct (Horig cy cx Hint) as [Ho0 Ho].
  destruct (fs_no_error _ _ Hold Ho0 Ho) as [He Hn].
  pose proof (Hpx r c Hr Hc) as Hrc.
  pose proof (visited_later h w cy cx) as Hnv.
  rewrite (visited_step h w cy cx) by exact Hint.
  set (e := fs_err (px 0%Q a cy cx)) in *.
  set (v := px 0%Q a r c) in *.
  change (1 / 16)%Q with (1 # 16)%Q. change (5 / 16)%Q with (5 # 16)%Q.
  change (3 / 16)%Q with (3 # 16)%Q. change (7 / 16)%Q with (7 # 16)%Q.
  revert Hrc.
  split_eqb; subst; cbn [orb andb];
    try (rewrite (Hnv _ _) by lia; cbn [orb]; intros Hrc; rewrite Hrc, He; ring);
    try (rewrite (Hnv _ _) by lia; cbn [orb]; intros _; exact Hn);
    rewrite Bool.orb_false_r; intros Hrc; exact Hrc.
Qed.

Lemma fs_plain_init (orig : Plane Z) (w : nat) :
  rect w orig -> fs_plain orig (length orig) w 1 1 (to_float orig).
Proof.
  intros Hrect. split; [|split].
  - unfold to_float. apply length_map.
  - now apply rect_to_float.
  - intros r c Hr Hc.
    assert (V : visited (length orig) w 1 1 r c = false).
    { destruct (visited _ w 1 1 r c) eqn:E; [|reflexivity].
      apply visited_spec in E. lia. }
    rewrite V. unfold to_float.
    rewrite (px_map_default inject_Z 0 0%Q) by reflexivity. reflexivity.
Qed.

(** One plane without a midtone inside its border: the loops and the cast
    threshold the inside and keep the border. *)
Lemma fs_plane_plain (orig : Plane Z) (w r c : nat) :
  rect w orig -> (forall r c, 0 <= px 0 orig r c <= 255) ->
  (forall r c, interior (length orig) w r c = true ->
     px 0 orig r c < 128 \/ px 0 orig r c = 255) ->
  (r < length orig)%nat -> (c < w)%nat ->
  px 0 (plane_uint8 (Dithering.fs_loops (to_float orig) (length orig) w)) r c =
  if interior (length orig) w r c
  then (if px 0 orig r c =? 255 then 255 else 0)
  else px 0 orig r c.
Proof.
  intros Hrect Hu Hno Hr Hc.
  set (h := length orig) in *.
  assert (Horig : forall r c, interior h w r c = true ->
                    0 <= px 0 orig r c /\
                    (px 0 orig r c < 128 \/ px 0 orig r c = 255)).
  { intros r' c' Hi. split; [apply Hu|now apply Hno]. }
  assert (Hfin : fs_plain orig h w (1 + (h - 1 - 1)) 1
                   (Dithering.fs_loops (to_float orig) h w)).
  { apply (fs_scan h w (fun cy cx a => fs_plain orig h w cy cx a)).
    - intros cy cx a Hint HP. now apply fs_plain_step.
    - intros cy cx cy' cx' a E HP. now apply (fs_plain_ext orig h w cy cx).
    - now apply fs_plain_init. }
  destruct Hfin as (_ & _ & Hpx). specialize (Hpx r c Hr Hc).
  unfold plane_uint8. rewrite (px_map_default astype_uint8 0%Q 0) by reflexivity.
  assert (V : visited h w (1 + (h - 1 - 1)) 1 r c = interior h w r c).
  { destruct (interior h w r c) eqn:Ei.
    - apply visited_spec. apply interior_spec in Ei. lia.
    - unfold visited. now rewrite Ei. }
  rewrite V in Hpx. destruct (interior h w r c).
  - destruct (px 0 orig r c =? 255).
    + now rewrite (astype_uint8_eq _ 255 Hpx).
    + now rewrite (astype_uint8_eq _ 0 Hpx).
  - rewrite (astype_uint8_eq _ _ Hpx). apply Z.mod_small.
    pose proof (Hu r c). lia.
Qed.

(** X5. On an image with no sample in [128, 254] inside its border no
    quantization error arises, and [dither_Floyd_Steinberg] is a plain
    threshold: a pixel inside the border comes out as 255 when it is 255
    and as 0 otherwise, and every pixel of the border keeps its value. *)
Theorem floyd_steinberg_no_midtone (img : Image) (k r c : nat) :
  wf_image img -> no_midtone img ->
  (k < channels img)%nat -> (r < img_height img)%nat -> (c < img_width img)%nat ->
  px 0 (plane_of (Dithering.dither_Floyd_Steinberg img) k) r c =
  if interior (img_height img) (img_width img) r c
  then (if px 0 (plane_of img k) r c =? 255 then 255 else 0)
  else px 0 (plane_of img k) r c.
Proof.
  intros Hwf Hno Hk Hr Hc.
  rewrite (dither_Floyd_Steinberg_plane img k Hwf Hk).
  destruct (plane_of_wf img k Hwf) as (Hlen & Hrect & Hu).
  rewrite <- Hlen in *. apply fs_plane_plain; try assumption.
  intros r' c' Hi. apply Hno. now rewrite <- Hlen.
Qed.

Lemma floyd_steinberg_no_midtone_witness :
  wf_image gray_dark /\ no_midtone gray_dark /\
  (0 < channels gray_dark)%nat /\ (1 < img_height gray_dark)%nat /\
  (1 < img_width gray_dark)%nat /\
  px 0 (plane_of (Dithering.dither_Floyd_Steinberg gray_dark) 0) 1 1 =
  if interior (img_height gray_dark) (img_width gray_dark) 1 1
  then (if px 0 (plane_of gray_dark 0) 1 1 =? 255 then 255 else 0)
  else px 0 (plane_of gray_dark 0) 1 1.
Proof.
  assert (Hwf : wf_image gray_dark)
    by (split; repeat constructor; unfold is_uint8; lia).
  assert (Hno : no_midtone gray_dark).
  { intros k r c Hi. apply interior_spec in Hi.
    change (img_height gray_dark) with 3%nat in Hi.
    change (img_width gray_dark) with 3%nat in Hi.
    assert (r = 1%nat) by lia. assert (c = 1%nat) by lia. subst.
    left. vm_compute. reflexivity. }
  split; [exact Hwf|]. split; [exact Hno|].
  split; [vm_compute; lia|]. split; [vm_compute; lia|]. split; [vm_compute; lia|].
  apply (floyd_steinberg_no_midtone gray_dark 0 1 1 Hwf Hno); vm_compute; lia.
Defined.





(** X7. For every order from 1 on, [dither_Ordered] keeps black and
    white: every threshold of the code lies in [0, 254], so a sample of 0
    comes out as 0 and a sample of 255 as 255, at every position and in
    every channel. *)
Theorem dither_Ordered_black_white (order extra : nat) (img : Image) (k r c : nat) :
  shaped_image img -> (1 <= order)%nat ->
  (k < channels img)%nat -> (r < img_height img)%nat -> (c < img_width img)%nat ->
  exists out,
    Dithering.dither_Ordered (S order + extra) img (Z.of_nat order) = Ok out /\
    (px 0 (plane_of img k) r c = 0 -> px 0 (plane_of out k) r c = 0) /\
    (px 0 (plane_of img k) r c = 255 -> px 0 (plane_of out k) r c = 255).
Proof.
  intros Hs Ho Hk Hr Hc.
  destruct (dither_Ordered_planes order extra img Hs Ho) as (out & E & Hsh & Hpl).
  exists out. split; [exact E|].
  rewrite (Hpl k Hk).
  destruct (plane_of_shaped img k Hs) as (Hlen & Hrect).
  rewrite (px_threshold_dither _ (img_width img)) by (try assumption; lia).
  pose proof (code_threshold_range order r c Ho) as Ht.
  split; intros ->.
  - destruct (Z.ltb_spec (code_threshold order r c) 0); [lia|reflexivity].
  - destruct (Z.ltb_spec (code_threshold order r c) 255); [reflexivity|lia].
Qed.

Lemma dither_Ordered_black_white_witness :
  shaped_image color_1x2 /\ (1 <= 3)%nat /\
  (1 < channels color_1x2)%nat /\ (0 < img_height color_1x2)%nat /\
  (1 < img_width color_1x2)%nat /\
  exists out,
    Dithering.dither_Ordered (S 3 + 996) color_1x2 (Z.of_nat 3) = Ok out /\
    (px 0 (plane_of color_1x2 1) 0 1 = 0 -> px 0 (plane_of out 1) 0 1 = 0) /\
    (px 0 (plane_of color_1x2 1) 0 1 = 255 -> px 0 (plane_of out 1) 0 1 = 255).
Proof.
  assert (Hs : shaped_image color_1x2) by (split; repeat constructor).
  split; [exact Hs|]. split; [lia|].
  split; [vm_compute; lia|]. split; [vm_compute; lia|]. split; [vm_compute; lia|].
  apply (dither_Ordered_black_white 3 996 color_1x2 1 0 1 Hs);
    try (vm_compute; lia); lia.
Defined.

(** ** The blocks of the Bayer matrix *)

Lemma cell_map_seq (f : nat -> nat -> Z) (n r c : nat) :
  (r < n)%nat -> (c < n)%nat ->
  cell (map (fun r => map (f r) (seq 0 n)) (seq 0 n)) r c = Some (f r c).
Proof.
  intros Hr Hc. unfold cell.
  rewrite nth_error_map, nth_error_seq.
  destruct (Nat.ltb_spec r n); [|lia]. cbn [option_map].
  rewrite nth_error_map, nth_error_seq.
  destruct (Nat.ltb_spec c n); [|lia]. reflexivity.
Qed.

(** X8. The matrix [build] returns for the side [2 ** (k + 1)] is made
    of four blocks, each four times the matrix of side [2 ** k] plus the
    number of the block: 0 top left, 2 top right, 3 bottom left, 1 bottom
    right. *)
Theorem build_blocks (k extra : nat) :
  (1 <= k)%nat ->
  exists small big,
    Dithering.build (S k + extra) (2 ^ Z.of_nat k) = Ok (Some small) /\
    Dithering.build (S (S k) + extra) (2 ^ Z.of_nat (S k)) = Ok (Some big) /\
    forall r c, (r < 2 ^ k)%nat -> (c < 2 ^ k)%nat ->
      exists v,
        cell small r c = Some v /\
        cell big r c = Some (4 * v) /\
        cell big r (c + 2 ^ k) = Some (4 * v + 2) /\
        cell big (r + 2 ^ k) c = Some (4 * v + 3) /\
        cell big (r + 2 ^ k) (c + 2 ^ k) = Some (4 * v + 1).
Proof.
  intros Hk.
  destruct (create_bayer_top k extra Hk) as (m0 & E0).
  destruct (create_bayer_top (S k) extra ltac:(lia)) as (m1 & E1).
  eexists. eexists. split; [|split].
  - unfold Dithering.build. rewrite E0. reflexivity.
  - unfold Dithering.build. rewrite E1. reflexivity.
  - intros r c Hr Hc. exists (bayer_val k r c).
    assert (H2 : (2 ^ S k = 2 ^ k + 2 ^ k)%nat) by (cbn [Nat.pow]; lia).
    rewrite !cell_map_seq by lia.
    cbn [bayer_val]. cbv zeta.
    destruct (Nat.ltb_spec r (2 ^ k)); [|lia].
    destruct (Nat.ltb_spec c (2 ^ k)); [|lia].
    destruct (Nat.ltb_spec (r + 2 ^ k) (2 ^ k)); [lia|].
    destruct (Nat.ltb_spec (c + 2 ^ k) (2 ^ k)); [lia|].
    rewrite !Nat.add_sub.
    repeat split; f_equal; ring.
Qed.

Lemma build_blocks_witness :
  (1 <= 2)%nat /\
  exists small big,
    Dithering.build (S 2 + 996) (2 ^ Z.of_nat 2) = Ok (Some small) /\
    Dithering.build (S (S 2) + 996) (2 ^ Z.of_nat (S 2)) = Ok (Some big) /\
    forall r c, (r < 2 ^ 2)%nat -> (c < 2 ^ 2)%nat ->
      exists v,
        cell small r c = Some v /\
        cell big r c = Some (4 * v) /\
        cell big r (c + 2 ^ 2) = Some (4 * v + 2) /\
        cell big (r + 2 ^ 2) c = Some (4 * v + 3) /\
        cell big (r + 2 ^ 2) (c + 2 ^ 2) = Some (4 * v + 1).
Proof.
  split; [lia | apply (build_blocks 2 996); lia].
Defined.

(** ** Sequences of any length *)

Lemma rng_ok_half : rng_ok half_rng.
Proof. intros n. split; unfold half_rng, Qle; simpl; lia. Qed.

Lemma last_cons {A : Type} (l : list A) (x d : A) : last (x :: l) d = last l x.
Proof.
  revert x d. induction l as [|y l IH]; intros x d; [reflexivity|].
  change (last (x :: y :: l) d) with (last (y :: l) d).
  now rewrite !IH.
Qed.

Lemma last_runs (fs : list (Image -> Image)) (i : Image) :
  last (runs fs i) i = fold_left (fun i f => f i) fs i.
Proof.
  revert i. induction fs as [|f fs IH]; intros i; [reflexivity|].
  cbn [runs fold_left]. rewrite <- IH. apply last_cons.
Qed.

(** The loop over stages with [p = 1]: every stage runs, on the output of
    the stage before it. *)
Lemma loop_stages (fs : list (string * (Image -> Image))) :
  forall (i : Image) (results : list pyval)
         (calls : list AugmentationSequence.call_event) (s : rng),
    rng_ok s ->
    exists calls' s',
      AugmentationSequence.loop (stages_of fs) (VImage i) results calls s =
        Ok ((VImage (fold_left (fun i f => f i) (map snd fs) i),
             results ++ map VImage (runs (map snd fs) i),
             calls ++ calls'), s') /\
      rng_ok s' /\
      map AugmentationSequence.arg calls' =
        map VImage (removelast (i :: runs (map snd fs) i)).
Proof.
  induction fs as [|[n f] fs IH]; intros i results calls s Hs.
  - exists [], s. cbn. rewrite !app_nil_r. auto.
  - cbn [stages_of map AugmentationSequence.loop fst snd is_tuple].
    unfold mbind at 1. cbn [lift].
    unfold mbind at 1. cbn [stage aug_call aug_name].
    rewrite (gated_one _ _ s Hs). cbn [py_copy bind lift].
    destruct (IH (f i) (results ++ [VImage (f i)])
                (calls ++ [ {| AugmentationSequence.callee := n;
                               AugmentationSequence.arg := VImage i;
                               AugmentationSequence.force_arg := false |} ])
                (snd (next s)) (rng_ok_next s Hs)) as (calls' & s' & E & Hs' & Hargs).
    eexists (_ :: calls'), s'. split; [|split; [exact Hs'|]].
    + fold (stages_of fs). rewrite E. cbn [runs map fold_left].
      rewrite <- !app_assoc. reflexivity.
    + cbn [map AugmentationSequence.arg]. rewrite Hargs.
      cbn [runs map]. remember (runs (map snd fs) (f i)) as l.
      destruct l; reflexivity.
Qed.

(** The call of a sequence of stages with [p = 1]. *)
Lemma call_stages (fs : list (string * (Image -> Image))) (i : Image)
    (force : bool) (s : rng) :
  rng_ok s ->
  exists self' calls s',
    AugmentationSequence.call (AugmentationSequence.new (stages_of fs) 1)
      (VImage i) force s =
      Ok ((VTuple [VImage (fold_left (fun i f => f i) (map snd fs) i);
                   VAugs (map fst fs)], self', calls), s') /\
    rng_ok s' /\
    AugmentationSequence.results self' = map VImage (runs (map snd fs) i) /\
    map AugmentationSequence.arg calls =
      map VImage (removelast (i :: runs (map snd fs) i)).
Proof.
  intros Hs.
  assert (Hnames : map aug_name (stages_of fs) = map fst fs).
  { unfold stages_of. rewrite map_map. reflexivity. }
  assert (Hbody : forall s0, rng_ok s0 ->
    exists self' calls s',
      mbind (AugmentationSequence.loop (stages_of fs) (VImage i) [] [])
        (fun '(result, results', calls) =>
           ret (VTuple [result; VAugs (map aug_name (stages_of fs))],
                {| AugmentationSequence.augmentations := stages_of fs;
                   AugmentationSequence.p := 1;
                   AugmentationSequence.results := results' |},
                calls)) s0 =
      Ok ((VTuple [VImage (fold_left (fun i f => f i) (map snd fs) i);
                   VAugs (map fst fs)], self', calls), s') /\
      rng_ok s' /\
      AugmentationSequence.results self' = map VImage (runs (map snd fs) i) /\
      map AugmentationSequence.arg calls =
        map VImage (removelast (i :: runs (map snd fs) i))).
  { intros s0 Hs0.
    destruct (loop_stages fs i [] [] s0 Hs0) as (calls' & s' & E & Hs' & Hargs).
    eexists _, calls', s'. split; [|split; [exact Hs'|split]].
    - unfold mbind. rewrite E. cbn [app ret]. rewrite Hnames. reflexivity.
    - reflexivity.
    - exact Hargs. }
  unfold AugmentationSequence.call, AugmentationSequence.new.
  cbn [AugmentationSequence.augmentations AugmentationSequence.p
       AugmentationSequence.results].
  destruct force.
  - now apply Hbody.
  - unfold mbind at 1. rewrite should_run_draw.
    replace (Qle_bool (s O) 1) with true
      by (symmetry; apply Qle_bool_iff; apply Hs).
    apply Hbody. now apply rng_ok_next.
Qed.

(** X9. A sequence of any number of stages with [p = 1], itself with
    [p = 1] or forced, applies the functions of its stages in order, each to
    the output of the one before: the first item of the result is the last
    output (the input itself when there is no stage), the second the list
    of the stages, and [results] holds the output of every stage. *)
Theorem sequence_stages (fs : list (string * (Image -> Image))) (i : Image)
    (force : bool) (s : rng) :
  rng_ok s ->
  exists self' calls s',
    AugmentationSequence.call (AugmentationSequence.new (stages_of fs) 1)
      (VImage i) force s =
      Ok ((VTuple [VImage (fold_left (fun i f => f i) (map snd fs) i);
                   VAugs (map fst fs)], self', calls), s') /\
    AugmentationSequence.results self' = map VImage (runs (map snd fs) i) /\
    map AugmentationSequence.arg calls =
      map VImage (removelast (i :: runs (map snd fs) i)).
Proof.
  intros Hs.
  destruct (call_stages fs i force s Hs) as (self' & calls & s' & E & _ & Hres & Hargs).
  exists self', calls, s'.
  split; [exact E|]. split; [exact Hres|exact Hargs].
Qed.

Lemma sequence_stages_witness :
  rng_ok half_rng /\
  exists self' calls s',
    AugmentationSequence.call
      (AugmentationSequence.new
         (stages_of [ ("A", Dithering.dither_Floyd_Steinberg);
                      ("B", fun i => i);
                      ("C", Dithering.dither_Floyd_Steinberg) ]%string) 1)
      (VImage gray_2x2) false half_rng =
      Ok ((VTuple [VImage (fold_left (fun i f => f i)
                             (map snd [ ("A", Dithering.dither_Floyd_Steinberg);
                                        ("B", fun i => i);
                                        ("C", Dithering.dither_Floyd_Steinberg) ]%string)
                             gray_2x2);
                   VAugs (map fst [ ("A", Dithering.dither_Floyd_Steinberg);
                                    ("B", fun i : Image => i);
                                    ("C", Dithering.dither_Floyd_Steinberg) ]%string)],
           self', calls), s') /\
    AugmentationSequence.results self' =
      map VImage (runs (map snd [ ("A", Dithering.dither_Floyd_Steinberg);
                                  ("B", fun i => i);
                                  ("C", Dithering.dither_Floyd_Steinberg) ]%string)
                    gray_2x2) /\
    map AugmentationSequence.arg calls =
      map VImage (removelast
                    (gray_2x2 ::
                     runs (map snd [ ("A", Dithering.dither_Floyd_Steinberg);
                                     ("B", fun i => i);
                                     ("C", Dithering.dither_Floyd_Steinberg) ]%string)
                       gray_2x2)).
Proof.
  split; [exact rng_ok_half|].
  exact (sequence_stages [ ("A", Dithering.dither_Floyd_Steinberg);
                           ("B", fun i => i);
                           ("C", Dithering.dither_Floyd_Steinberg) ]%string
           gray_2x2 false half_rng rng_ok_half).
Defined.

(** ** What a call does to the object *)

Lemma loop_last (augs : list Augmentation) :
  forall result results calls s result' results' calls' s',
    AugmentationSequence.loop augs result results calls s =
      Ok ((result', results', calls'), s') ->
    exists outs, results' = results ++ outs /\ result' = last outs result.
Proof.
  induction augs as [|a augs IH]; intros result results calls s result' results' calls' s' H.
  - cbn in H. injection H as <- <- <- <-. exists []. now rewrite app_nil_r.
  - cbn [AugmentationSequence.loop] in H. unfold mbind, lift in H.
    destruct (if is_tuple result then tuple_first result else Ok result) as [r|e];
      [|discriminate].
    destruct (aug_call a r false s) as [[cur s1]|e]; [|discriminate].
    apply IH in H. destruct H as (outs & -> & ->).
    exists (cur :: outs). rewrite <- app_assoc. split; [reflexivity|].
    symmetry. apply last_cons.
Qed.

(** X10. Whatever its augmentations do, a call of a sequence that
    returns either found the gate closed (it returns [None], calls no
    augmentation and leaves the object alone), or called every augmentation
    once, in order and with [force = False], appended one entry per
    augmentation to [results] after the entries of earlier calls, and
    returned the last of them (the input itself when there is no
    augmentation) with the list of augmentations. *)
Theorem sequence_call_log (self : AugmentationSequence.t) (image : pyval)
    (force : bool) (s : rng) (v : pyval) (self' : AugmentationSequence.t)
    (calls : list AugmentationSequence.call_event) (s' : rng) :
  AugmentationSequence.call self image force s = Ok ((v, self', calls), s') ->
  (force = false /\ v = VNone /\ self' = self /\ calls = []) \/
  (exists outs,
     AugmentationSequence.results self' = AugmentationSequence.results self ++ outs /\
     length outs = length (AugmentationSequence.augmentations self) /\
     AugmentationSequence.augmentations self' = AugmentationSequence.augmentations self /\
     AugmentationSequence.p self' = AugmentationSequence.p self /\
     v = VTuple [last outs image;
                 VAugs (map aug_name (AugmentationSequence.augmentations self))] /\
     map AugmentationSequence.callee calls =
       map aug_name (AugmentationSequence.augmentations self) /\
     Forall (fun e => AugmentationSequence.force_arg e = false) calls).
Proof.
  intros H.
  assert (Hbody : forall s0,
    mbind (AugmentationSequence.loop (AugmentationSequence.augmentations self) image
             (AugmentationSequence.results self) [])
      (fun '(result, results', calls) =>
         ret (VTuple [result;
                      VAugs (map aug_name (AugmentationSequence.augmentations self))],
              {| AugmentationSequence.augmentations :=
                   AugmentationSequence.augmentations self;
                 AugmentationSequence.p := AugmentationSequence.p self;
                 AugmentationSequence.results := results' |},
              calls)) s0 = Ok ((v, self', calls), s') ->
    exists outs,
     AugmentationSequence.results self' = AugmentationSequence.results self ++ outs /\
     length outs = length (AugmentationSequence.augmentations self) /\
     AugmentationSequence.augmentations self' = AugmentationSequence.augmentations self /\
     AugmentationSequence.p self' = AugmentationSequence.p self /\
     v = VTuple [last outs image;
                 VAugs (map aug_name (AugmentationSequence.augmentations self))] /\
     map AugmentationSequence.callee calls =
       map aug_name (AugmentationSequence.augmentations self) /\
     Forall (fun e => AugmentationSequence.force_arg e = false) calls).
  { intros s0 E. unfold mbind in E.
    destruct (AugmentationSequence.loop (AugmentationSequence.augmentations self) image
                (AugmentationSequence.results self) [] s0)
      as [[[[result results'] calls0] s1]|e] eqn:EL; [|discriminate].
    cbn [ret] in E. injection E as <- <- <- <-.
    destruct (loop_calls _ _ _ _ _ _ _ _ _ EL)
      as (outs & ncs & Hres & Hcalls & Hlen & Hnames & Hforce).
    destruct (loop_last _ _ _ _ _ _ _ _ _ EL) as (outs' & Hres' & Hlast).
    assert (outs' = outs) by (apply (app_inv_head (AugmentationSequence.results self));
                              congruence).
    subst outs'. cbn [app] in Hcalls. subst.
    exists outs. cbn [AugmentationSequence.results AugmentationSequence.augmentations
                      AugmentationSequence.p]. repeat split; assumption. }
  unfold AugmentationSequence.call in H. destruct force.
  - right. now apply (Hbody s).
  - unfold mbind at 1 in H. rewrite should_run_draw in H.
    destruct (Qle_bool (s O) (AugmentationSequence.p self)).
    + right. now apply (Hbody (snd (next s))).
    + left. cbn [ret] in H. injection H as <- <- <- <-. auto.
Qed.

Lemma sequence_call_log_witness :
  AugmentationSequence.call seq_A (VImage gray_2x2) true half_rng =
    Ok ((VTuple [VImage gray_2x2; VAugs ["A"%string]],
         {| AugmentationSequence.augmentations := stages_of [ ("A", fun i => i) ]%string;
            AugmentationSequence.p := 1;
            AugmentationSequence.results := [VNone; VImage gray_2x2] |},
         [ {| AugmentationSequence.callee := "A"%string;
              AugmentationSequence.arg := VImage gray_2x2;
              AugmentationSequence.force_arg := false |} ]),
        snd (next half_rng)) /\
  exists outs,
    [VNone; VImage gray_2x2] = AugmentationSequence.results seq_A ++ outs /\
    length outs = length (AugmentationSequence.augmentations seq_A).
Proof.
  assert (E : AugmentationSequence.call seq_A (VImage gray_2x2) true half_rng =
    Ok ((VTuple [VImage gray_2x2; VAugs ["A"%string]],
         {| AugmentationSequence.augmentations := stages_of [ ("A", fun i => i) ]%string;
            AugmentationSequence.p := 1;
            AugmentationSequence.results := [VNone; VImage gray_2x2] |},
         [ {| AugmentationSequence.callee := "A"%string;
              AugmentationSequence.arg := VImage gray_2x2;
              AugmentationSequence.force_arg := false |} ]),
        snd (next half_rng))) by reflexivity.
  split; [exact E|].
  destruct (sequence_call_log seq_A (VImage gray_2x2) true half_rng _ _ _ _ E)
    as [(Hf & _)|(outs & Hres & Hlen & _)]; [discriminate Hf|].
  exists outs. split; [exact Hres|exact Hlen].
Defined.

(** ** A sequence inside a sequence *)

Lemma as_augmentation_stages (name : string) (fs : list (string * (Image -> Image)))
    (i : Image) (force : bool) (s : rng) :
  rng_ok s ->
  exists s',
    aug_call (as_augmentation name (AugmentationSequence.new (stages_of fs) 1))
      (VImage i) force s =
      Ok (VTuple [VImage (fold_left (fun i f => f i) (map snd fs) i);
                  VAugs (map fst fs)], s') /\
    rng_ok s'.
Proof.
  intros Hs.
  destruct (call_stages fs i force s Hs) as (self' & calls & s' & E & Hs' & _).
  exists s'. split; [|exact Hs'].
  cbn [as_augmentation aug_call]. unfold mbind. rewrite E. reflexivity.
Qed.

(** X11. A sequence used as a stage of another sequence returns a pair.
    Between two stages the pair is taken apart: the next stage receives
    the image.  After the last stage it is not: when the inner sequence
    comes last, the first item of the outer result is the pair the inner
    sequence returned, not an image. *)
Theorem nested_sequence (inner : list (string * (Image -> Image)))
    (name nB : string) (fB : Image -> Image) (i : Image) (s : rng) :
  rng_ok s ->
  let sub := as_augmentation name (AugmentationSequence.new (stages_of inner) 1) in
  let run := fold_left (fun i f => f i) (map snd inner) in
  (exists self' calls s',
     AugmentationSequence.call (AugmentationSequence.new [sub; stage nB 1 fB] 1)
       (VImage i) true s =
       Ok ((VTuple [VImage (fB (run i)); VAugs [name; nB]], self', calls), s') /\
     map AugmentationSequence.arg calls = [VImage i; VImage (run i)]) /\
  (exists self' calls s',
     AugmentationSequence.call (AugmentationSequence.new [stage nB 1 fB; sub] 1)
       (VImage i) true s =
       Ok ((VTuple [VTuple [VImage (run (fB i)); VAugs (map fst inner)];
                    VAugs [nB; name]], self', calls), s')).
Proof.
  intros Hs sub run. split.
  - destruct (as_augmentation_stages name inner i false s Hs) as (s1 & E1 & Hs1).
    fold sub in E1. fold (run i) in E1.
    eexists _, _, _. split.
    + unfold AugmentationSequence.call, AugmentationSequence.new.
      cbn [AugmentationSequence.augmentations AugmentationSequence.p
           AugmentationSequence.results AugmentationSequence.loop is_tuple].
      unfold mbind at 1. unfold mbind at 1. cbn [lift].
      unfold mbind at 1. rewrite E1.
      cbn [is_tuple tuple_first].
      unfold mbind at 1. cbn [lift].
      unfold mbind at 1. cbn [stage aug_call aug_name].
      rewrite (gated_one _ _ s1 Hs1). cbn [py_copy bind lift].
      cbn [ret map aug_name as_augmentation sub]. reflexivity.
    + reflexivity.
  - destruct (as_augmentation_stages name inner (fB i) false (snd (next s))
                (rng_ok_next s Hs)) as (s1 & E1 & Hs1).
    fold sub in E1. fold (run (fB i)) in E1.
    eexists _, _, _.
    unfold AugmentationSequence.call, AugmentationSequence.new.
    cbn [AugmentationSequence.augmentations AugmentationSequence.p
         AugmentationSequence.results AugmentationSequence.loop is_tuple].
    unfold mbind at 1. unfold mbind at 1. cbn [lift].
    unfold mbind at 1. cbn [stage aug_call aug_name].
    rewrite (gated_one _ _ s Hs). cbn [py_copy bind lift is_tuple].
    unfold mbind at 1. cbn [lift].
    unfold mbind at 1. rewrite E1.
    cbn [ret map aug_name as_augmentation sub]. reflexivity.
Qed.

Lemma nested_sequence_witness :
  rng_ok half_rng /\
  let sub := as_augmentation "inner"
               (AugmentationSequence.new
                  (stages_of [ ("A", Dithering.dither_Floyd_Steinberg) ]%string) 1) in
  let run := fold_left (fun i f => f i)
               (map snd [ ("A", Dithering.dither_Floyd_Steinberg) ]%string) in
  (exists self' calls s',
     AugmentationSequence.call
       (AugmentationSequence.new [sub; stage "B" 1 (fun i => i)] 1)
       (VImage gray_2x2) true half_rng =
       Ok ((VTuple [VImage (run gray_2x2); VAugs ["inner"; "B"]%string], self', calls), s') /\
     map AugmentationSequence.arg calls = [VImage gray_2x2; VImage (run gray_2x2)]) /\
  (exists self' calls s',
     AugmentationSequence.call
       (AugmentationSequence.new [stage "B" 1 (fun i => i); sub] 1)
       (VImage gray_2x2) true half_rng =
       Ok ((VTuple [VTuple [VImage (run gray_2x2);
                            VAugs (map fst [ ("A", Dithering.dither_Floyd_Steinberg) ]%string)];
                    VAugs ["B"; "inner"]%string], self', calls), s')).
Proof.
  split; [exact rng_ok_half|].
  exact (nested_sequence [ ("A", Dithering.dither_Floyd_Steinberg) ]%string
           "inner" "B" (fun i => i) gray_2x2 half_rng rng_ok_half).
Defined.

(** ** Geometric: the translation *)

Lemma slice_to {A : Type} (off : Z) (l : list A) :
  0 < off ->
  GeometricTranslate.slice None (Some (- off)) l = firstn (length l - Z.to_nat off) l.
Proof.
  intros H. unfold GeometricTranslate.slice, Geometric.py_slice. cbv zeta.
  replace (0 <? 0) with false by reflexivity.
  destruct (Z.ltb_spec (- off) 0); [|lia].
  replace (Z.to_nat (Z.max 0 (Z.min (Z.of_nat (length l)) 0))) with 0%nat by lia.
  cbn [skipn]. f_equal. lia.
Qed.

Lemma slice_from {A : Type} (m : Z) (l : list A) :
  0 < m ->
  GeometricTranslate.slice (Some m) None l = skipn (Z.to_nat m) l.
Proof.
  intros H. unfold GeometricTranslate.slice, Geometric.py_slice. cbv zeta.
  destruct (Z.ltb_spec m 0); [lia|].
  destruct (Z.ltb_spec (Z.of_nat (length l)) 0); [lia|].
  destruct (Nat.le_gt_cases (length l) (Z.to_nat m)) as [Hle|Hgt].
  - rewrite (skipn_all2 l Hle).
    replace (Z.to_nat (Z.max 0 (Z.min (Z.of_nat (length l)) m))) with (length l) by lia.
    rewrite skipn_all. apply firstn_nil.
  - replace (Z.to_nat (Z.max 0 (Z.min (Z.of_nat (length l)) m))) with (Z.to_nat m) by lia.
    apply firstn_all2. rewrite length_skipn. lia.
Qed.

Lemma set_slice_pos {A : Type} (off : Z) (dst l : list A) :
  0 < off -> length dst = length l ->
  GeometricTranslate.set_slice (Some off) None dst (firstn (length l - Z.to_nat off) l) =
  Ok (moved off dst l).
Proof.
  intros H Hlen. unfold GeometricTranslate.set_slice, moved. cbv zeta.
  destruct (Z.ltb_spec 0 off); [|lia].
  destruct (Z.ltb_spec off 0); [lia|].
  destruct (Z.ltb_spec (Z.of_nat (length dst)) 0); [lia|].
  rewrite length_firstn.
  destruct (Z.eqb_spec (Z.of_nat (Nat.min (length l - Z.to_nat off) (length l)))
              (Z.max 0 (Z.max 0 (Z.min (Z.of_nat (length dst)) (Z.of_nat (length dst)))
                        - Z.max 0 (Z.min (Z.of_nat (length dst)) off)))) as [_|Hne];
    [|exfalso; lia].
  f_equal.
  rewrite (skipn_all2 dst) by lia. rewrite app_nil_r. f_equal.
  destruct (Nat.le_gt_cases (length dst) (Z.to_nat off)) as [Hle|Hgt].
  - rewrite !firstn_all2 by lia. reflexivity.
  - f_equal. lia.
Qed.

Lemma set_slice_neg {A : Type} (off : Z) (dst l : list A) :
  off < 0 -> length dst = length l ->
  GeometricTranslate.set_slice None (Some off) dst (skipn (Z.to_nat (- off)) l) =
  Ok (moved off dst l).
Proof.
  intros H Hlen. unfold GeometricTranslate.set_slice, moved. cbv zeta.
  destruct (Z.ltb_spec 0 off); [lia|].
  destruct (Z.ltb_spec off 0); [|lia].
  replace (0 <? 0) with false by reflexivity.
  rewrite length_skipn.
  destruct (Z.eqb_spec (Z.of_nat (length l - Z.to_nat (- off)))
              (Z.max 0 (Z.max 0 (Z.min (Z.of_nat (length dst)) (off + Z.of_nat (length dst)))
                        - Z.max 0 (Z.min (Z.of_nat (length dst)) 0)))) as [_|Hne];
    [|exfalso; lia].
  f_equal.
  replace (Z.to_nat (Z.max 0 (Z.min (Z.of_nat (length dst)) 0))) with 0%nat by lia.
  reflexivity.
Qed.

Lemma map_fixed {A : Type} (f : A -> A) (l : list A) :
  Forall (fun a => f a = a) l -> map f l = l.
Proof.
  intros H. rewrite <- (map_id l) at 2. apply map_ext_Forall. exact H.
Qed.

Lemma map_constant {A : Type} (f : A -> A) (v : A) (l : list A) :
  Forall (fun a => f a = v) l -> map f l = repeat v (length l).
Proof.
  induction 1 as [|a l Ha _ IH]; [reflexivity|]. simpl. now rewrite Ha, IH.
Qed.

Lemma Forall_firstn {A : Type} (P : A -> Prop) (n : nat) (l : list A) :
  Forall P l -> Forall P (firstn n l).
Proof.
  intros H. revert n. induction H as [|a l Ha _ IH]; intros [|n]; simpl;
    constructor; auto.
Qed.

Lemma Forall_skipn {A : Type} (P : A -> Prop) (n : nat) (l : list A) :
  Forall P l -> Forall P (skipn n l).
Proof.
  intros H. revert n. induction H as [|a l Ha Hl IH]; intros [|n]; simpl;
    try constructor; auto.
Qed.

Lemma Forall_repeat {A : Type} (P : A -> Prop) (v : A) (n : nat) :
  P v -> Forall P (repeat v n).
Proof. intros H. induction n; simpl; constructor; auto. Qed.

Lemma Forall_moved {A : Type} (P : A -> Prop) (off : Z) (dst l : list A) :
  Forall P dst -> Forall P l -> Forall P (moved off dst l).
Proof.
  intros Hd Hl. unfold moved.
  destruct (0 <? off); [|destruct (off <? 0)]; try exact Hl;
    apply Forall_app; split;
    auto using Forall_firstn, Forall_skipn.
Qed.

Lemma length_moved {A : Type} (off : Z) (dst l : list A) :
  length dst = length l -> length (moved off dst l) = length l.
Proof.
  intros H. unfold moved.
  destruct (Z.ltb_spec 0 off); [|destruct (Z.ltb_spec off 0)]; [| |reflexivity];
    rewrite length_app, ?length_firstn, ?length_skipn; lia.
Qed.

Lemma moved_0 {A : Type} (dst l : list A) : moved 0 dst l = l.
Proof. reflexivity. Qed.

Lemma source_of_Some (off : Z) (n i j : nat) :
  source_of off n i = Some j -> (j < n)%nat /\ Z.of_nat j = Z.of_nat i - off.
Proof.
  unfold source_of. cbv zeta.
  destruct (Z.leb_spec 0 (Z.of_nat i - off)), (Z.ltb_spec (Z.of_nat i - off) (Z.of_nat n));
    cbn [andb]; try discriminate.
  intros E. injection E as <-. lia.
Qed.

Lemma source_of_None (off : Z) (n i : nat) :
  source_of off n i = None ->
  Z.of_nat i - off < 0 \/ Z.of_nat n <= Z.of_nat i - off.
Proof.
  unfold source_of. cbv zeta.
  destruct (Z.leb_spec 0 (Z.of_nat i - off)), (Z.ltb_spec (Z.of_nat i - off) (Z.of_nat n));
    cbn [andb]; try discriminate; lia.
Qed.

(** Reading the moved items. *)
Lemma nth_moved {A : Type} (off : Z) (dst l : list A) (i : nat) (d : A) :
  length dst = length l -> (i < length l)%nat ->
  nth i (moved off dst l) d =
  match source_of off (length l) i with
  | Some j => nth j l d
  | None => nth i dst d
  end.
Proof.
  intros Hlen Hi.
  destruct (source_of off (length l) i) as [j|] eqn:E.
  - apply source_of_Some in E. destruct E as [Hj Ej].
    unfold moved.
    destruct (Z.ltb_spec 0 off); [|destruct (Z.ltb_spec off 0)].
    + rewrite app_nth2 by (rewrite length_firstn; lia).
      rewrite length_firstn, nth_firstn.
      destruct (Nat.ltb_spec (i - Nat.min (Z.to_nat off) (length dst))
                  (length l - Z.to_nat off)); [|lia].
      f_equal. lia.
    + rewrite app_nth1 by (rewrite length_skipn; lia).
      rewrite nth_skipn. f_equal. lia.
    + f_equal. lia.
  - apply source_of_None in E.
    unfold moved.
    destruct (Z.ltb_spec 0 off); [|destruct (Z.ltb_spec off 0)].
    + rewrite app_nth1 by (rewrite length_firstn; lia).
      rewrite nth_firstn.
      destruct (Nat.ltb_spec i (Z.to_nat off)); [reflexivity|lia].
    + rewrite app_nth2 by (rewrite length_skipn; lia).
      rewrite length_skipn, nth_skipn. f_equal. lia.
    + lia.
Qed.

(** The two slice assignments of one axis. *)
Lemma axis_moved {A : Type} (cast : A -> A) (off : Z) (dst l : list A) :
  length dst = length l -> Forall (fun a => cast a = a) l ->
  (if 0 <? off then
     GeometricTranslate.set_slice (Some off) None dst
       (map cast (GeometricTranslate.slice None (Some (- off)) l))
   else if off <? 0 then
     GeometricTranslate.set_slice None (Some off) dst
       (map cast (GeometricTranslate.slice (Some (Z.abs off)) None l))
   else Ok l) = Ok (moved off dst l).
Proof.
  intros Hlen Hc.
  destruct (Z.ltb_spec 0 off); [|destruct (Z.ltb_spec off 0)].
  - rewrite slice_to by assumption.
    rewrite map_fixed by (now apply Forall_firstn).
    now apply set_slice_pos.
  - rewrite slice_from by lia.
    rewrite map_fixed by (now apply Forall_skipn).
    replace (Z.abs off) with (- off) by lia.
    now apply set_slice_neg.
  - unfold moved.
    destruct (Z.ltb_spec 0 off); [lia|]. destruct (Z.ltb_spec off 0); [lia|].
    reflexivity.
Qed.

Lemma zip_rows_map {A : Type} (f : list A -> list A -> pyresult (list A))
    (g1 g2 h : list A -> list A) (rows : Plane A) :
  Forall (fun row => f (g1 row) (g2 row) = Ok (h row)) rows ->
  GeometricTranslate.zip_rows f (map g1 rows) (map g2 rows) = Ok (map h rows).
Proof.
  induction 1 as [|row rows Hrow _ IH]; [reflexivity|].
  cbn [map GeometricTranslate.zip_rows]. rewrite Hrow. cbn [bind].
  rewrite IH. reflexivity.
Qed.

(** The translation of an array whose items the cast leaves alone and
    whose white item is [wh] everywhere. *)
Lemma translate_plane_moved {A : Type} (white cast : A -> A) (wh : A) (w : nat)
    (offset_x offset_y : Z) (rows : Plane A) :
  cast wh = wh -> white wh = wh ->
  rect w rows ->
  Forall (Forall (fun a => cast a = a /\ white a = wh)) rows ->
  GeometricTranslate.translate_plane white cast offset_x offset_y rows =
  Ok (moved offset_y (repeat (repeat wh w) (length rows))
        (map (moved offset_x (repeat wh w)) rows)).
Proof.
  intros Hcw Hww Hrect Hgood.
  assert (Hrows : Forall (fun row => length row = w /\ Forall (fun a => cast a = a) row
                                     /\ map white row = repeat wh w) rows).
  { unfold rect in Hrect. rewrite Forall_forall in *. intros row Hin.
    specialize (Hrect row Hin). specialize (Hgood row Hin).
    split; [exact Hrect|]. split.
    - eapply Forall_impl; [|exact Hgood]. now intros a [Ha _].
    - rewrite <- Hrect. apply map_constant.
      eapply Forall_impl; [|exact Hgood]. now intros a [_ Ha]. }
  set (R1 := map (moved offset_x (repeat wh w)) rows).
  assert (Hx : (if 0 <? offset_x then
              GeometricTranslate.assign_columns cast (Some offset_x) None
                (map (map white) rows)
                (map (GeometricTranslate.slice None (Some (- offset_x))) rows)
            else if offset_x <? 0 then
              GeometricTranslate.assign_columns cast None (Some offset_x)
                (map (map white) rows)
                (map (GeometricTranslate.slice (Some (Z.abs offset_x)) None) rows)
            else Ok rows) = Ok R1).
  { unfold GeometricTranslate.assign_columns, R1.
    destruct (Z.ltb_spec 0 offset_x) as [Hp|Hp];
      [|destruct (Z.ltb_spec offset_x 0) as [Hn|Hn]].
    - apply (zip_rows_map _ (map white) (GeometricTranslate.slice None (Some (- offset_x)))).
      eapply Forall_impl; [|exact Hrows]. intros row (Hl & Hc & Hwr). cbv beta.
      rewrite Hwr.
      pose proof (axis_moved cast offset_x (repeat wh w) row
                    ltac:(rewrite repeat_length; lia) Hc) as E.
      destruct (Z.ltb_spec 0 offset_x); [exact E|lia].
    - apply (zip_rows_map _ (map white)
               (GeometricTranslate.slice (Some (Z.abs offset_x)) None)).
      eapply Forall_impl; [|exact Hrows]. intros row (Hl & Hc & Hwr). cbv beta.
      rewrite Hwr.
      pose proof (axis_moved cast offset_x (repeat wh w) row
                    ltac:(rewrite repeat_length; lia) Hc) as E.
      destruct (Z.ltb_spec 0 offset_x); [lia|].
      destruct (Z.ltb_spec offset_x 0); [exact E|lia].
    - f_equal. assert (offset_x = 0) by lia. subst offset_x.
      rewrite <- (map_id rows) at 1. apply map_ext. intros row. reflexivity. }
  unfold GeometricTranslate.translate_plane. cbv zeta. rewrite Hx. cbn [bind].
  assert (Hgood1 : Forall (Forall (fun a => cast a = a /\ white a = wh)) R1).
  { unfold R1. apply Forall_map. eapply Forall_impl; [|exact Hgood].
    intros row Hrow. cbv beta. apply Forall_moved; [|exact Hrow].
    apply Forall_repeat. now split. }
  assert (Hrect1 : Forall (fun row => length row = w) R1).
  { unfold R1. apply Forall_map. eapply Forall_impl; [|exact Hrows].
    intros row (Hl & _). cbv beta. rewrite length_moved; [exact Hl|].
    rewrite repeat_length. lia. }
  assert (Hlen1 : length R1 = length rows) by (unfold R1; apply length_map).
  assert (Hwhite1 : map (map white) R1 = repeat (repeat wh w) (length rows)).
  { rewrite <- Hlen1. clear - Hgood1 Hrect1.
    induction R1 as [|row R1 IH]; [reflexivity|].
    inversion Hgood1 as [|? ? Hg Hgs]; inversion Hrect1 as [|? ? Hl Hls]; subst.
    cbn [map length repeat]. f_equal; [|now apply IH].
    apply map_constant. eapply Forall_impl; [|exact Hg]. now intros a [_ Ha]. }
  rewrite Hwhite1.
  unfold GeometricTranslate.assign_rows.
  apply (axis_moved (map cast) offset_y (repeat (repeat wh w) (length rows)) R1).
  - rewrite repeat_length. lia.
  - eapply Forall_impl; [|exact Hgood1]. intros row Hrow. cbv beta.
    apply map_fixed. eapply Forall_impl; [|exact Hrow]. now intros a [Ha _].
Qed.

Lemma nth_map_lt {A B : Type} (f : A -> B) (l : list A) (i : nat) (d : A) (d' : B) :
  (i < length l)%nat -> nth i (map f l) d' = f (nth i l d).
Proof.
  intros H. rewrite (nth_indep _ d' (f d)) by (now rewrite length_map).
  apply map_nth.
Qed.

Lemma px_moved {A : Type} (wh d : A) (w : nat) (offset_x offset_y : Z)
    (rows : Plane A) (r c : nat) :
  rect w rows -> (r < length rows)%nat -> (c < w)%nat ->
  px d (moved offset_y (repeat (repeat wh w) (length rows))
          (map (moved offset_x (repeat wh w)) rows)) r c =
  match source_of offset_y (length rows) r, source_of offset_x w c with
  | Some r0, Some c0 => px d rows r0 c0
  | _, _ => wh
  end.
Proof.
  intros Hrect Hr Hc. unfold px.
  rewrite nth_moved by (rewrite ?repeat_length, length_map; lia).
  rewrite length_map.
  destruct (source_of offset_y (length rows) r) as [r0|] eqn:Er.
  - apply source_of_Some in Er. destruct Er as [Hr0 _].
    rewrite (nth_map_lt _ rows r0 []) by exact Hr0.
    pose proof (rect_nth w rows r0 Hrect Hr0) as Hl.
    rewrite nth_moved by (rewrite ?repeat_length; lia).
    rewrite Hl.
    destruct (source_of offset_x w c) as [c0|]; [reflexivity|].
    now apply nth_repeat_lt.
  - rewrite (nth_repeat_lt (repeat wh w) []) by exact Hr.
    rewrite (nth_repeat_lt wh d) by exact Hc.
    now destruct (source_of offset_x w c).
Qed.

Lemma shape_moved {A : Type} (wh : A) (w : nat) (offset_x offset_y : Z) (rows : Plane A) :
  rect w rows ->
  shape (moved offset_y (repeat (repeat wh w) (length rows))
           (map (moved offset_x (repeat wh w)) rows)) = shape rows.
Proof.
  intros Hrect.
  assert (Hlen : length (moved offset_y (repeat (repeat wh w) (length rows))
                           (map (moved offset_x (repeat wh w)) rows)) = length rows).
  { rewrite length_moved; rewrite ?repeat_length, length_map; reflexivity. }
  rewrite (proj1 (shape_rect w rows) Hrect).
  set (out := moved offset_y _ _) in *. rewrite <- Hlen.
  apply shape_rect. unfold out, rect. apply Forall_moved.
  - apply Forall_repeat. apply repeat_length.
  - apply Forall_map. eapply Forall_impl; [|exact Hrect].
    intros row Hl. cbv beta in *. rewrite length_moved; [exact Hl|].
    rewrite repeat_length. lia.
Qed.

Lemma wf_of_shaped (img : Image) :
  shaped_image img ->
  match img with
  | Gray rows => Forall (Forall is_uint8) rows
  | Color rows => Forall (Forall (Forall is_uint8)) rows
  end ->
  wf_image img.
Proof.
  destruct img as [rows|rows]; cbn [shaped_image wf_image].
  - intros Hrect Hu. now split.
  - intros [Hrect Hpix] Hu. split; [exact Hrect|].
    rewrite Forall_forall in *. intros row Hin.
    specialize (Hpix row Hin). specialize (Hu row Hin).
    rewrite Forall_forall in *. intros pixel Hp. split; auto.
Qed.

Lemma uint8_fixed (v : Z) : is_uint8 v -> GeometricTranslate.uint8 v = v.
Proof. unfold is_uint8, GeometricTranslate.uint8. intros H. apply Z.mod_small. lia. Qed.

Lemma nth_nil_0 (k : nat) : nth k (@nil Z) 0 = 0.
Proof. now destruct k. Qed.

(** What [translate] returns on an 8-bit image. *)
Lemma translate_image (self : Geometric.obj) (offset_x offset_y : Z) (rest : list Z)
    (img : Image) :
  Geometric.getattr self "translation" =
    Ok (Geometric.AInts (offset_x :: offset_y :: rest)) ->
  wf_image img ->
  exists out,
    GeometricTranslate.translate self img = Ok out /\
    same_shape img out /\ wf_image out /\
    forall k r c,
      (k < channels img)%nat -> (r < img_height img)%nat -> (c < img_width img)%nat ->
      px 0 (plane_of out k) r c =
      match source_of offset_y (img_height img) r, source_of offset_x (img_width img) c with
      | Some r0, Some c0 => px 0 (plane_of img k) r0 c0
      | _, _ => 255
      end.
Proof.
  intros Hattr Hwf. unfold GeometricTranslate.translate. rewrite Hattr. cbn [bind].
  destruct img as [rows|rows].
  - destruct Hwf as [Hrect Hu].
    rewrite (translate_plane_moved (fun _ => 255) GeometricTranslate.uint8 255
               (width rows) offset_x offset_y rows); try reflexivity; try assumption.
    2:{ eapply Forall_impl; [|exact Hu]. intros row Hrow. cbv beta.
        eapply Forall_impl; [|exact Hrow]. intros v Hv. cbv beta.
        split; [now apply uint8_fixed|reflexivity]. }
    cbn [bind]. eexists. split; [reflexivity|].
    assert (Hshape : same_shape (Gray rows)
              (Gray (moved offset_y (repeat (repeat 255 (width rows)) (length rows))
                       (map (moved offset_x (repeat 255 (width rows))) rows)))).
    { cbn [same_shape]. symmetry. now apply shape_moved. }
    split; [exact Hshape|]. split.
    + apply wf_of_shaped.
      * now apply (same_shape_shaped (Gray rows) _ Hrect Hshape).
      * apply Forall_moved.
        -- apply Forall_repeat. apply Forall_repeat. unfold is_uint8. lia.
        -- apply Forall_map. eapply Forall_impl; [|exact Hu]. intros row Hrow.
           cbv beta. apply Forall_moved; [|exact Hrow].
           apply Forall_repeat. unfold is_uint8. lia.
    + intros k r c _ Hr Hc. cbn [plane_of img_height img_width] in *.
      unfold height in *. now apply px_moved.
  - destruct Hwf as [Hrect Hpix].
    set (dim := length (hd [] (hd [] rows))) in *.
    rewrite (translate_plane_moved (map (fun _ => 255)) (map GeometricTranslate.uint8)
               (repeat 255 dim) (width rows) offset_x offset_y rows); try assumption.
    2:{ rewrite map_repeat. reflexivity. }
    2:{ rewrite map_repeat. reflexivity. }
    2:{ eapply Forall_impl; [|exact Hpix]. intros row Hrow. cbv beta.
        eapply Forall_impl; [|exact Hrow]. intros pixel [Hl Hp]. cbv beta.
        split.
        - apply map_fixed. eapply Forall_impl; [|exact Hp].
          intros v Hv. now apply uint8_fixed.
        - rewrite <- Hl. apply map_constant. apply Forall_forall. reflexivity. }
    cbn [bind]. eexists. split; [reflexivity|].
    set (out := moved offset_y (repeat (repeat (repeat 255 dim) (width rows)) (length rows))
                  (map (moved offset_x (repeat (repeat 255 dim) (width rows))) rows)).
    assert (Hgood : Forall (Forall (fun pixel => length pixel = dim /\ Forall is_uint8 pixel))
                      out).
    { unfold out. apply Forall_moved.
      - apply Forall_repeat. apply Forall_repeat. split; [apply repeat_length|].
        apply Forall_repeat. unfold is_uint8. lia.
      - apply Forall_map. eapply Forall_impl; [|exact Hpix]. intros row Hrow.
        cbv beta. apply Forall_moved; [|exact Hrow].
        apply Forall_repeat. split; [apply repeat_length|].
        apply Forall_repeat. unfold is_uint8. lia. }
    assert (Hshape : same_shape (Color rows) (Color out)).
    { cbn [same_shape].
      rewrite (shape3_uniform dim rows), (shape3_uniform dim out).
      - f_equal. symmetry. now apply shape_moved.
      - eapply Forall_impl; [|exact Hgood]. intros row Hrow. cbv beta.
        eapply Forall_impl; [|exact Hrow]. now intros pixel [Hl _].
      - eapply Forall_impl; [|exact Hpix]. intros row Hrow. cbv beta.
        eapply Forall_impl; [|exact Hrow]. now intros pixel [Hl _]. }
    split; [exact Hshape|]. split.
    + apply wf_of_shaped.
      * apply (same_shape_shaped (Color rows) _); [|exact Hshape].
        split; [exact Hrect|].
        eapply Forall_impl; [|exact Hpix]. intros row Hrow. cbv beta.
        eapply Forall_impl; [|exact Hrow]. now intros pixel [Hl _].
      * eapply Forall_impl; [|exact Hgood]. intros row Hrow. cbv beta.
        eapply Forall_impl; [|exact Hrow]. now intros pixel [_ Hp].
    + intros k r c Hk Hr Hc. cbn [plane_of img_height img_width channels] in *.
      unfold height in *. fold dim in Hk.
      unfold channel.
      rewrite (px_map_default (fun pixel => nth k pixel 0) [] 0) by apply nth_nil_0.
      unfold out. rewrite (px_moved (repeat 255 dim) [] (width rows)) by assumption.
      destruct (source_of offset_y (length rows) r) as [r0|];
        [destruct (source_of offset_x (width rows) c) as [c0|]|].
      * rewrite (px_map_default (fun pixel => nth k pixel 0) [] 0) by apply nth_nil_0.
        reflexivity.
      * now apply nth_repeat_lt.
      * now apply nth_repeat_lt.
Qed.

Lemma getattr_translation (scale : Q * Q) (translation : Z * Z) (fliplr flipud : Z)
    (crop : list Z) (rotate_range : Z * Z) (p : Q) :
  Geometric.getattr
    (Geometric.init scale translation fliplr flipud crop rotate_range p) "translation" =
  Ok (Geometric.AInts [fst translation; snd translation]).
Proof. reflexivity. Qed.

(** X12. On an 8-bit image, [translate] with the offsets
    [(offset_x, offset_y)] returns an image of the same shape in which the
    pixel at row [r], column [c] is the pixel of the input at row
    [r - offset_y], column [c - offset_x] when the input has that position,
    and white (255 in every channel) otherwise. *)
Theorem translate_pixels (scale : Q * Q) (offset_x offset_y fliplr flipud : Z)
    (crop : list Z) (rotate_range : Z * Z) (p : Q) (img : Image) :
  wf_image img ->
  exists out,
    GeometricTranslate.translate
      (Geometric.init scale (offset_x, offset_y) fliplr flipud crop rotate_range p) img =
      Ok out /\
    same_shape img out /\
    forall k r c,
      (k < channels img)%nat -> (r < img_height img)%nat -> (c < img_width img)%nat ->
      px 0 (plane_of out k) r c =
      match source_of offset_y (img_height img) r, source_of offset_x (img_width img) c with
      | Some r0, Some c0 => px 0 (plane_of img k) r0 c0
      | _, _ => 255
      end.
Proof.
  intros Hwf.
  destruct (translate_image _ offset_x offset_y []  img
              (getattr_translation scale (offset_x, offset_y) fliplr flipud crop
                 rotate_range p) Hwf) as (out & E & Hshape & _ & Hpx).
  exists out. split; [exact E|]. split; [exact Hshape|exact Hpx].
Qed.

Lemma translate_pixels_witness :
  wf_image gray_2x3 /\
  exists out,
    GeometricTranslate.translate
      (Geometric.init (1, 1)%Q (1, -1) 0 0 [] (0, 0) 1) gray_2x3 = Ok out /\
    same_shape gray_2x3 out /\
    forall k r c,
      (k < channels gray_2x3)%nat -> (r < img_height gray_2x3)%nat ->
      (c < img_width gray_2x3)%nat ->
      px 0 (plane_of out k) r c =
      match source_of (-1) (img_height gray_2x3) r, source_of 1 (img_width gray_2x3) c with
      | Some r0, Some c0 => px 0 (plane_of gray_2x3 k) r0 c0
      | _, _ => 255
      end.
Proof.
  assert (Hwf : wf_image gray_2x3)
    by (split; repeat constructor; unfold is_uint8; lia).
  split; [exact Hwf|].
  exact (translate_pixels (1, 1)%Q 1 (-1) 0 0 [] (0, 0) 1 gray_2x3 Hwf).
Defined.

Lemma source_of_add (a b : Z) (n i : nat) :
  0 <= a * b -> (i < n)%nat ->
  source_of (a + b) n i =
  match source_of b n i with
  | Some j => source_of a n j
  | None => None
  end.
Proof.
  intros Hab Hi.
  destruct (source_of b n i) as [j|] eqn:Eb.
  - apply source_of_Some in Eb. destruct Eb as [Hj Ej].
    unfold source_of. cbv zeta. rewrite Ej.
    replace (Z.of_nat i - b - a) with (Z.of_nat i - (a + b)) by ring.
    reflexivity.
  - apply source_of_None in Eb.
    unfold source_of. cbv zeta.
    destruct (Z.leb_spec 0 (Z.of_nat i - (a + b))),
      (Z.ltb_spec (Z.of_nat i - (a + b)) (Z.of_nat n)); cbn [andb]; try reflexivity.
    exfalso. nia.
Qed.

(** X13. Two translations in a row whose offsets do not point in
    opposite directions, on either axis, are the translation by the sum of
    the offsets. *)
Theorem translate_twice (scale : Q * Q) (ax ay bx b_y fliplr flipud : Z)
    (crop : list Z) (rotate_range : Z * Z) (p : Q) (img : Image) :
  wf_image img -> 0 <= ax * bx -> 0 <= ay * b_y ->
  let by_a := Geometric.init scale (ax, ay) fliplr flipud crop rotate_range p in
  let by_b := Geometric.init scale (bx, b_y) fliplr flipud crop rotate_range p in
  let by_sum := Geometric.init scale (ax + bx, ay + b_y) fliplr flipud crop rotate_range p in
  exists mid out,
    GeometricTranslate.translate by_a img = Ok mid /\
    GeometricTranslate.translate by_b mid = Ok out /\
    GeometricTranslate.translate by_sum img = Ok out.
Proof.
  intros Hwf Hx Hy by_a by_b by_sum.
  destruct (translate_image by_a ax ay [] img
              (getattr_translation scale (ax, ay) fliplr flipud crop rotate_range p) Hwf)
    as (mid & Ea & Hsa & Hwfa & Hpa).
  destruct (translate_image by_b bx b_y [] mid
              (getattr_translation scale (bx, b_y) fliplr flipud crop rotate_range p) Hwfa)
    as (out & Eb & Hsb & Hwfb & Hpb).
  destruct (translate_image by_sum (ax + bx) (ay + b_y) [] img
              (getattr_translation scale (ax + bx, ay + b_y) fliplr flipud crop
                 rotate_range p) Hwf)
    as (out' & Es & Hss & Hwfs & Hps).
  exists mid, out. split; [exact Ea|]. split; [exact Eb|].
  rewrite Es. f_equal.
  destruct (same_shape_shaped img mid (wf_shaped img Hwf) Hsa) as (_ & Hch & Hh & Hw).
  destruct (same_shape_shaped img out' (wf_shaped img Hwf) Hss) as (Hso' & Hch' & Hh' & Hw').
  assert (Hshape : same_shape out' out).
  { destruct img, mid, out, out'; cbn [same_shape] in *; try contradiction; congruence. }
  apply image_ext; [exact Hso'|exact Hshape|].
  intros k Hk.
  destruct (plane_of_shaped out' k Hso') as (Hlen' & Hrect').
  destruct (same_shape_shaped out' out Hso' Hshape) as (Hso & Hcho & Hho & Hwo).
  destruct (plane_of_shaped out k Hso) as (Hlen & Hrect).
  apply (plane_ext 0 (img_width out')); [exact Hrect'| |].
  - rewrite (proj1 (shape_rect _ _) Hrect'), (proj1 (shape_rect _ _) Hrect).
    congruence.
  - intros r c Hr Hc. rewrite Hlen' in Hr.
    rewrite Hps by congruence.
    rewrite Hpb by congruence.
    rewrite Hh, Hw.
    rewrite (source_of_add ay b_y) by (try lia; congruence).
    rewrite (source_of_add ax bx) by (try lia; congruence).
    destruct (source_of b_y (img_height img) r) as [r1|] eqn:Er;
      [|reflexivity].
    destruct (source_of bx (img_width img) c) as [c1|] eqn:Ec.
    + apply source_of_Some in Er, Ec.
      rewrite Hpa by (try tauto; congruence). reflexivity.
    + now destruct (source_of ay (img_height img) r1).
Qed.

Lemma translate_twice_witness :
  wf_image gray_2x3 /\ 0 <= 1 * 1 /\ 0 <= -1 * 0 /\
  exists mid out,
    GeometricTranslate.translate
      (Geometric.init (1, 1)%Q (1, -1) 0 0 [] (0, 0) 1) gray_2x3 = Ok mid /\
    GeometricTranslate.translate
      (Geometric.init (1, 1)%Q (1, 0) 0 0 [] (0, 0) 1) mid = Ok out /\
    GeometricTranslate.translate
      (Geometric.init (1, 1)%Q (1 + 1, -1 + 0) 0 0 [] (0, 0) 1) gray_2x3 = Ok out.
Proof.
  assert (Hwf : wf_image gray_2x3)
    by (split; repeat constructor; unfold is_uint8; lia).
  split; [exact Hwf|]. split; [lia|]. split; [lia|].
  apply (translate_twice (1, 1)%Q 1 (-1) 1 0 0 0 [] (0, 0) 1 gray_2x3 Hwf); lia.
Defined.

(** ** Geometric: the function [crop] *)

Lemma py_slice_window {A : Type} (a b : Z) (l : list A) :
  0 <= a -> a < b -> a < Z.of_nat (length l) ->
  Geometric.py_slice a b l =
  firstn (Z.to_nat (Z.min b (Z.of_nat (length l)) - a)) (skipn (Z.to_nat a) l).
Proof.
  intros Ha Hab Hal. unfold Geometric.py_slice. cbv zeta.
  destruct (Z.ltb_spec a 0); [lia|]. destruct (Z.ltb_spec b 0); [lia|].
  f_equal; f_equal; lia.
Qed.

Lemma length_py_slice_window {A : Type} (a b : Z) (l : list A) :
  0 <= a -> a < b -> a < Z.of_nat (length l) ->
  Z.of_nat (length (Geometric.py_slice a b l)) = Z.min b (Z.of_nat (length l)) - a.
Proof.
  intros Ha Hab Hal. rewrite py_slice_window by assumption.
  rewrite length_firstn, length_skipn. lia.
Qed.

Lemma nth_py_slice_window {A : Type} (a b : Z) (l : list A) (i : nat) (d : A) :
  0 <= a -> a < b -> a < Z.of_nat (length l) ->
  (i < length (Geometric.py_slice a b l))%nat ->
  nth i (Geometric.py_slice a b l) d = nth (Z.to_nat a + i) l d.
Proof.
  intros Ha Hab Hal Hi.
  pose proof (length_py_slice_window a b l Ha Hab Hal) as Hlen.
  rewrite py_slice_window by assumption.
  rewrite nth_firstn, nth_skipn.
  destruct (Nat.ltb_spec i (Z.to_nat (Z.min b (Z.of_nat (length l)) - a)));
    [reflexivity|lia].
Qed.

(** The window [rows[ys:ye, xs:xe]] of an array with rows of length [w]. *)
Lemma window_plane {A : Type} (d : A) (w : nat) (ys ye xs xe : Z) (rows : Plane A) :
  rect w rows ->
  0 <= ys -> ys < ye -> ys < Z.of_nat (length rows) ->
  0 <= xs -> xs < xe -> xs < Z.of_nat w ->
  let out := map (Geometric.py_slice xs xe) (Geometric.py_slice ys ye rows) in
  Z.of_nat (length out) = Z.min ye (Z.of_nat (length rows)) - ys /\
  rect (Z.to_nat (Z.min xe (Z.of_nat w) - xs)) out /\
  forall r c, (r < length out)%nat -> (c < Z.to_nat (Z.min xe (Z.of_nat w) - xs))%nat ->
    px d out r c = px d rows (Z.to_nat ys + r) (Z.to_nat xs + c).
Proof.
  intros Hrect Hys Hye Hyl Hxs Hxe Hxl out.
  pose proof (length_py_slice_window ys ye rows Hys Hye Hyl) as Hlen.
  assert (Hrow : forall r, (r < length (Geometric.py_slice ys ye rows))%nat ->
            nth r (Geometric.py_slice ys ye rows) [] = nth (Z.to_nat ys + r) rows [] /\
            length (nth (Z.to_nat ys + r) rows []) = w).
  { intros r Hr. split; [now apply nth_py_slice_window|].
    apply rect_nth; [exact Hrect|lia]. }
  split; [|split].
  - unfold out. rewrite length_map. exact Hlen.
  - unfold out, rect. apply Forall_map. apply Forall_forall. intros row Hin.
    destruct (In_nth _ _ [] Hin) as (r & Hr & <-).
    destruct (Hrow r Hr) as [-> Hl].
    pose proof (length_py_slice_window xs xe (nth (Z.to_nat ys + r) rows [])
                  Hxs Hxe ltac:(lia)) as Hlx.
    lia.
  - intros r c Hr Hc. unfold out in Hr. rewrite length_map in Hr.
    unfold px, out. rewrite (nth_map_lt _ _ r []) by exact Hr.
    destruct (Hrow r Hr) as [-> Hl].
    apply nth_py_slice_window; try lia.
    pose proof (length_py_slice_window xs xe (nth (Z.to_nat ys + r) rows [])
                  Hxs Hxe ltac:(lia)) as Hlx.
    lia.
Qed.

Lemma width_rect {A : Type} (w : nat) (a : Plane A) :
  rect w a -> (0 < length a)%nat -> width a = w.
Proof.
  intros H Hl. destruct a as [|row a]; [simpl in Hl; lia|].
  inversion H; subst. reflexivity.
Qed.

Lemma getattr_crop (scale : Q * Q) (translation : Z * Z) (fliplr flipud : Z)
    (crop : list Z) (rotate_range : Z * Z) (p : Q) :
  Geometric.getattr
    (Geometric.init scale translation fliplr flipud crop rotate_range p) "crop" =
  Ok (Geometric.AInts crop).
Proof. reflexivity. Qed.

(** X14. The function [crop] of the class, called with the crop tuple
    [(xstart, ystart, xend, yend)] (an end of -1 standing for the size of
    the image) whose window starts inside the image, returns the window:
    its rows are the rows from [ystart] to [yend] (at most the height), its
    columns those from [xstart] to [xend] (at most the width), and the pixel
    at row [r], column [c] is the pixel of the image at row [ystart + r],
    column [xstart + c]. *)
Theorem crop_window (scale : Q * Q) (translation : Z * Z)
    (fliplr flipud xstart ystart xend yend : Z) (rotate_range : Z * Z) (p : Q)
    (img : Image) :
  let h := Z.of_nat (img_height img) in
  let w := Z.of_nat (img_width img) in
  let yend' := if yend =? -1 then h else yend in
  let xend' := if xend =? -1 then w else xend in
  shaped_image img ->
  0 <= ystart -> ystart < Z.min yend' h ->
  0 <= xstart -> xstart < Z.min xend' w ->
  exists out,
    Geometric.crop
      (Geometric.init scale translation fliplr flipud [xstart; ystart; xend; yend]
         rotate_range p) img = Ok out /\
    Z.of_nat (img_height out) = Z.min yend' h - ystart /\
    Z.of_nat (img_width out) = Z.min xend' w - xstart /\
    forall k r c, (r < img_height out)%nat -> (c < img_width out)%nat ->
      px 0 (plane_of out k) r c =
      px 0 (plane_of img k) (Z.to_nat ystart + r) (Z.to_nat xstart + c).
Proof.
  intros h w yend' xend' Hs Hy0 Hy Hx0 Hx.
  unfold Geometric.crop. rewrite getattr_crop. cbn [bind].
  assert (Hshape2 : Geometric.shape2 img = (h, w)) by (destruct img; reflexivity).
  rewrite Hshape2. fold yend' xend'.
  destruct (Z.ltb_spec ystart yend'); [|lia].
  destruct (Z.leb_spec 0 ystart); [|lia].
  destruct (Z.ltb_spec xstart xend'); [|lia].
  destruct (Z.leb_spec 0 xstart); [|lia].
  cbn [andb]. eexists. split; [reflexivity|].
  destruct img as [rows|rows]; cbn [Geometric.slice2 img_height img_width plane_of].
  - cbn [shaped_image img_height img_width] in *. unfold height in *.
    destruct (window_plane 0 (width rows) ystart yend' xstart xend' rows Hs)
      as (Hlen & Hrect & Hpx); try lia.
    set (out := map (Geometric.py_slice xstart xend')
                  (Geometric.py_slice ystart yend' rows)) in *.
    assert (Hw : width out = Z.to_nat (Z.min xend' (Z.of_nat (width rows)) - xstart))
      by (apply width_rect; [exact Hrect|lia]).
    split; [exact Hlen|]. split; [lia|].
    intros k r c Hr Hc. apply Hpx; [exact Hr|lia].
  - cbn [shaped_image img_height img_width] in *. unfold height in *.
    destruct Hs as [Hs _].
    destruct (window_plane [] (width rows) ystart yend' xstart xend' rows Hs)
      as (Hlen & Hrect & Hpx); try lia.
    set (out := map (Geometric.py_slice xstart xend')
                  (Geometric.py_slice ystart yend' rows)) in *.
    assert (Hw : width out = Z.to_nat (Z.min xend' (Z.of_nat (width rows)) - xstart))
      by (apply width_rect; [exact Hrect|lia]).
    split; [exact Hlen|]. split; [lia|].
    intros k r c Hr Hc. unfold channel.
    rewrite !(px_map_default (fun pixel => nth k pixel 0) [] 0) by apply nth_nil_0.
    f_equal. apply Hpx; [exact Hr|lia].
Qed.

Lemma crop_window_witness :
  shaped_image gray_2x3 /\
  0 <= 1 /\ 1 < Z.min (if -1 =? -1 then Z.of_nat (img_height gray_2x3) else -1)
                  (Z.of_nat (img_height gray_2x3)) /\
  0 <= 1 /\ 1 < Z.min (if 2 =? -1 then Z.of_nat (img_width gray_2x3) else 2)
                  (Z.of_nat (img_width gray_2x3)) /\
  exists out,
    Geometric.crop (Geometric.init (1, 1)%Q (0, 0) 0 0 [1; 1; 2; -1] (0, 0) 1) gray_2x3 =
      Ok out /\
    Z.of_nat (img_height out) =
      Z.min (if -1 =? -1 then Z.of_nat (img_height gray_2x3) else -1)
        (Z.of_nat (img_height gray_2x3)) - 1 /\
    Z.of_nat (img_width out) =
      Z.min (if 2 =? -1 then Z.of_nat (img_width gray_2x3) else 2)
        (Z.of_nat (img_width gray_2x3)) - 1 /\
    forall k r c, (r < img_height out)%nat -> (c < img_width out)%nat ->
      px 0 (plane_of out k) r c =
      px 0 (plane_of gray_2x3 k) (Z.to_nat 1 + r) (Z.to_nat 1 + c).
Proof.
  assert (Hs : shaped_image gray_2x3) by (repeat constructor).
  split; [exact Hs|].
  split; [lia|]. split; [vm_compute; reflexivity|].
  split; [lia|]. split; [vm_compute; reflexivity|].
  apply (crop_window (1, 1)%Q (0, 0) 0 0 1 1 2 (-1) (0, 0) 1 gray_2x3 Hs);
    try lia; vm_compute; reflexivity.
Defined.

(** X15. The function [crop] of the class returns the image as it is
    when the crop tuple does not denote a window: an end (the size of the
    image when it is -1) that is not beyond its start, or a negative
    start. *)
Theorem crop_unchanged (scale : Q * Q) (translation : Z * Z)
    (fliplr flipud xstart ystart xend yend : Z) (rotate_range : Z * Z) (p : Q)
    (img : Image) :
  let yend' := if yend =? -1 then Z.of_nat (img_height img) else yend in
  let xend' := if xend =? -1 then Z.of_nat (img_width img) else xend in
  yend' <= ystart \/ xend' <= xstart \/ ystart < 0 \/ xstart < 0 ->
  Geometric.crop
    (Geometric.init scale translation fliplr flipud [xstart; ystart; xend; yend]
       rotate_range p) img = Ok img.
Proof.
  intros yend' xend' H.
  unfold Geometric.crop. rewrite getattr_crop. cbn [bind].
  assert (Hshape2 : Geometric.shape2 img =
                    (Z.of_nat (img_height img), Z.of_nat (img_width img)))
    by (destruct img; reflexivity).
  rewrite Hshape2. fold yend' xend'.
  destruct (Z.ltb_spec ystart yend'), (Z.leb_spec 0 ystart),
    (Z.ltb_spec xstart xend'), (Z.leb_spec 0 xstart); cbn [andb];
    try reflexivity.
  exfalso. lia.
Qed.

Lemma crop_unchanged_witness :
  ((if -1 =? -1 then Z.of_nat (img_height gray_2x3) else -1) <= 5 \/
   (if 2 =? -1 then Z.of_nat (img_width gray_2x3) else 2) <= 0 \/ 5 < 0 \/ 0 < 0) /\
  Geometric.crop (Geometric.init (1, 1)%Q (0, 0) 0 0 [0; 5; 2; -1] (0, 0) 1) gray_2x3 =
  Ok gray_2x3.
Proof.
  assert (H : (if -1 =? -1 then Z.of_nat (img_height gray_2x3) else -1) <= 5 \/
              (if 2 =? -1 then Z.of_nat (img_width gray_2x3) else 2) <= 0 \/
              5 < 0 \/ 0 < 0)
    by (left; vm_compute; discriminate).
  split; [exact H|].
  exact (crop_unchanged (1, 1)%Q (0, 0) 0 0 0 5 2 (-1) (0, 0) 1 gray_2x3 H).
Defined.

(** ** SubtleNoise *)

Lemma lowest_noise_array : randint_array lowest_noise.
Proof.
  intros low high h w s Hlt. exists (repeat (repeat low w) h), s.
  split; [reflexivity|]. split; [apply repeat_length|]. split.
  - apply Forall_repeat. apply repeat_length.
  - apply Forall_repeat. apply Forall_repeat. lia.
Qed.

Lemma shape_add_planes (a b : Plane Z) :
  shape a = shape b -> shape (SubtleNoise.add_planes a b) = shape a.
Proof.
  revert b. induction a as [|ra a IH]; intros [|rb b] H; try discriminate;
    [reflexivity|].
  unfold shape in *. simpl in *. injection H as Hr Ht.
  f_equal.
  - rewrite length_map, length_combine. lia.
  - now apply IH.
Qed.

Lemma px_add_planes (w : nat) (a b : Plane Z) (r c : nat) :
  rect w a -> rect w b -> length a = length b ->
  (r < length a)%nat -> (c < w)%nat ->
  px 0 (SubtleNoise.add_planes a b) r c = px 0 a r c + px 0 b r c.
Proof.
  intros Ha Hb Hlen Hr Hc. unfold px, SubtleNoise.add_planes.
  rewrite (nth_map_lt _ _ r ([], [])) by (rewrite length_combine; lia).
  rewrite combine_nth by exact Hlen. cbn [fst snd].
  pose proof (rect_nth w a r Ha Hr) as La.
  pose proof (rect_nth w b r Hb ltac:(lia)) as Lb.
  rewrite (nth_map_lt _ _ c (0, 0)) by (rewrite length_combine; lia).
  rewrite combine_nth by lia. reflexivity.
Qed.

Lemma clip_uint8_bounds (i d r : Z) :
  0 <= i <= 255 -> - r <= d < r ->
  Z.max 0 (i - r) <= SubtleNoise.clip_uint8 (i + d) <= Z.min 255 (i + r - 1).
Proof.
  intros Hi Hd. unfold SubtleNoise.clip_uint8.
  rewrite Z.mod_small by lia. lia.
Qed.

Lemma for_each_m_app {A S : Type} (l1 l2 : list A) (body : A -> S -> M S) (s : S)
    (g : rng) :
  for_each_m (l1 ++ l2) body s g =
  mbind (for_each_m l1 body s) (for_each_m l2 body) g.
Proof.
  revert s g. induction l1 as [|a l1 IH]; intros s g; [reflexivity|].
  cbn [app for_each_m]. unfold mbind.
  destruct (body a s g) as [[s1 g1]|e]; [|reflexivity].
  rewrite IH. reflexivity.
Qed.

Lemma shape_same_width {A B : Type} (a : Plane A) (b : Plane B) :
  shape a = shape b -> width a = width b.
Proof. intros H. now rewrite !width_shape, H. Qed.

(** One call of [add_subtle_noise] on a plane. *)
Lemma add_subtle_noise_plane (f : Z -> Z -> nat -> nat -> M (Plane Z))
    (self : SubtleNoise.t) (pl : Plane Z) (s : rng) :
  randint_array f -> 0 < SubtleNoise.subtle_range self ->
  rect (width pl) pl ->
  exists out s',
    SubtleNoise.add_subtle_noise f self pl s = Ok (out, s') /\
    shape out = shape pl /\
    forall r c, (r < length pl)%nat -> (c < width pl)%nat ->
      - SubtleNoise.subtle_range self <= px 0 out r c - px 0 pl r c
        < SubtleNoise.subtle_range self.
Proof.
  intros Hf Hr Hrect.
  destruct (Hf (- SubtleNoise.subtle_range self) (SubtleNoise.subtle_range self)
              (height pl) (width pl) s ltac:(lia)) as (noise & s' & E & Hlen & Hn & Hv).
  exists (SubtleNoise.add_planes pl noise), s'.
  unfold SubtleNoise.add_subtle_noise. cbv zeta. unfold mbind. rewrite E.
  split; [reflexivity|].
  assert (Hshape : shape pl = shape noise).
  { rewrite (proj1 (shape_rect _ _) Hrect), (proj1 (shape_rect _ _) Hn).
    unfold height in Hlen. now rewrite Hlen. }
  split; [now apply shape_add_planes|].
  intros r c Hr' Hc.
  rewrite (px_add_planes (width pl)) by (try assumption; now symmetry).
  pose proof (px_Forall (fun v => - SubtleNoise.subtle_range self <= v
                                  < SubtleNoise.subtle_range self) 0 noise r c Hv
                ltac:(cbv beta; lia)) as Hb.
  cbv beta in Hb. lia.
Qed.

(** The loop over the channels. *)
Lemma subtle_noise_channels (f : Z -> Z -> nat -> nat -> M (Plane Z))
    (self : SubtleNoise.t) (dim : nat) (F0 : Plane (list Z)) :
  randint_array f -> 0 < SubtleNoise.subtle_range self ->
  rect (width F0) F0 ->
  Forall (Forall (fun pixel => length pixel = dim)) F0 ->
  forall n, (n <= dim)%nat -> forall s,
    exists F s',
      for_each_m (seq 0 n)
        (fun i img =>
           mbind (SubtleNoise.add_subtle_noise f self (channel 0 i img))
             (fun pl => ret (set_channel i pl img))) F0 s = Ok (F, s') /\
      Forall (Forall (fun pixel => length pixel = dim)) F /\
      shape F = shape F0 /\
      forall k r c, (r < length F0)%nat -> (c < width F0)%nat ->
        if (k <? n)%nat
        then - SubtleNoise.subtle_range self
             <= px 0 (channel 0 k F) r c - px 0 (channel 0 k F0) r c
             < SubtleNoise.subtle_range self
        else px 0 (channel 0 k F) r c = px 0 (channel 0 k F0) r c.
Proof.
  intros Hf Hr Hrect Hdim n. induction n as [|n IH]; intros Hn s.
  - exists F0, s. split; [reflexivity|]. split; [exact Hdim|]. split; [reflexivity|].
    intros k r c _ _. reflexivity.
  - destruct (IH ltac:(lia) s) as (Fn & sn & E & I1 & I2 & I3).
    rewrite seq_S, for_each_m_app. unfold mbind at 1. rewrite E.
    cbn [for_each_m Nat.add].
    set (pl := channel 0 n Fn).
    assert (Hpl : shape pl = shape Fn) by apply shape_channel.
    assert (Hw : width pl = width F0).
    { rewrite (shape_same_width pl Fn Hpl). now apply shape_same_width. }
    assert (Hl : length pl = length F0).
    { rewrite (shape_length_eq pl Fn Hpl). now apply shape_length_eq. }
    assert (Hrpl : rect (width pl) pl).
    { rewrite Hw. apply (rect_shape_eq _ F0); [exact Hrect|]. congruence. }
    destruct (add_subtle_noise_plane f self pl sn Hf Hr Hrpl)
      as (out & s' & Eo & Hso & Hbo).
    unfold mbind at 1. unfold mbind at 1. rewrite Eo. cbn [ret].
    eexists _, s'. split; [reflexivity|].
    assert (Hs : shape out = shape Fn) by congruence.
    split; [|split].
    + apply (set_channel_channel 0 n 0 dim Fn out Hs I1). lia.
    + rewrite <- I2. apply (set_channel_channel 0 n 0 dim Fn out Hs I1). lia.
    + intros k r c Hr' Hc.
      destruct (set_channel_channel 0 n k dim Fn out Hs I1 ltac:(lia)) as (_ & _ & ->).
      specialize (I3 k r c Hr' Hc).
      destruct (Nat.eqb_spec n k) as [<-|Hne].
      * replace (n <? S n)%nat with true by (symmetry; apply Nat.ltb_lt; lia).
        replace (n <? n)%nat with false in I3 by (symmetry; apply Nat.ltb_ge; lia).
        rewrite <- I3. apply Hbo; lia.
      * destruct (Nat.ltb_spec k n), (Nat.ltb_spec k (S n)); try exact I3; lia.
Qed.

Lemma clip_uint8_range (v : Z) : is_uint8 (SubtleNoise.clip_uint8 v).
Proof.
  unfold is_uint8, SubtleNoise.clip_uint8. rewrite Z.mod_small by lia. lia.
Qed.

(** X16. [SubtleNoise] with a positive [subtle_range], run on an 8-bit
    image, returns an image of the same shape in which every sample lies
    between the sample of the input minus [subtle_range] and the sample of
    the input plus [subtle_range - 1], and within [0, 255]: the noise
    never raises a sample by the full [subtle_range]. *)
Theorem subtle_noise_bounds (f : Z -> Z -> nat -> nat -> M (Plane Z))
    (self : SubtleNoise.t) (img : Image) (s : rng) :
  randint_array f -> 0 < SubtleNoise.subtle_range self -> wf_image img ->
  exists out s',
    SubtleNoise.call f self (VImage img) true s = Ok (VImage out, s') /\
    same_shape img out /\
    forall k r c,
      (k < channels img)%nat -> (r < img_height img)%nat -> (c < img_width img)%nat ->
      Z.max 0 (px 0 (plane_of img k) r c - SubtleNoise.subtle_range self)
      <= px 0 (plane_of out k) r c
      <= Z.min 255 (px 0 (plane_of img k) r c + SubtleNoise.subtle_range self - 1).
Proof.
  intros Hf Hr Hwf.
  unfold SubtleNoise.call. cbn [gated]. unfold mbind at 1.
  destruct img as [rows|rows]; cbn [py_copy lift].
  - destruct Hwf as [Hrect Hu].
    destruct (add_subtle_noise_plane f self rows s Hf Hr Hrect)
      as (out & s' & E & Hs & Hb).
    unfold mbind at 1. unfold mbind at 1. rewrite E. cbn [ret].
    eexists _, s'. split; [reflexivity|]. split.
    + cbn [same_shape]. now rewrite shape_map.
    + intros k r c _ Hr' Hc. cbn [plane_of img_height img_width] in *.
      rewrite (px_map_default SubtleNoise.clip_uint8 0 0) by reflexivity.
      specialize (Hb r c Hr' Hc).
      pose proof (px_Forall is_uint8 0 rows r c Hu ltac:(unfold is_uint8; lia)) as Hi.
      unfold is_uint8 in Hi.
      replace (px 0 out r c) with (px 0 rows r c + (px 0 out r c - px 0 rows r c)) by ring.
      apply clip_uint8_bounds; lia.
  - destruct Hwf as [Hrect Hpix].
    set (dim := length (hd [] (hd [] rows))) in *.
    assert (Hdim : Forall (Forall (fun pixel => length pixel = dim)) rows).
    { eapply Forall_impl; [|exact Hpix]. intros row Hrow. cbv beta.
      eapply Forall_impl; [|exact Hrow]. now intros pixel [Hl _]. }
    destruct (subtle_noise_channels f self dim rows Hf Hr Hrect Hdim dim (le_n _) s)
      as (F & s' & E & I1 & I2 & I3).
    unfold mbind at 1. unfold mbind at 1. unfold range. rewrite Nat.sub_0_r.
    fold dim. rewrite E. cbn [ret].
    eexists _, s'. split; [reflexivity|]. split.
    + cbn [same_shape]. rewrite shape3_map.
      rewrite (shape3_uniform dim rows Hdim), (shape3_uniform dim F I1).
      now rewrite I2.
    + intros k r c Hk Hr' Hc. cbn [plane_of img_height img_width channels] in *.
      assert (Hcm : channel 0 k (map (map (map SubtleNoise.clip_uint8)) F) =
                    map (map SubtleNoise.clip_uint8) (channel 0 k F))
        by exact (channel_map SubtleNoise.clip_uint8 0 k F).
      rewrite Hcm.
      rewrite (px_map_default SubtleNoise.clip_uint8 0 0) by reflexivity.
      specialize (I3 k r c Hr' Hc). fold dim in Hk.
      destruct (Nat.ltb_spec k dim); [|lia].
      assert (Hi : is_uint8 (px 0 (channel 0 k rows) r c)).
      { unfold channel.
        rewrite (px_map_default (fun pixel => nth k pixel 0) [] 0) by apply nth_nil_0.
        assert (Hp : Forall is_uint8 (px [] rows r c)).
        { apply (px_Forall (fun pixel => Forall is_uint8 pixel)); [|constructor].
          eapply Forall_impl; [|exact Hpix]. intros row Hrow. cbv beta.
          eapply Forall_impl; [|exact Hrow]. now intros pixel [_ Hp]. }
        destruct (nth_in_or_default k (px [] rows r c) 0) as [Hin| ->].
        - rewrite Forall_forall in Hp. now apply Hp.
        - unfold is_uint8. lia. }
      unfold is_uint8 in Hi.
      replace (px 0 (channel 0 k F) r c)
        with (px 0 (channel 0 k rows) r c
              + (px 0 (channel 0 k F) r c - px 0 (channel 0 k rows) r c)) by ring.
      apply clip_uint8_bounds; lia.
Qed.

Lemma subtle_noise_bounds_witness :
  randint_array lowest_noise /\
  0 < SubtleNoise.subtle_range {| SubtleNoise.subtle_range := 10; SubtleNoise.p := 1 |} /\
  wf_image color_1x2 /\
  exists out s',
    SubtleNoise.call lowest_noise
      {| SubtleNoise.subtle_range := 10; SubtleNoise.p := 1 |}
      (VImage color_1x2) true half_rng = Ok (VImage out, s') /\
    same_shape color_1x2 out /\
    forall k r c,
      (k < channels color_1x2)%nat -> (r < img_height color_1x2)%nat ->
      (c < img_width color_1x2)%nat ->
      Z.max 0 (px 0 (plane_of color_1x2 k) r c
               - SubtleNoise.subtle_range
                   {| SubtleNoise.subtle_range := 10; SubtleNoise.p := 1 |})
      <= px 0 (plane_of out k) r c
      <= Z.min 255 (px 0 (plane_of color_1x2 k) r c
                    + SubtleNoise.subtle_range
                        {| SubtleNoise.subtle_range := 10; SubtleNoise.p := 1 |} - 1).
Proof.
  assert (Hwf : wf_image color_1x2)
    by (split; repeat constructor; unfold is_uint8; lia).
  split; [exact lowest_noise_array|]. split; [simpl; lia|]. split; [exact Hwf|].
  apply (subtle_noise_bounds lowest_noise
           {| SubtleNoise.subtle_range := 10; SubtleNoise.p := 1 |}
           color_1x2 half_rng lowest_noise_array); [simpl; lia|exact Hwf].
Defined.

(** ** The light mask, whatever the mode *)

Lemma mode_of_other (mode m : string) :
  ScannerAugmentation.mode_of mode = ScannerAugmentation.other m -> m = mode.
Proof.
  unfold ScannerAugmentation.mode_of.
  destruct (String.eqb mode "linear_dynamic"); [discriminate|].
  destruct (String.eqb mode "linear_static"); [discriminate|].
  destruct (String.eqb mode "gaussian"); [discriminate|].
  intros E. now injection E.
Qed.

Lemma mode_of_known (mode : string) :
  (forall m, ScannerAugmentation.mode_of mode <> ScannerAugmentation.other m) ->
  mode = "linear_dynamic"%string \/ mode = "linear_static"%string
  \/ mode = "gaussian"%string.
Proof.
  unfold ScannerAugmentation.mode_of. intros H.
  destruct (String.eqb_spec mode "linear_dynamic"); [now left|].
  destruct (String.eqb_spec mode "linear_static"); [now right; left|].
  destruct (String.eqb_spec mode "gaussian"); [now right; right|].
  exfalso. now apply (H mode).
Qed.

(** The rows of the three accepted modes: the loop has no branch for the
    two linear ones. *)
Lemma row_value_known (norm_pdf : Q -> Q -> Q -> Q) (mode : string) (i : nat)
    (max_brightness min_brightness : Q) (light_y : Z) (rate : option Q) (size_y : Z) :
  mode = "linear_dynamic"%string \/ mode = "linear_static"%string
  \/ mode = "gaussian"%string ->
  ScannerAugmentation.row_value norm_pdf mode i max_brightness min_brightness
    light_y rate size_y =
  if String.eqb mode "gaussian" then Raise (NameError "norm") else Ok 0%Q.
Proof. intros [->|[->| ->]]; reflexivity. Qed.

(** X17. Whatever the mode and the other arguments, for a mask size
    with non-negative sides, [generate_parallel_light_mask] never reaches
    the rotation with a lit row: either the mask is all zero when the row
    loop is over (and the mode is not ["linear"]), or the call has raised:
    [AssertionError] for a mode other than the three accepted ones (the
    mode ["linear"] the row loop tests for is one of them), [NameError] on
    [norm] in mode ["gaussian"], [ZeroDivisionError] in mode
    ["linear_dynamic"] on an empty mask. *)
Theorem light_mask_never_lit (norm_pdf : Q -> Q -> Q -> Q) (w h : Z)
    (position : option (Z * Z)) (direction : option Z)
    (max_brightness min_brightness : Q) (mode : string) (rate : option Q) (s : rng) :
  0 <= w -> 0 <= h ->
  match ScannerAugmentation.fill_mask norm_pdf (w, h) position direction
          max_brightness min_brightness mode rate s with
  | Ok (f, _) =>
      let padding := ScannerAugmentation.times_sqrt2 (Z.max w h) in
      ScannerAugmentation.mask f =
        repeat (repeat 0%Q (Z.to_nat (padding * 2 + w))) (Z.to_nat (padding * 2 + h)) /\
      mode <> "linear"%string
  | Raise e =>
      (e = AssertionError /\
       ScannerAugmentation.mode_of mode = ScannerAugmentation.other mode) \/
      (e = NameError "norm" /\ mode = "gaussian"%string) \/
      (e = ZeroDivisionError /\ mode = "linear_dynamic"%string /\ Z.max w h = 0)
  end.
Proof.
  intros Hw Hh.
  pose proof (times_sqrt2_nonneg (Z.max w h) ltac:(lia)) as Hp.
  unfold ScannerAugmentation.fill_mask. cbn [fst snd].
  unfold mbind at 1.
  destruct (match position with
            | Some pos => ret pos
            | None => _
            end s) as [[[pos_x pos_y] s1]|e] eqn:E1.
  2:{ destruct position as [pos|]; [discriminate|].
      destruct (ScannerAugmentation.randint 0 w s) as [a sa].
      destruct (ScannerAugmentation.randint 0 h sa). discriminate. }
  unfold mbind at 1.
  destruct (match direction with
            | Some d => ret d
            | None => _
            end s1) as [[dir s2]|e] eqn:E2.
  2:{ destruct direction; discriminate. }
  unfold mbind at 1.
  destruct (match rate with
            | Some r => ret (Some r)
            | None => _
            end s2) as [[rate' s3]|e] eqn:E3.
  2:{ destruct rate; [discriminate|].
      destruct (String.eqb mode "linear_static"); [|discriminate].
      destruct (uniform (2 # 10) 2 s2). discriminate. }
  unfold mbind at 1.
  destruct ((if String.eqb mode "linear_dynamic"
             then if Z.max w h =? 0 then lift (Raise ZeroDivisionError)
                  else ret (Some ((max_brightness - min_brightness)
                                  / inject_Z (Z.max w h))%Q)
             else ret rate') s3) as [[rate'' s4]|e] eqn:E4.
  2:{ destruct (String.eqb_spec mode "linear_dynamic") as [Em|Em]; [|discriminate].
      destruct (Z.eqb_spec (Z.max w h) 0) as [Ez|Ez]; [|discriminate].
      cbn in E4. injection E4 as <-. right. right. auto. }
  destruct (ScannerAugmentation.mode_of mode) as [| | |m] eqn:Em.
  4:{ cbn [lift]. left. split; [reflexivity|].
      f_equal. now apply mode_of_other. }
  all: assert (Hk : mode = "linear_dynamic"%string \/ mode = "linear_static"%string
                    \/ mode = "gaussian"%string)
         by (apply mode_of_known; intros m; congruence).
  all: replace (ScannerAugmentation.times_sqrt2 (Z.max w h) * 2 + w <? 0) with false
         by (symmetry; apply Z.ltb_ge; lia).
  all: replace (ScannerAugmentation.times_sqrt2 (Z.max w h) * 2 + h <? 0) with false
         by (symmetry; apply Z.ltb_ge; lia).
  all: cbn [orb]; unfold mbind at 1.
  all: destruct (String.eqb_spec mode "gaussian") as [Eg|Eg].
  all: try (subst mode; discriminate Em).
  - rewrite for_each_fixed.
    + cbn [lift]. unfold ret. cbn [ScannerAugmentation.mask].
      split; [reflexivity|]. destruct Hk as [->|[->| ->]]; discriminate.
    + intros i. rewrite (row_value_known norm_pdf mode) by exact Hk.
      destruct (String.eqb_spec mode "gaussian"); [contradiction|].
      cbn [bind]. now rewrite list_set_repeat.
  - rewrite for_each_fixed.
    + cbn [lift]. unfold ret. cbn [ScannerAugmentation.mask].
      split; [reflexivity|]. destruct Hk as [->|[->| ->]]; discriminate.
    + intros i. rewrite (row_value_known norm_pdf mode) by exact Hk.
      destruct (String.eqb_spec mode "gaussian"); [contradiction|].
      cbn [bind]. now rewrite list_set_repeat.
  - destruct (Z.to_nat (ScannerAugmentation.times_sqrt2 (Z.max w h) * 2 + h))
      as [|n] eqn:En.
    + cbn [range Nat.sub seq for_each lift]. unfold ret.
      cbn [ScannerAugmentation.mask repeat].
      split; [reflexivity|]. subst mode. discriminate.
    + unfold range. rewrite Nat.sub_0_r. cbn [seq for_each].
      rewrite (row_value_known norm_pdf mode) by exact Hk.
      destruct (String.eqb_spec mode "gaussian"); [|contradiction].
      cbn [bind lift]. right. left. auto.
  - exfalso. unfold ScannerAugmentation.mode_of in Em.
    destruct (String.eqb mode "linear_dynamic"); [discriminate|].
    destruct (String.eqb mode "linear_static"); [discriminate|].
    destruct (String.eqb_spec mode "gaussian"); [contradiction|discriminate].
Qed.

Lemma light_mask_never_lit_witness :
  0 <= 3 /\ 0 <= 2 /\
  match ScannerAugmentation.fill_mask (fun _ _ _ => 1%Q) (3, 2) (Some (1, 1)) (Some 90)
          255 0 "linear_dynamic" None half_rng with
  | Ok (f, _) =>
      let padding := ScannerAugmentation.times_sqrt2 (Z.max 3 2) in
      ScannerAugmentation.mask f =
        repeat (repeat 0%Q (Z.to_nat (padding * 2 + 3))) (Z.to_nat (padding * 2 + 2)) /\
      "linear_dynamic"%string <> "linear"%string
  | Raise e =>
      (e = AssertionError /\
       ScannerAugmentation.mode_of "linear_dynamic" =
       ScannerAugmentation.other "linear_dynamic") \/
      (e = NameError "norm" /\ "linear_dynamic"%string = "gaussian"%string) \/
      (e = ZeroDivisionError /\ "linear_dynamic"%string = "linear_dynamic"%string /\
       Z.max 3 2 = 0)
  end.
Proof.
  split; [lia|]. split; [lia|].
  apply (light_mask_never_lit (fun _ _ _ => 1%Q) 3 2 (Some (1, 1)) (Some 90)
           255 0 "linear_dynamic" None half_rng); lia.
Defined.

(** ** The subtle noise of the scanner *)

(** [random.randint(a, b)] returns an integer of [a, b]. *)
Lemma randint_range (a b : Z) (s : rng) :
  a <= b -> rng_ok s ->
  a <= fst (ScannerAugmentation.randint a b s) <= b /\
  rng_ok (snd (ScannerAugmentation.randint a b s)).
Proof.
  intros Hab Hs. unfold ScannerAugmentation.randint.
  destruct (next s) as [d s'] eqn:En. cbn [fst snd].
  assert (Hd : (0 <= d /\ d <= 1)%Q).
  { unfold next in En. injection En as <- _. apply Hs. }
  assert (Hs' : rng_ok s').
  { unfold next in En. injection En as _ <-. intros n. apply (Hs (S n)). }
  split; [|exact Hs'].
  assert (H0 : 0 <= Qfloor (d * inject_Z (b - a + 1))).
  { change 0 with (Qfloor 0). apply Qfloor_resp_le.
    apply Qmult_le_0_compat; [apply Hd|].
    change 0%Q with (inject_Z 0). rewrite <- Zle_Qle. lia. }
  lia.
Qed.



(** ** Letterpress *)

Lemma py_randint_ok (a b : Z) (s : rng) :
  a <= b -> rng_ok s ->
  exists v s', py_randint a b s = Ok (v, s') /\ a <= v <= b /\ rng_ok s'.
Proof.
  intros Hab Hs. unfold py_randint.
  destruct (Z.ltb_spec b a); [lia|].
  destruct (randint_range a b s Hab Hs) as [Hv Hs'].
  destruct (ScannerAugmentation.randint a b s) as [v s'].
  exists v, s'. auto.
Qed.

Lemma randint_list_ok (n : nat) (a b : Z) :
  a <= b -> forall s, rng_ok s ->
  exists l s', Letterpress.randint_list n a b s = Ok (l, s') /\ rng_ok s'.
Proof.
  intros Hab. induction n as [|n IH]; intros s Hs.
  - exists [], s. auto.
  - destruct (py_randint_ok a b s Hab Hs) as (v & s1 & E1 & _ & Hs1).
    destruct (IH s1 Hs1) as (l & s2 & E2 & Hs2).
    exists (v :: l), s2. cbn [Letterpress.randint_list]. unfold mbind.
    rewrite E1, E2. auto.
Qed.

(** A loop whose body returns and keeps an invariant does too. *)
Lemma for_each_m_inv {A S : Type} (I : S -> Prop) (P : A -> Prop)
    (body : A -> S -> M S) (l : list A) :
  (forall a st s, P a -> I st -> rng_ok s ->
     exists st' s', body a st s = Ok (st', s') /\ I st' /\ rng_ok s') ->
  Forall P l ->
  forall st s, I st -> rng_ok s ->
    exists st' s', for_each_m l body st s = Ok (st', s') /\ I st' /\ rng_ok s'.
Proof.
  intros Hbody Hl. induction Hl as [|a l Ha _ IH]; intros st s Hst Hs.
  - exists st, s. auto.
  - destruct (Hbody a st s Ha Hst Hs) as (st1 & s1 & E1 & Hst1 & Hs1).
    destruct (IH st1 s1 Hst1 Hs1) as (st2 & s2 & E2 & Hst2 & Hs2).
    exists st2, s2. cbn [for_each_m]. unfold mbind. rewrite E1. auto.
Qed.

Lemma generate_points_ok (make_blobs : list Z -> Q * Q -> Q -> M (list (Q * Q)))
    (self : Letterpress.t) (max_box_size : Z) (s : rng) :
  blobs_return make_blobs ->
  fst (Letterpress.n_clusters self) <= snd (Letterpress.n_clusters self) ->
  fst (Letterpress.n_samples self) <= snd (Letterpress.n_samples self) ->
  fst (Letterpress.std_range self) <= snd (Letterpress.std_range self) ->
  rng_ok s ->
  exists points s',
    Letterpress.generate_points make_blobs self max_box_size s = Ok (points, s') /\
    rng_ok s'.
Proof.
  intros Hb Hc Hn Hd Hs. unfold Letterpress.generate_points.
  destruct (py_randint_ok 8 12 s ltac:(lia) Hs) as (rounds & s1 & E1 & _ & Hs1).
  unfold mbind at 1. rewrite E1.
  match goal with
  | |- context [for_each_m ?l ?body ?st0 s1] =>
      assert (Hloop : exists st' s', for_each_m l body st0 s1 = Ok (st', s')
                                     /\ True /\ rng_ok s')
  end.
  { apply (for_each_m_inv (fun _ => True) (fun _ => True)); auto.
    - intros _ st s0 _ _ Hs0.
      destruct (py_randint_ok _ _ s0 Hc Hs0) as (k & s01 & E01 & _ & Hs01).
      destruct (randint_list_ok (Z.to_nat k) _ _ Hn s01 Hs01) as (ns & s02 & E02 & Hs02).
      destruct (py_randint_ok _ _ s02 Hd Hs02) as (sd & s03 & E03 & _ & Hs03).
      destruct (Hb ns (0%Q, inject_Z max_box_size) (inject_Z sd / 100)%Q s03 Hs03)
        as (new & s04 & E04 & Hs04).
      exists (st ++ new), s04. unfold mbind. rewrite E01, E02, E03, E04. auto.
    - apply Forall_forall. auto. }
  destruct Hloop as (pts & s2 & E2 & _ & Hs2).
  exists pts, s2. auto.
Qed.

Lemma delete_invalid_valid (ysize xsize : Z) (points : list (Z * Z)) :
  Forall (fun pt => 0 <= fst pt < ysize /\ 0 <= snd pt < xsize)
    (Letterpress.delete_invalid ysize xsize points).
Proof.
  apply Forall_forall. intros pt Hin. unfold Letterpress.delete_invalid in Hin.
  repeat (apply filter_In in Hin; destruct Hin as [Hin ?]).
  repeat match goal with
         | H : negb (_ <? _) = true |- _ =>
             apply Bool.negb_true_iff in H; apply Z.ltb_ge in H
         end.
  lia.
Qed.

Lemma Forall_list_set {A : Type} (P : A -> Prop) (i : nat) (v : A) (l : list A) :
  Forall P l -> P v -> Forall P (list_set i v l).
Proof.
  intros Hl Hv. revert i. induction Hl as [|a l Ha Hl' IH]; intros [|i]; simpl;
    constructor; auto.
Qed.

Lemma Forall_plane_set {A : Type} (P : A -> Prop) (y x : nat) (v : A) (a : Plane A) :
  Forall (Forall P) a -> P v -> Forall (Forall P) (plane_set y x v a).
Proof.
  intros Ha Hv. unfold plane_set.
  destruct (nth_error a y) as [row|] eqn:E; [|exact Ha].
  apply Forall_list_set; [exact Ha|].
  apply Forall_list_set; [|exact Hv].
  rewrite Forall_forall in Ha. apply Ha. eapply nth_error_In. exact E.
Qed.

Lemma map_list_set {A B : Type} (f : A -> B) (i : nat) (v : A) (l : list A) :
  map f (list_set i v l) = list_set i (f v) (map f l).
Proof.
  revert i. induction l as [|a l IH]; intros [|i]; simpl; try reflexivity.
  now rewrite IH.
Qed.

Lemma list_set_same {A : Type} (i : nat) (d : A) (l : list A) :
  list_set i (nth i l d) l = l.
Proof.
  revert i. induction l as [|a l IH]; intros [|i]; simpl; try reflexivity.
  now rewrite IH.
Qed.

(** Writing an item that looks like the one it replaces. *)
Lemma map_plane_set {A B : Type} (f : A -> B) (d : A) (y x : nat) (v : A) (a : Plane A) :
  f v = f (px d a y x) -> (x < length (nth y a []))%nat ->
  map (map f) (plane_set y x v a) = map (map f) a.
Proof.
  intros Hv Hx. unfold plane_set.
  destruct (nth_error a y) as [row|] eqn:E; [|reflexivity].
  assert (Hrow : nth y a [] = row) by (now apply nth_error_nth).
  rewrite map_list_set, map_list_set.
  unfold px in Hv. rewrite Hrow in Hv, Hx. rewrite Hv.
  rewrite <- (nth_map_lt f row x d (f d)) by exact Hx.
  rewrite list_set_same.
  rewrite <- Hrow.
  assert (Hy : (y < length a)%nat) by (apply nth_error_Some; congruence).
  rewrite <- (nth_map_lt (map f) a y [] []) by exact Hy.
  apply list_set_same.
Qed.

(** The samples of an array are 8-bit values. *)
Lemma samples_uint8 (img : Image) :
  wf_image img ->
  match img with
  | Gray rows => Forall (Forall is_uint8) rows
  | Color rows => Forall (Forall (Forall is_uint8)) rows
  end.
Proof.
  destruct img as [rows|rows]; intros [_ H]; [exact H|].
  eapply Forall_impl; [|exact H]. intros row Hrow. cbv beta.
  eapply Forall_impl; [|exact Hrow]. now intros pixel [_ Hp].
Qed.

Lemma wf_same_shape (img mask : Image) :
  wf_image img -> same_shape img mask ->
  match mask with
  | Gray rows => Forall (Forall is_uint8) rows
  | Color rows => Forall (Forall (Forall is_uint8)) rows
  end ->
  wf_image mask.
Proof.
  intros Hwf Hs Hu. apply wf_of_shaped; [|exact Hu].
  now apply (same_shape_shaped img mask (wf_shaped img Hwf) Hs).
Qed.

Lemma mod_256_uint8 (v : Z) : is_uint8 (v mod 256).
Proof. unfold is_uint8. pose proof (Z.mod_pos_bound v 256 ltac:(lia)). lia. Qed.

(** Writing a value at a position of the image keeps the mask an 8-bit
    array of the shape of the image. *)
Lemma mask_set_ok (img mask : Image) (y x v : Z) :
  wf_image img -> same_shape img mask -> wf_image mask ->
  0 <= y < fst (Geometric.shape2 img) -> 0 <= x < snd (Geometric.shape2 img) ->
  exists mask',
    Letterpress.mask_set y x v mask = Ok mask' /\
    same_shape img mask' /\ wf_image mask'.
Proof.
  intros Hwf Hs Hm Hy Hx.
  destruct (same_shape_shaped img mask (wf_shaped img Hwf) Hs) as (Hsh & Hch & Hh & Hw).
  assert (Hshape2 : Geometric.shape2 img =
                    (Z.of_nat (img_height img), Z.of_nat (img_width img)))
    by (destruct img; reflexivity).
  rewrite Hshape2 in Hy, Hx. cbn [fst snd] in Hy, Hx.
  rewrite <- Hh in Hy. rewrite <- Hw in Hx.
  destruct mask as [rows|rows]; cbn [Letterpress.mask_set img_height img_width] in *;
    unfold height in *.
  - rewrite <- (Z2Nat.id y) by lia. rewrite py_index_nat by lia.
    assert (Hl : length (nth (Z.to_nat y) rows []) = width rows)
      by (apply rect_nth; [exact Hsh|lia]).
    rewrite Hl. rewrite <- (Z2Nat.id x) by lia. rewrite py_index_nat by lia.
    eexists. split; [reflexivity|].
    assert (Hs' : same_shape img (Gray (plane_set (Z.to_nat y) (Z.to_nat x) (v mod 256) rows))).
    { destruct img; cbn [same_shape] in *; [|contradiction].
      now rewrite shape_plane_set. }
    split; [exact Hs'|]. apply (wf_same_shape img _ Hwf Hs').
    apply Forall_plane_set; [apply (samples_uint8 _ Hm)|apply mod_256_uint8].
  - rewrite <- (Z2Nat.id y) by lia. rewrite py_index_nat by lia.
    destruct Hsh as [Hrect Hpix].
    assert (Hl : length (nth (Z.to_nat y) rows []) = width rows)
      by (apply rect_nth; [exact Hrect|lia]).
    rewrite Hl. rewrite <- (Z2Nat.id x) by lia. rewrite py_index_nat by lia.
    eexists. split; [reflexivity|].
    set (r := Z.to_nat y) in *. set (c := Z.to_nat x) in *.
    assert (Hs' : same_shape img
              (Color (plane_set r c (map (fun _ => v mod 256) (px [] rows r c)) rows))).
    { destruct img; cbn [same_shape] in *; [contradiction|].
      rewrite (map_plane_set (@length Z) [] r c); [exact Hs| |lia].
      apply length_map. }
    split; [exact Hs'|]. apply (wf_same_shape img _ Hwf Hs').
    apply Forall_plane_set; [apply (samples_uint8 _ Hm)|].
    apply Forall_map. apply Forall_forall. intros. apply mod_256_uint8.
Qed.

Lemma shape_press_row {A : Type} (f : A -> A -> A) (a b : Plane A) :
  shape a = shape b ->
  shape (Letterpress.press_row (Letterpress.press_row f) a b) = shape a.
Proof.
  revert b. induction a as [|ra a IH]; intros [|rb b] H; try discriminate;
    [reflexivity|].
  unfold shape in *. simpl in *. injection H as Hr Ht.
  f_equal.
  - unfold Letterpress.press_row. rewrite length_map, length_combine. lia.
  - now apply IH.
Qed.

Lemma nth_press_row {A : Type} (f : A -> A -> A) (d : A) (a b : list A) (i : nat) :
  length a = length b -> (i < length a)%nat ->
  nth i (Letterpress.press_row f a b) (f d d) = f (nth i a d) (nth i b d).
Proof.
  intros Hlen Hi. unfold Letterpress.press_row.
  rewrite (nth_map_lt _ _ i (d, d)) by (rewrite length_combine; lia).
  now rewrite combine_nth.
Qed.

Lemma px_press_row {A : Type} (f : A -> A -> A) (d : A) (w : nat) (a b : Plane A)
    (r c : nat) :
  rect w a -> rect w b -> length a = length b ->
  (r < length a)%nat -> (c < w)%nat ->
  px (f d d) (Letterpress.press_row (Letterpress.press_row f) a b) r c =
  f (px d a r c) (px d b r c).
Proof.
  intros Ha Hb Hlen Hr Hc. unfold px.
  pose proof (rect_nth w a r Ha Hr) as La.
  pose proof (rect_nth w b r Hb ltac:(lia)) as Lb.
  rewrite <- (nth_press_row f d (nth r a []) (nth r b []) c) by lia.
  f_equal.
  change (@nil A) with (Letterpress.press_row f (@nil A) (@nil A)) at 1.
  now apply nth_press_row.
Qed.

Lemma px_press_row_default {A : Type} (f : A -> A -> A) (d d' : A) (w : nat)
    (a b : Plane A) (r c : nat) :
  f d d = d' ->
  rect w a -> rect w b -> length a = length b ->
  (r < length a)%nat -> (c < w)%nat ->
  px d' (Letterpress.press_row (Letterpress.press_row f) a b) r c =
  f (px d a r c) (px d b r c).
Proof. intros <-. apply px_press_row. Qed.

Lemma lengths_press_row {A B : Type} (g : A -> A -> A) (len : A -> B) :
  (forall p q, len p = len q -> len (g p q) = len p) ->
  forall a b : list A,
    map len a = map len b -> map len (Letterpress.press_row g a b) = map len a.
Proof.
  intros Hg. induction a as [|p a IH]; intros [|q b] H; try discriminate;
    [reflexivity|].
  simpl in H. injection H as Hp Ht.
  unfold Letterpress.press_row in *. simpl. f_equal; [now apply Hg|now apply IH].
Qed.

Lemma length_press_row {A : Type} (f : A -> A -> A) (p q : list A) :
  length p = length q -> length (Letterpress.press_row f p q) = length p.
Proof.
  intros H. unfold Letterpress.press_row. rewrite length_map, length_combine. lia.
Qed.

Lemma press_0 (t : Z) : Letterpress.press t 0 0 = 0.
Proof. unfold Letterpress.press. now destruct (0 <? t). Qed.

Lemma px_pixel_length (dim : nat) (rows : Plane (list Z)) (w r c : nat) :
  rect w rows ->
  Forall (Forall (fun pixel => length pixel = dim)) rows ->
  (r < length rows)%nat -> (c < w)%nat ->
  length (px [] rows r c) = dim.
Proof.
  intros Hrect Hpix Hr Hc. unfold px.
  pose proof (rect_nth w rows r Hrect Hr) as Hl.
  rewrite Forall_forall in Hpix.
  specialize (Hpix (nth r rows []) (nth_In _ _ Hr)).
  rewrite Forall_forall in Hpix. apply Hpix. apply nth_In. lia.
Qed.

(** Lines 105 to 107 on two arrays of one shape. *)
Lemma apply_noise_ok (t : Z) (img mask : Image) :
  wf_image img -> same_shape img mask -> wf_image mask ->
  exists out,
    Letterpress.apply_noise t img mask = Ok out /\
    same_shape img out /\
    forall k r c,
      (k < channels img)%nat -> (r < img_height img)%nat -> (c < img_width img)%nat ->
      px 0 (plane_of out k) r c =
      Letterpress.press t (px 0 (plane_of img k) r c) (px 0 (plane_of mask k) r c).
Proof.
  intros Hwf Hs Hm.
  destruct (same_shape_shaped img mask (wf_shaped img Hwf) Hs) as (Hsh & Hch & Hh & Hw).
  destruct img as [rows|rows], mask as [noise|noise]; cbn [same_shape] in Hs;
    try contradiction; cbn [Letterpress.apply_noise].
  - destruct (list_eq_dec Nat.eq_dec (shape rows) (shape noise)) as [_|Hne];
      [|contradiction].
    eexists. split; [reflexivity|]. split.
    + cbn [same_shape]. symmetry. now apply shape_press_row.
    + intros k r c _ Hr Hc. cbn [plane_of img_height img_width] in *.
      destruct Hwf as [Hrect _]. cbn [shaped_image] in Hsh.
      apply (px_press_row_default _ 0 0 (width rows)); try assumption.
      * apply press_0.
      * now rewrite <- Hw.
      * unfold height in Hh. congruence.
  - destruct (list_eq_dec (list_eq_dec Nat.eq_dec)
                (map (map (@length Z)) rows) (map (map (@length Z)) noise)) as [_|Hne];
      [|contradiction].
    eexists. split; [reflexivity|]. split.
    + cbn [same_shape]. symmetry.
      apply (lengths_press_row _ (map (@length Z))); [|exact Hs].
      intros p q Hpq. apply (lengths_press_row _ (@length Z)); [|exact Hpq].
      intros u v Huv. now apply length_press_row.
    + intros k r c Hk Hr Hc. cbn [plane_of img_height img_width channels] in *.
      destruct Hwf as [Hrect Hpix]. destruct Hsh as [Hrectn Hpixn].
      unfold height in *. rewrite Hw in Hrectn. rewrite Hch in Hpixn.
      set (dim := length (hd [] (hd [] rows))) in *.
      assert (Hdim : Forall (Forall (fun pixel => length pixel = dim)) rows).
      { eapply Forall_impl; [|exact Hpix]. intros row Hrow. cbv beta.
        eapply Forall_impl; [|exact Hrow]. now intros pixel [Hl _]. }
      unfold channel.
      rewrite !(px_map_default (fun pixel => nth k pixel 0) [] 0) by apply nth_nil_0.
      rewrite (px_press_row_default _ [] [] (width rows)); try assumption;
        try reflexivity; try congruence.
      pose proof (px_pixel_length dim rows (width rows) r c Hrect Hdim Hr Hc) as L1.
      pose proof (px_pixel_length dim noise (width rows) r c Hrectn Hpixn
                    ltac:(lia) Hc) as L2.
      rewrite <- (press_0 t) at 1.
      apply nth_press_row; lia.
Qed.

Lemma zeros_like_ok (img : Image) :
  wf_image img ->
  same_shape img (Letterpress.zeros_like img) /\ wf_image (Letterpress.zeros_like img).
Proof.
  intros Hwf.
  assert (Hs : same_shape img (Letterpress.zeros_like img)).
  { destruct img as [rows|rows]; cbn [same_shape Letterpress.zeros_like].
    - now rewrite shape_map.
    - now rewrite shape3_map. }
  split; [exact Hs|]. apply (wf_same_shape img _ Hwf Hs).
  destruct img as [rows|rows]; cbn [Letterpress.zeros_like].
  - apply Forall_map, Forall_forall. intros row _.
    apply Forall_map, Forall_forall. intros v _. unfold is_uint8. lia.
  - apply Forall_map, Forall_forall. intros row _.
    apply Forall_map, Forall_forall. intros pixel _.
    apply Forall_map, Forall_forall. intros v _. unfold is_uint8. lia.
Qed.

Lemma mask_set_samples (P : Z -> Prop) (mask mask' : Image) (y x v : Z) :
  P (v mod 256) -> samples P mask ->
  Letterpress.mask_set y x v mask = Ok mask' -> samples P mask'.
Proof.
  intros Hv Hm. destruct mask as [rows|rows]; cbn [Letterpress.mask_set samples] in *.
  - destruct (py_index (length rows) y) as [r|]; [|discriminate].
    destruct (py_index (length (nth r rows [])) x) as [c|]; [|discriminate].
    intros E. injection E as <-. cbn [samples]. now apply Forall_plane_set.
  - destruct (py_index (length rows) y) as [r|]; [|discriminate].
    destruct (py_index (length (nth r rows [])) x) as [c|]; [|discriminate].
    intros E. injection E as <-. cbn [samples]. apply Forall_plane_set; [exact Hm|].
    apply Forall_map, Forall_forall. intros. exact Hv.
Qed.

Lemma samples_zeros_like (P : Z -> Prop) (img : Image) :
  P 0 -> samples P (Letterpress.zeros_like img).
Proof.
  intros H0. destruct img as [rows|rows]; cbn [Letterpress.zeros_like samples].
  - apply Forall_map, Forall_forall. intros row _.
    apply Forall_map, Forall_forall. intros v _. exact H0.
  - apply Forall_map, Forall_forall. intros row _.
    apply Forall_map, Forall_forall. intros pixel _.
    apply Forall_map, Forall_forall. intros v _. exact H0.
Qed.

Lemma samples_px (P : Z -> Prop) (img : Image) (k r c : nat) :
  samples P img -> P 0 -> P (px 0 (plane_of img k) r c).
Proof.
  intros Hs H0. destruct img as [rows|rows]; cbn [samples plane_of] in *.
  - now apply px_Forall.
  - unfold channel.
    rewrite (px_map_default (fun pixel => nth k pixel 0) [] 0) by apply nth_nil_0.
    assert (Hp : Forall P (px [] rows r c))
      by (apply (px_Forall (fun pixel => Forall P pixel)); [exact Hs|constructor]).
    destruct (nth_in_or_default k (px [] rows r c) 0) as [Hin| ->]; [|exact H0].
    rewrite Forall_forall in Hp. now apply Hp.
Qed.

(** The call, step by step: the mask when the points have been written,
    the threshold, and the result. *)
Lemma letterpress_call (P : Z -> Prop)
    (make_blobs : list Z -> Q * Q -> Q -> M (list (Q * Q)))
    (GaussianBlur : Image -> Image) (self : Letterpress.t) (img : Image) (s : rng) :
  blobs_return make_blobs ->
  (Letterpress.blur self <> 0 -> blur_keeps_shape GaussianBlur) ->
  fst (Letterpress.n_clusters self) <= snd (Letterpress.n_clusters self) ->
  fst (Letterpress.n_samples self) <= snd (Letterpress.n_samples self) ->
  fst (Letterpress.std_range self) <= snd (Letterpress.std_range self) ->
  fst (Letterpress.value_range self) <= snd (Letterpress.value_range self) ->
  rng_ok s -> wf_image img ->
  P 0 ->
  (forall v, fst (Letterpress.value_range self) <= v <= snd (Letterpress.value_range self) ->
             P (v mod 256)) ->
  exists mask t out s',
    Letterpress.call make_blobs GaussianBlur self (VImage img) true s =
      Ok (VImage out, s') /\
    same_shape img out /\
    samples P mask /\
    t <= snd (Letterpress.value_threshold_range self) /\
    forall k r c,
      (k < channels img)%nat -> (r < img_height img)%nat -> (c < img_width img)%nat ->
      px 0 (plane_of out k) r c =
      Letterpress.press t (px 0 (plane_of img k) r c)
        (px 0 (plane_of (if Letterpress.blur self =? 0 then mask else GaussianBlur mask) k)
           r c).
Proof.
  intros Hb Hblur Hc Hn Hd Hv Hs Hwf HP0 HPv.
  unfold Letterpress.call. cbn [gated py_copy]. unfold mbind at 1.
  change (lift (Ok img) s) with (@Ok (Image * rng) (img, s)). cbv beta iota.
  destruct (Geometric.shape2 img) as [ysize xsize] eqn:Esh.
  destruct (generate_points_ok make_blobs self (Z.max ysize xsize) s Hb Hc Hn Hd Hs)
    as (points & s1 & E1 & Hs1).
  unfold mbind at 1. rewrite E1.
  set (valid := Letterpress.delete_invalid ysize xsize
                  (map (fun pt => (Qtrunc (fst pt), Qtrunc (snd pt))) points)).
  destruct (zeros_like_ok img Hwf) as [Hz1 Hz2].
  match goal with
  | |- context [for_each_m valid ?body ?st0] =>
      assert (Hloop : exists st' s',
                for_each_m valid body st0 s1 = Ok (st', s') /\
                (same_shape img st' /\ wf_image st' /\ samples P st') /\ rng_ok s')
  end.
  { apply (for_each_m_inv
             (fun mask => same_shape img mask /\ wf_image mask /\ samples P mask)
             (fun pt => 0 <= fst pt < ysize /\ 0 <= snd pt < xsize)); auto.
    - intros pt mask s0 Hpt (Hm1 & Hm2 & Hm3) Hs0.
      destruct (py_randint_ok _ _ s0 Hv Hs0) as (value & s01 & E01 & Hval & Hs01).
      destruct (mask_set_ok img mask (fst pt) (snd pt) value Hwf Hm1 Hm2)
        as (mask' & Em & Hm1' & Hm2'); try (rewrite Esh; cbn [fst snd]; tauto).
      exists mask', s01. unfold mbind. rewrite E01, Em. cbn [lift].
      split; [reflexivity|]. split; [|exact Hs01].
      split; [exact Hm1'|]. split; [exact Hm2'|].
      apply (mask_set_samples P mask mask' (fst pt) (snd pt) value); auto.
    - apply delete_invalid_valid.
    - split; [exact Hz1|]. split; [exact Hz2|]. now apply samples_zeros_like. }
  destruct Hloop as (mask & s2 & E2 & (Hm1 & Hm2 & Hm3) & Hs2).
  unfold mbind at 1. rewrite E2.
  set (mask' := if Letterpress.blur self =? 0 then mask else GaussianBlur mask).
  assert (Hm' : same_shape img mask' /\ wf_image mask').
  { unfold mask'. destruct (Z.eqb_spec (Letterpress.blur self) 0) as [Hz|Hnz];
      [now split|].
    destruct (Hblur Hnz mask Hm2) as [Hb1 Hb2].
    split; [|exact Hb2]. now apply (same_shape_trans img mask). }
  destruct Hm' as [Hm1' Hm2'].
  assert (Ht : exists t s3,
             (if fst (Letterpress.value_threshold_range self)
                 <=? snd (Letterpress.value_threshold_range self)
              then py_randint (fst (Letterpress.value_threshold_range self))
                     (snd (Letterpress.value_threshold_range self))
              else ret (snd (Letterpress.value_threshold_range self))) s2 = Ok (t, s3) /\
             t <= snd (Letterpress.value_threshold_range self)).
  { destruct (Z.leb_spec (fst (Letterpress.value_threshold_range self))
                (snd (Letterpress.value_threshold_range self))) as [Hle|Hgt].
    - destruct (py_randint_ok _ _ s2 Hle Hs2) as (t & s3 & E3 & Ht & _).
      exists t, s3. split; [exact E3|lia].
    - exists (snd (Letterpress.value_threshold_range self)), s2.
      split; [reflexivity|lia]. }
  destruct Ht as (t & s3 & E3 & Ht).
  unfold mbind at 1. rewrite E3.
  destruct (apply_noise_ok t img mask' Hwf Hm1' Hm2') as (out & Eo & Hso & Hpo).
  unfold mbind at 1. rewrite Eo. cbn [lift ret].
  exists mask, t, out, s3. split; [reflexivity|]. split; [exact Hso|].
  split; [exact Hm3|]. split; [exact Ht|exact Hpo].
Qed.

Lemma two_points_return : blobs_return two_points.
Proof. intros ns box std s Hs. eexists _, s. split; [reflexivity|exact Hs]. Qed.





(** X20. [Letterpress] without the blur and with a [value_range]
    inside [0, 255]: every sample of the result is the sample of the input,
    or 0 (the mask where no point fell), or a value of [value_range]. *)
Theorem letterpress_values
    (make_blobs : list Z -> Q * Q -> Q -> M (list (Q * Q)))
    (GaussianBlur : Image -> Image) (self : Letterpress.t) (img : Image) (s : rng) :
  blobs_return make_blobs ->
  Letterpress.blur self = 0 ->
  fst (Letterpress.n_clusters self) <= snd (Letterpress.n_clusters self) ->
  fst (Letterpress.n_samples self) <= snd (Letterpress.n_samples self) ->
  fst (Letterpress.std_range self) <= snd (Letterpress.std_range self) ->
  0 <= fst (Letterpress.value_range self) ->
  fst (Letterpress.value_range self) <= snd (Letterpress.value_range self) ->
  snd (Letterpress.value_range self) <= 255 ->
  rng_ok s -> wf_image img ->
  exists out s',
    Letterpress.call make_blobs GaussianBlur self (VImage img) true s =
      Ok (VImage out, s') /\
    forall k r c,
      (k < channels img)%nat -> (r < img_height img)%nat -> (c < img_width img)%nat ->
      px 0 (plane_of out k) r c = px 0 (plane_of img k) r c \/
      px 0 (plane_of out k) r c = 0 \/
      fst (Letterpress.value_range self) <= px 0 (plane_of out k) r c
        <= snd (Letterpress.value_range self).
Proof.
  intros Hb Hnb Hc Hn Hd Hv0 Hv Hv1 Hs Hwf.
  set (P := fun v => v = 0 \/ fst (Letterpress.value_range self) <= v
                              <= snd (Letterpress.value_range self)).
  assert (HP0 : P 0) by (now left).
  assert (HPv : forall v, fst (Letterpress.value_range self) <= v
                          <= snd (Letterpress.value_range self) -> P (v mod 256)).
  { intros v Hval. right. rewrite Z.mod_small by lia. exact Hval. }
  destruct (letterpress_call P make_blobs GaussianBlur self img s
              Hb (fun Hnz => False_ind _ (Hnz Hnb)) Hc Hn Hd Hv Hs Hwf HP0 HPv)
    as (mask & t & out & s' & E & _ & Hm & _ & Hpo).
  exists out, s'. split; [exact E|].
  intros k r c Hk Hr Hcc. rewrite (Hpo k r c Hk Hr Hcc).
  rewrite Hnb. cbn [Z.eqb].
  unfold Letterpress.press.
  destruct (px 0 (plane_of img k) r c <? t); [|now left].
  right. exact (samples_px P mask k r c Hm HP0).
Qed.

Lemma letterpress_values_witness :
  blobs_return two_points /\
  Letterpress.blur letterpress_sharp = 0 /\
  fst (Letterpress.n_clusters letterpress_sharp)
    <= snd (Letterpress.n_clusters letterpress_sharp) /\
  fst (Letterpress.n_samples letterpress_sharp)
    <= snd (Letterpress.n_samples letterpress_sharp) /\
  fst (Letterpress.std_range letterpress_sharp)
    <= snd (Letterpress.std_range letterpress_sharp) /\
  0 <= fst (Letterpress.value_range letterpress_sharp) /\
  fst (Letterpress.value_range letterpress_sharp)
    <= snd (Letterpress.value_range letterpress_sharp) /\
  snd (Letterpress.value_range letterpress_sharp) <= 255 /\
  rng_ok half_rng /\ wf_image gray_2x2 /\
  exists out s',
    Letterpress.call two_points (fun mask => mask) letterpress_sharp
      (VImage gray_2x2) true half_rng = Ok (VImage out, s') /\
    forall k r c,
      (k < channels gray_2x2)%nat -> (r < img_height gray_2x2)%nat ->
      (c < img_width gray_2x2)%nat ->
      px 0 (plane_of out k) r c = px 0 (plane_of gray_2x2 k) r c \/
      px 0 (plane_of out k) r c = 0 \/
      fst (Letterpress.value_range letterpress_sharp) <= px 0 (plane_of out k) r c
        <= snd (Letterpress.value_range letterpress_sharp).
Proof.
  assert (Hwf : wf_image gray_2x2)
    by (split; repeat constructor; unfold is_uint8; lia).
  split; [exact two_points_return|].
  split; [reflexivity|].
  split; [simpl; lia|]. split; [simpl; lia|]. split; [simpl; lia|].
  split; [simpl; lia|]. split; [simpl; lia|]. split; [simpl; lia|].
  split; [exact rng_ok_half|]. split; [exact Hwf|].
  apply (letterpress_values two_points (fun mask => mask) letterpress_sharp
           gray_2x2 half_rng two_points_return);
    try reflexivity; try (simpl; lia); [exact rng_ok_half|exact Hwf].
Defined.

(** ** Dithering.__call__ *)

(** X21. A [Dithering] object in mode ["ordered"] with an order from 1
    on, called with [force] or with a draw that opens its gate, returns an
    image of the shape of its input in which every sample is 0 or 255. *)
Theorem dithering_call_ordered (order extra : nat) (self : Dithering.t) (img : Image)
    (force : bool) (s : rng) :
  Dithering.dither self = "ordered"%string ->
  Dithering.order self = Z.of_nat order -> (1 <= order)%nat ->
  shaped_image img ->
  force = true \/ Qle_bool (s O) (Dithering.p self) = true ->
  exists out s',
    Dithering.call (S order + extra) self (VImage img) force s = Ok (VImage out, s') /\
    same_shape img out /\
    forall k r c,
      (k < channels img)%nat -> (r < img_height img)%nat -> (c < img_width img)%nat ->
      px 0 (plane_of out k) r c = 0 \/ px 0 (plane_of out k) r c = 255.
Proof.
  intros Hd Ho H1 Hs Hgo.
  destruct (dither_Ordered_planes order extra img Hs H1) as (out & E & Hsh & Hpl).
  assert (Hbody : forall s0,
            lift (image <- py_copy (VImage img) ;;
                  if String.eqb (Dithering.dither self) "ordered" then
                    image_dither <- Dithering.dither_Ordered (S order + extra) image
                                      (Dithering.order self) ;;
                    Ok (VImage image_dither)
                  else Ok (VImage (Dithering.dither_Floyd_Steinberg image))) s0 =
            Ok (VImage out, s0)).
  { intros s0. cbn [py_copy bind]. rewrite Hd, Ho. cbn [String.eqb Ascii.eqb Bool.eqb].
    rewrite E. reflexivity. }
  assert (Hpx : forall k r c,
            (k < channels img)%nat -> (r < img_height img)%nat -> (c < img_width img)%nat ->
            px 0 (plane_of out k) r c = 0 \/ px 0 (plane_of out k) r c = 255).
  { intros k r c Hk Hr Hc. rewrite (Hpl k Hk).
    destruct (plane_of_shaped img k Hs) as (Hlen & Hrect).
    rewrite (px_threshold_dither _ (img_width img)) by (try assumption; lia).
    destruct (code_threshold order r c <? px 0 (plane_of img k) r c); auto. }
  unfold Dithering.call, gated.
  destruct force.
  - exists out, s. split; [apply Hbody|]. split; [exact Hsh|exact Hpx].
  - destruct Hgo as [Hf|Hgo]; [discriminate|].
    exists out, (snd (next s)). split; [|split; [exact Hsh|exact Hpx]].
    unfold mbind. rewrite should_run_draw, Hgo. apply Hbody.
Qed.

Lemma dithering_call_ordered_witness :
  Dithering.dither {| Dithering.dither := "ordered"; Dithering.order := 5;
                      Dithering.p := 1 |} = "ordered"%string /\
  Dithering.order {| Dithering.dither := "ordered"; Dithering.order := 5;
                     Dithering.p := 1 |} = Z.of_nat 5 /\
  (1 <= 5)%nat /\ shaped_image color_1x2 /\
  (false = true \/ Qle_bool (half_rng O)
                     (Dithering.p {| Dithering.dither := "ordered"; Dithering.order := 5;
                                     Dithering.p := 1 |}) = true) /\
  exists out s',
    Dithering.call (S 5 + 994)
      {| Dithering.dither := "ordered"; Dithering.order := 5; Dithering.p := 1 |}
      (VImage color_1x2) false half_rng = Ok (VImage out, s') /\
    same_shape color_1x2 out /\
    forall k r c,
      (k < channels color_1x2)%nat -> (r < img_height color_1x2)%nat ->
      (c < img_width color_1x2)%nat ->
      px 0 (plane_of out k) r c = 0 \/ px 0 (plane_of out k) r c = 255.
Proof.
  assert (Hs : shaped_image color_1x2) by (split; repeat constructor).
  assert (Hgo : false = true \/
                Qle_bool (half_rng O)
                  (Dithering.p {| Dithering.dither := "ordered"; Dithering.order := 5;
                                  Dithering.p := 1 |}) = true)
    by (right; reflexivity).
  split; [reflexivity|]. split; [reflexivity|]. split; [lia|]. split; [exact Hs|].
  split; [exact Hgo|].
  apply (dithering_call_ordered 5 994
           {| Dithering.dither := "ordered"; Dithering.order := 5; Dithering.p := 1 |}
           color_1x2 false half_rng); try reflexivity; [lia|exact Hs|exact Hgo].
Defined.
